(** * Order-book simulator: book store, impact simulation and order ledger

    A shallow embedding of [src/app/page.js] and [src/hooks/useOrderBook.js].

    JavaScript numbers are modelled by [number]: NaN, the two infinities and
    the finite values, the latter carried by exact rationals.  Arithmetic on
    finite values is exact: binary64 rounding, overflow and underflow are not
    modelled, [parseFloat] reads a decimal exactly, and there is a single
    zero, taken as positive when it is a divisor.  Results are kept in
    lowest terms ([Qred]) so that concrete runs can be compared with [=].

    What is proved is chosen accordingly.  The figures of the concrete
    scenarios are replayed in binary64 with the kernel's floats.  The general
    statements are about the structure of the ledger and of the book, about
    comparisons, signs and order, and about which operations produce a
    figure; where a statement would fail on very large or very small inputs,
    it carries bounds or asks that the figures involved be finite.  Bounds
    that hold only for exact arithmetic (a filled percentage of at most 100,
    an average fill price within the prices walked) are not stated;
    [rounding_in_binary64] shows how rounding breaks them. *)

From Stdlib Require Import Floats.
From Stdlib Require Import QArith Qabs Qminmax ZArith List String Ascii Bool Lia.
From Stdlib Require Import Sorting.Sorted Sorting.Permutation Lqa.
Import ListNotations.

Local Open Scope string_scope.
Local Open Scope Q_scope.

(** ** Numbers *)

Inductive number : Type :=
| NaN : number
| PInf : number
| NInf : number
| Fin : Q -> number.

Definition numZ (z : Z) : number := Fin (inject_Z z).
Definition zero : number := numZ 0.

Definition isNaN (x : number) : bool :=
  match x with NaN => true | _ => false end.

Definition Qlt_bool (a b : Q) : bool := negb (Qle_bool b a).

(** [x < y], [x <= y], [x > y], [x >= y]: every comparison with NaN is false. *)
Definition nlt (x y : number) : bool :=
  match x, y with
  | NaN, _ | _, NaN => false
  | PInf, _ => false
  | _, NInf => false
  | NInf, _ => true
  | Fin _, PInf => true
  | Fin a, Fin b => Qlt_bool a b
  end.

Definition nle (x y : number) : bool :=
  match x, y with
  | NaN, _ | _, NaN => false
  | NInf, _ => true
  | _, PInf => true
  | PInf, _ => false
  | Fin _, NInf => false
  | Fin a, Fin b => Qle_bool a b
  end.

Definition ngt (x y : number) : bool := nlt y x.
Definition nge (x y : number) : bool := nle y x.

(** [x === y] on numbers. *)
Definition nseq (x y : number) : bool :=
  match x, y with
  | PInf, PInf | NInf, NInf => true
  | Fin a, Fin b => Qeq_bool a b
  | _, _ => false
  end.

(** Truthiness of a number: neither NaN nor zero. *)
Definition truthy (x : number) : bool :=
  match x with
  | NaN => false
  | Fin a => negb (Qeq_bool a 0)
  | _ => true
  end.

Definition nneg (x : number) : number :=
  match x with
  | NaN => NaN
  | PInf => NInf
  | NInf => PInf
  | Fin a => Fin (Qred (- a))
  end.

Definition nadd (x y : number) : number :=
  match x, y with
  | NaN, _ | _, NaN => NaN
  | PInf, NInf | NInf, PInf => NaN
  | PInf, _ | _, PInf => PInf
  | NInf, _ | _, NInf => NInf
  | Fin a, Fin b => Fin (Qred (a + b))
  end.

Definition nsub (x y : number) : number :=
  match x, y with
  | NaN, _ | _, NaN => NaN
  | PInf, PInf | NInf, NInf => NaN
  | PInf, _ | _, NInf => PInf
  | NInf, _ | _, PInf => NInf
  | Fin a, Fin b => Fin (Qred (a - b))
  end.

(** Sign of a number that is not NaN: [Lt] negative, [Eq] zero, [Gt] positive. *)
Definition nsign (x : number) : comparison :=
  match x with
  | NaN => Eq
  | PInf => Gt
  | NInf => Lt
  | Fin a => a ?= 0
  end.

Definition inf_of_sign (s1 s2 : comparison) : number :=
  match s1, s2 with
  | Eq, _ | _, Eq => NaN
  | Gt, Gt | Lt, Lt => PInf
  | _, _ => NInf
  end.

Definition nmul (x y : number) : number :=
  match x, y with
  | NaN, _ | _, NaN => NaN
  | Fin a, Fin b => Fin (Qred (a * b))
  | _, _ => inf_of_sign (nsign x) (nsign y)
  end.

Definition ndiv (x y : number) : number :=
  match x, y with
  | NaN, _ | _, NaN => NaN
  | Fin a, Fin b =>
      if Qeq_bool b 0 then inf_of_sign (a ?= 0) Gt else Fin (Qred (a / b))
  | Fin _, _ => zero
  | _, Fin b => inf_of_sign (nsign x) (if Qeq_bool b 0 then Gt else b ?= 0)
  | _, _ => NaN
  end.

Definition nabs (x : number) : number :=
  match x with
  | NaN => NaN
  | PInf | NInf => PInf
  | Fin a => Fin (Qred (Qabs a))
  end.

(** [Math.min] of two numbers. *)
Definition nmin (x y : number) : number :=
  match x, y with
  | NaN, _ | _, NaN => NaN
  | _, _ => if nle x y then x else y
  end.

(** ** Values and [parseFloat]

    A field read from a form or from a feed message is a string or a number;
    a missing field is [VUndef]. *)

Inductive value : Type :=
| VUndef : value
| VStr : string -> value
| VNum : number -> value.

Definition digit_of (c : ascii) : option Z :=
  let n := Z.of_nat (nat_of_ascii c) in
  if ((48 <=? n) && (n <=? 57))%Z then Some (n - 48)%Z else None.

Definition is_space (c : ascii) : bool :=
  let n := nat_of_ascii c in
  (Nat.eqb n 32 || Nat.eqb n 9 || Nat.eqb n 10 || Nat.eqb n 11
   || Nat.eqb n 12 || Nat.eqb n 13)%bool.

Fixpoint skip_spaces (s : string) : string :=
  match s with
  | String c r => if is_space c then skip_spaces r else s
  | EmptyString => s
  end.

(** Reads a run of decimal digits: the value read after [acc], the number of
    digits, and what follows them. *)
Fixpoint read_digits (s : string) (acc : Z) (cnt : nat) : Z * nat * string :=
  match s with
  | String c r =>
      match digit_of c with
      | Some d => read_digits r (10 * acc + d)%Z (S cnt)
      | None => (acc, cnt, s)
      end
  | EmptyString => (acc, cnt, s)
  end.

Definition read_sign (s : string) : bool * string :=
  match s with
  | String "-"%char r => (true, r)
  | String "+"%char r => (false, r)
  | _ => (false, s)
  end.

(** The exponent part [e[+-]digits], when it is complete; 0 otherwise. *)
Definition read_exponent (s : string) : Z :=
  match s with
  | String c r =>
      if (Ascii.eqb c "e" || Ascii.eqb c "E")%bool then
        let '(neg, r1) := read_sign r in
        let '(e, n, _) := read_digits r1 0%Z 0%nat in
        match n with
        | O => 0%Z
        | S _ => if neg then (- e)%Z else e
        end
      else 0%Z
  | EmptyString => 0%Z
  end.

Definition pow10 (e : Z) : Q :=
  if (0 <=? e)%Z then inject_Z (10 ^ e) else / inject_Z (10 ^ (- e)).

(** [parseFloat] on a string: leading white space, an optional sign, then
    [Infinity] or the longest decimal literal; NaN when there is none. *)
Definition parseFloat_string (s : string) : number :=
  let '(neg, s1) := read_sign (skip_spaces s) in
  if String.prefix "Infinity" s1 then (if neg then NInf else PInf)
  else
    let '(ip, ni, s2) := read_digits s1 0%Z 0%nat in
    let '(fp, nf, s3) :=
      match s2 with
      | String "."%char r => read_digits r 0%Z 0%nat
      | _ => (0%Z, 0%nat, s2)
      end in
    match (ni + nf)%nat with
    | O => NaN
    | S _ =>
        let m := (inject_Z (ip * 10 ^ Z.of_nat nf + fp)) / inject_Z (10 ^ Z.of_nat nf) in
        let q := m * pow10 (read_exponent s3) in
        Fin (Qred (if neg then - q else q))
    end.

(** [parseFloat] converts its argument to a string first; on a number that
    gives the number back. *)
Definition parseFloat (v : value) : number :=
  match v with
  | VUndef => NaN
  | VStr s => parseFloat_string s
  | VNum n => n
  end.

(** A value used as an arithmetic operand ([ToNumber] of an optional number). *)
Definition toNumber (o : option number) : number :=
  match o with Some n => n | None => NaN end.

(** Truthiness of an optional number: [undefined], NaN and 0 are falsy. *)
Definition truthyOpt (o : option number) : bool :=
  match o with Some n => truthy n | None => false end.

(** ** Order books and order parameters *)

Inductive Venue : Type := OKX | BYBIT | DERIBIT.
Inductive Side : Type := Buy | Sell.
Inductive OrderType : Type := Market | Limit.
Inductive Status : Type := Pending | Untriggered | Filled | Cancelled | Failed.

Definition venue_eqb (a b : Venue) : bool :=
  match a, b with
  | OKX, OKX | BYBIT, BYBIT | DERIBIT, DERIBIT => true
  | _, _ => false
  end.

Definition side_eqb (a b : Side) : bool :=
  match a, b with
  | Buy, Buy | Sell, Sell => true
  | _, _ => false
  end.

Definition status_eqb (a b : Status) : bool :=
  match a, b with
  | Pending, Pending | Untriggered, Untriggered | Filled, Filled
  | Cancelled, Cancelled | Failed, Failed => true
  | _, _ => false
  end.

(** [orderType.includes('Limit')] *)
Definition includesLimit (t : OrderType) : bool :=
  match t with Limit => true | Market => false end.

Record Level : Type := mkLevel { price : number; size : number }.

Record Book : Type := mkBook { bids : list Level; asks : list Level }.

Record OrderParams : Type := mkParams {
  symbol : string;
  venue : Venue;
  side : Side;
  orderType : OrderType;
  limitPrice : value;   (* the [price] field of the form *)
  quantity : value;
  timing : value
}.

Definition withSide (p : OrderParams) (s : Side) : OrderParams :=
  mkParams (symbol p) (venue p) s (orderType p) (limitPrice p) (quantity p) (timing p).

Definition withOrderType (p : OrderParams) (t : OrderType) : OrderParams :=
  mkParams (symbol p) (venue p) (side p) t (limitPrice p) (quantity p) (timing p).

Definition withQuantity (p : OrderParams) (q : value) : OrderParams :=
  mkParams (symbol p) (venue p) (side p) (orderType p) (limitPrice p) q (timing p).

(** ** Impact simulation: [calculateMarketImpact] *)

Record Impact : Type := mkImpact {
  avgFillPrice : number;
  slippage : number;
  filledPercentage : number;
  priceImpact : number
}.

Definition zeroImpact : Impact := mkImpact zero zero zero zero.

(** The three accumulators of the level walk. *)
Record Fill : Type := mkFill {
  sizeToFill : number;
  totalCost : number;
  filledSize : number
}.

(** The size a level offers, in base units: the notional venue quotes size in
    quote currency. *)
Definition levelSizeInBase (v : Venue) (level : Level) : number :=
  if venue_eqb v DERIBIT
  then ndiv (parseFloat (VNum (size level))) (parseFloat (VNum (price level)))
  else parseFloat (VNum (size level)).

(** Whether the walk passes over a level without consuming it. *)
Definition skipsLevel (p : OrderParams) (level : Level) : bool :=
  let levelPrice := parseFloat (VNum (price level)) in
  (isNaN levelPrice || isNaN (levelSizeInBase (venue p) level))
  || (side_eqb (side p) Buy && includesLimit (orderType p)
      && ngt levelPrice (parseFloat (limitPrice p)))
  || (side_eqb (side p) Sell && includesLimit (orderType p)
      && nlt levelPrice (parseFloat (limitPrice p))).

Definition consume (p : OrderParams) (level : Level) (st : Fill) : Fill :=
  let levelPrice := parseFloat (VNum (price level)) in
  let fillableSize := nmin (sizeToFill st) (levelSizeInBase (venue p) level) in
  mkFill (nsub (sizeToFill st) fillableSize)
         (nadd (totalCost st) (nmul fillableSize levelPrice))
         (nadd (filledSize st) fillableSize).

(** The [for (const level of relevantBook)] loop. *)
Fixpoint walkLevels (p : OrderParams) (levels : list Level) (st : Fill) : Fill :=
  match levels with
  | [] => st
  | level :: rest =>
      if nle (sizeToFill st) zero then st
      else if skipsLevel p level then walkLevels p rest st
      else walkLevels p rest (consume p level st)
  end.

Definition relevantBook (p : OrderParams) (book : Book) : list Level :=
  if side_eqb (side p) Buy then asks book else bids book.

Definition bestPriceOf (levels : list Level) : number :=
  match levels with
  | [] => NaN
  | l :: _ => parseFloat (VNum (price l))
  end.

Definition calculateMarketImpact (p : OrderParams) (book : Book) : Impact :=
  let orderSize := parseFloat (quantity p) in
  if isNaN orderSize || nle orderSize zero then zeroImpact
  else
    let levels := relevantBook p book in
    match levels with
    | [] => zeroImpact
    | _ :: _ =>
        let bestPrice := bestPriceOf levels in
        if isNaN bestPrice || nle bestPrice zero then zeroImpact
        else
          let st := walkLevels p levels (mkFill orderSize zero zero) in
          if nseq (filledSize st) zero then zeroImpact
          else
            let avg := ndiv (totalCost st) (filledSize st) in
            mkImpact avg
                     (nmul (nabs (ndiv (nsub avg bestPrice) bestPrice)) (numZ 100))
                     (nmul (ndiv (filledSize st) orderSize) (numZ 100))
                     (nabs (nsub avg bestPrice))
    end.

(** ** Orders and the ledger

    An order is a JavaScript object; fields that may be absent are options.
    The ledger ([simulatedOrders]) is the array of orders. *)

Record ResultObj : Type := mkResult {
  r_avgFillPrice : option number;
  r_slippage : option number;
  r_filledPercentage : option number;
  r_priceImpact : option number;
  r_executedAt : option Z;
  r_error : option string
}.

Definition emptyResult : ResultObj := mkResult None None None None None None.

(** [{ ...result, executedAt }] for a result of the impact simulation. *)
Definition resultOfImpact (i : Impact) (executedAt : Z) : ResultObj :=
  mkResult (Some (avgFillPrice i)) (Some (slippage i)) (Some (filledPercentage i))
           (Some (priceImpact i)) (Some executedAt) None.

Definition errorResult (msg : string) : ResultObj :=
  mkResult None None None None None (Some msg).

(** [{ ...r, avgFillPrice: a }] *)
Definition withAvgFillPrice (r : ResultObj) (a : number) : ResultObj :=
  mkResult (Some a) (r_slippage r) (r_filledPercentage r) (r_priceImpact r)
           (r_executedAt r) (r_error r).

Record StopLoss : Type := mkStopLoss { stopPrice : value }.

Record Order : Type := mkOrder {
  id : string;
  params : OrderParams;
  status : Status;
  createdAt : Z;
  result : option ResultObj;
  pnl : option number;
  livePnl : option number;
  timeToFill : option number;
  positionId : option string;
  stopLoss : option StopLoss;
  exitResult : option ResultObj
}.

Definition Ledger : Type := list Order.

Definition withStatus (o : Order) (s : Status) : Order :=
  mkOrder (id o) (params o) s (createdAt o) (result o) (pnl o) (livePnl o)
          (timeToFill o) (positionId o) (stopLoss o) (exitResult o).

Definition withLivePnl (o : Order) (x : number) : Order :=
  mkOrder (id o) (params o) (status o) (createdAt o) (result o) (pnl o) (Some x)
          (timeToFill o) (positionId o) (stopLoss o) (exitResult o).

(** [{ ...o, pnl, exitResult }] *)
Definition withExit (o : Order) (p : number) (e : ResultObj) : Order :=
  mkOrder (id o) (params o) (status o) (createdAt o) (result o) (Some p) (livePnl o)
          (timeToFill o) (positionId o) (stopLoss o) (Some e).

(** [{ ...o, status, result }] *)
Definition withOutcome (o : Order) (s : Status) (r : ResultObj) : Order :=
  mkOrder (id o) (params o) s (createdAt o) (Some r) (pnl o) (livePnl o)
          (timeToFill o) (positionId o) (stopLoss o) (exitResult o).

(** [{ ...o, status: 'Filled', result, timeToFill }] *)
Definition withFill (o : Order) (r : ResultObj) (t : number) : Order :=
  mkOrder (id o) (params o) Filled (createdAt o) (Some r) (pnl o) (livePnl o)
          (Some t) (positionId o) (stopLoss o) (exitResult o).

(** [{ ...o, params: { ...o.params, quantity }, result: { ...o.result, avgFillPrice } }] *)
Definition withMerged (o : Order) (q a : number) : Order :=
  mkOrder (id o) (withQuantity (params o) (VNum q)) (status o) (createdAt o)
          (Some (withAvgFillPrice
                   (match result o with Some r => r | None => emptyResult end) a))
          (pnl o) (livePnl o) (timeToFill o) (positionId o) (stopLoss o)
          (exitResult o).

(** A computation that may stop on a [TypeError] (a field read from [null]
    or [undefined]). *)
Inductive outcome (A : Type) : Type :=
| Done : A -> outcome A
| Threw : outcome A.
Arguments Done {A} _.
Arguments Threw {A}.

Definition bind {A B : Type} (m : outcome A) (k : A -> outcome B) : outcome B :=
  match m with Done a => k a | Threw => Threw end.

Fixpoint forEach {S A : Type} (f : S -> A -> outcome S) (l : list A) (s : S)
  : outcome S :=
  match l with
  | [] => Done s
  | a :: rest => bind (f s a) (forEach f rest)
  end.

Fixpoint findIndex {A : Type} (f : A -> bool) (l : list A) : option nat :=
  match l with
  | [] => None
  | a :: rest =>
      if f a then Some O
      else match findIndex f rest with Some i => Some (S i) | None => None end
  end.

(** [l[i] = g(l[i])] for an index inside the array. *)
Fixpoint updateAt {A : Type} (i : nat) (g : A -> A) (l : list A) : list A :=
  match l, i with
  | [], _ => []
  | a :: rest, O => g a :: rest
  | a :: rest, S j => a :: updateAt j g rest
  end.

Definition hasId (i : string) (o : Order) : bool := String.eqb (id o) i.

(** [sl.positionId !== orderId] *)
Definition refersTo (i : string) (o : Order) : bool :=
  match positionId o with Some j => String.eqb j i | None => false end.

(** The orders still open as positions: [o.status === 'Filled' && !o.pnl]. *)
Definition isOpenPosition (o : Order) : bool :=
  status_eqb (status o) Filled && negb (truthyOpt (pnl o)).

(** [order?.result?.avgFillPrice] *)
Definition entryPriceOf (o : Order) : option number :=
  match result o with Some r => r_avgFillPrice r | None => None end.

(** *** [calculatePnl] *)
Definition calculatePnl (order : Order) (currentPrice : number) : number :=
  if negb (truthyOpt (entryPriceOf order)) || negb (truthy currentPrice) then zero
  else
    let entryPrice := toNumber (entryPriceOf order) in
    let qty := parseFloat (quantity (params order)) in
    if side_eqb (side (params order)) Buy
    then nmul (nsub currentPrice entryPrice) qty
    else nmul (nsub entryPrice currentPrice) qty.

(** [!book?.bids.length > 0 || !book?.asks.length > 0] *)
Definition bookUnavailable (b : Book) : bool :=
  match bids b, asks b with
  | _ :: _, _ :: _ => false
  | _, _ => true
  end.

(** *** [confirmCancelOrder]: the updater applied to the ledger. *)
Definition confirmCancelOrder (orderToCancel : option string) (p : Ledger) : Ledger :=
  match orderToCancel with
  | None => p
  | Some i =>
      if String.eqb i "" then p
      else map (fun o => if hasId i o then withStatus o Cancelled else o) p
  end.

Definition oppositeSide (s : Side) : Side :=
  match s with Buy => Sell | Sell => Buy end.

(** *** [handleClosePosition]: [simulatedOrders] is the ledger the handler was
    rendered with, [p] the ledger its updater is applied to. *)
Definition handleClosePosition (now : Z) (orderBooks : Venue -> Book)
    (simulatedOrders : Ledger) (orderId : string) (p : Ledger) : Ledger :=
  match find (hasId orderId) simulatedOrders with
  | None => p
  | Some orderToClose =>
      let closeSide := oppositeSide (side (params orderToClose)) in
      let closeParams := withOrderType (withSide (params orderToClose) closeSide) Market in
      let book := orderBooks (venue (params orderToClose)) in
      if bookUnavailable book then p
      else
        let closeResult := calculateMarketImpact closeParams book in
        let pnl := calculatePnl orderToClose (avgFillPrice closeResult) in
        let finalExitResult := resultOfImpact closeResult now in
        filter (fun sl => negb (refersTo orderId sl))
               (map (fun o => if hasId orderId o then withExit o pnl finalExitResult else o) p)
  end.

(** *** [handleAddStopLoss] *)
Definition handleAddStopLoss (now : Z) (newId : string) (simulatedOrders : Ledger)
    (positionId : string) (slParams : StopLoss) (p : Ledger) : Ledger :=
  match find (hasId positionId) simulatedOrders with
  | None => p
  | Some position =>
      let slSide := oppositeSide (side (params position)) in
      (p ++ [mkOrder newId (withSide (params position) slSide) Untriggered now
                     None None None None (Some positionId) (Some slParams) None])%list
  end.

(** *** [handleAddQuantity] *)
Definition handleAddQuantity (orderBooks : Venue -> Book) (simulatedOrders : Ledger)
    (orderId : string) (additionalQuantity : number) (p : Ledger) : outcome Ledger :=
  match find (hasId orderId) simulatedOrders with
  | None => Done p
  | Some orderToModify =>
      let addParams :=
        withOrderType (withQuantity (params orderToModify) (VNum additionalQuantity)) Market in
      let book := orderBooks (venue (params orderToModify)) in
      if bookUnavailable book then Done p
      else
        let addResult := calculateMarketImpact addParams book in
        match result orderToModify with
        | None => Threw
        | Some r =>
            let oldQty := parseFloat (quantity (params orderToModify)) in
            let oldTotalCost := nmul (toNumber (r_avgFillPrice r)) oldQty in
            let newTotalCost := nmul (avgFillPrice addResult) additionalQuantity in
            let totalQuantity := nadd oldQty additionalQuantity in
            let newAvgPrice := ndiv (nadd oldTotalCost newTotalCost) totalQuantity in
            Done (map (fun o => if hasId orderId o
                                then withMerged o totalQuantity newAvgPrice else o) p)
        end
  end.

(** *** [scheduleOrderExecution]

    Placement puts the new pending order in front of the ledger; the timer
    callback is the updater run when the delay has elapsed.  [orderBooks] is
    the book table the callback closed over. *)

Definition newPendingOrder (newId : string) (p : OrderParams) (now : Z) : Order :=
  mkOrder newId p Pending now None None None None None None None.

Definition placeOrder (newId : string) (p : OrderParams) (now : Z) (prev : Ledger)
  : Ledger :=
  newPendingOrder newId p now :: prev.

(** [(executedAt - createdAt) / 1000] *)
Definition secondsBetween (later earlier : Z) : number :=
  ndiv (numZ (later - earlier)) (numZ 1000).

Definition samePosition (p : OrderParams) (o : Order) : bool :=
  isOpenPosition o
  && String.eqb (symbol (params o)) (symbol p)
  && side_eqb (side (params o)) (side p)
  && venue_eqb (venue (params o)) (venue p).

Definition executionTimer (now : Z) (orderBooks : Venue -> Book) (p : OrderParams)
    (newId : string) (newCreatedAt : Z) (prevOrders : Ledger) : outcome Ledger :=
  match find (hasId newId) prevOrders with
  | None => Done prevOrders
  | Some orderToExecute =>
      if negb (status_eqb (status orderToExecute) Pending) then Done prevOrders
      else
        let executionBook := orderBooks (venue p) in
        if bookUnavailable executionBook then
          Done (map (fun o => if hasId newId o
                              then withOutcome o Failed (errorResult "Market data unavailable.")
                              else o) prevOrders)
        else
          let res := calculateMarketImpact p executionBook in
          if ngt (filledPercentage res) zero then
            let executedAt := now in
            let timeToFill := secondsBetween executedAt newCreatedAt in
            match find (samePosition p) prevOrders with
            | Some existingPosition =>
                match result existingPosition with
                | None => Threw
                | Some r =>
                    let oldQty := parseFloat (quantity (params existingPosition)) in
                    let oldTotalCost := nmul (toNumber (r_avgFillPrice r)) oldQty in
                    let newTotalCost := nmul (avgFillPrice res) (parseFloat (quantity p)) in
                    let totalQuantity := nadd oldQty (parseFloat (quantity p)) in
                    let newAvgPrice := ndiv (nadd oldTotalCost newTotalCost) totalQuantity in
                    Done (filter (fun o => negb (hasId newId o))
                            (map (fun o => if hasId (id existingPosition) o
                                           then withMerged o totalQuantity newAvgPrice
                                           else o) prevOrders))
                end
            | None =>
                Done (map (fun o => if hasId newId o
                                    then withFill o (resultOfImpact res executedAt) timeToFill
                                    else o) prevOrders)
            end
          else
            match orderType p with
            | Market =>
                Done (map (fun o => if hasId newId o
                                    then withOutcome o Failed
                                           (errorResult "Market order could not be filled.")
                                    else o) prevOrders)
            | Limit => Done prevOrders
            end
  end.

(** *** The order-evaluation effect, run on every book update

    [updatedOrders] starts as a copy of the ledger and is threaded through
    the loop together with [ordersHaveChanged].  The loop reads each order
    from the list filtered before it starts.  The only write through a shared
    object is the one to [livePnl]; order ids being unique, the object written
    is the order being processed, so the copy read by the loop and the entry
    of [updatedOrders] agree on every field the loop reads afterwards. *)

(** [executeTriggeredOrder]: whether the order was filled, and the updated list. *)
Definition executeTriggeredOrder (now : Z) (orderToExecute : Order) (book : Book)
    (updatedOrders : Ledger) : bool * Ledger :=
  let executionParams :=
    if status_eqb (status orderToExecute) Untriggered
    then withOrderType (params orderToExecute) Market
    else params orderToExecute in
  let res := calculateMarketImpact executionParams book in
  if nle (filledPercentage res) zero then (false, updatedOrders)
  else if status_eqb (status orderToExecute) Untriggered then
    let closed :=
      match positionId orderToExecute with
      | None => updatedOrders
      | Some pid =>
          match findIndex (hasId pid) updatedOrders with
          | Some i =>
              updateAt i (fun originalPosition =>
                            withExit originalPosition
                              (calculatePnl originalPosition (avgFillPrice res))
                              (resultOfImpact res now)) updatedOrders
          | None => updatedOrders
          end
      end in
    (true, filter (fun o => negb (hasId (id orderToExecute) o)) closed)
  else
    match findIndex (hasId (id orderToExecute)) updatedOrders with
    | Some i =>
        (true, updateAt i (fun o => withFill o (resultOfImpact res now)
                                      (secondsBetween now (createdAt orderToExecute)))
                 updatedOrders)
    | None => (true, updatedOrders)
    end.

(** [order.livePnl !== newLivePnl] *)
Definition livePnlDiffers (old : option number) (new : number) : bool :=
  match old with Some x => negb (nseq x new) | None => true end.

(** The execution condition of a resting order against the best quotes. *)
Definition conditionMet (order : Order) (midPrice bestBid bestAsk : number)
  : outcome bool :=
  match status order, orderType (params order) with
  | Pending, Limit =>
      let limit := parseFloat (limitPrice (params order)) in
      Done ((side_eqb (side (params order)) Buy && nge limit bestAsk)
            || (side_eqb (side (params order)) Sell && nle limit bestBid))
  | Untriggered, _ =>
      match stopLoss order with
      | None => Threw
      | Some sl =>
          let stop := parseFloat (stopPrice sl) in
          Done ((side_eqb (side (params order)) Sell && nle midPrice stop)
                || (side_eqb (side (params order)) Buy && nge midPrice stop))
      end
  | _, _ => Done false
  end.

(** The body of [ordersToProcess.forEach]. *)
Definition processOrder (now : Z) (currentSymbol : string) (currentBook : Book)
    (midPrice bestBid bestAsk : number) (st : Ledger * bool) (order : Order)
  : outcome (Ledger * bool) :=
  let '(updatedOrders, ordersHaveChanged) := st in
  if negb (String.eqb (symbol (params order)) currentSymbol) then
    if truthyOpt (livePnl order) then
      match findIndex (hasId (id order)) updatedOrders with
      | Some i => Done (updateAt i (fun o => withLivePnl o zero) updatedOrders, true)
      | None => Done st
      end
    else Done st
  else
    let st1 :=
      if isOpenPosition order then
        let newLivePnl := calculatePnl order midPrice in
        if livePnlDiffers (livePnl order) newLivePnl then
          match findIndex (hasId (id order)) updatedOrders with
          | Some i => (updateAt i (fun o => withLivePnl o newLivePnl) updatedOrders, true)
          | None => st
          end
        else st
      else st in
    bind (conditionMet order midPrice bestBid bestAsk) (fun met =>
      if met then
        let '(executionSuccessful, updated) :=
          executeTriggeredOrder now order currentBook (fst st1) in
        if executionSuccessful then Done (updated, true) else Done st1
      else Done st1).

Definition needsProcessing (o : Order) : bool :=
  status_eqb (status o) Pending || status_eqb (status o) Untriggered
  || isOpenPosition o.

(** One run of the effect: [Done (Some l)] commits the ledger [l],
    [Done None] leaves the ledger as it is. *)
Definition evaluateOrders (now : Z) (currentSymbol : string) (currentBook : Book)
    (simulatedOrders : Ledger) : outcome (option Ledger) :=
  match bids currentBook, asks currentBook with
  | b :: _, a :: _ =>
      let bestBid := price b in
      let bestAsk := price a in
      if truthy bestBid && truthy bestAsk then
        let midPrice := ndiv (nadd (parseFloat (VNum bestBid)) (parseFloat (VNum bestAsk)))
                             (numZ 2) in
        if negb (truthy midPrice) then Done None
        else
          let ordersToProcess := filter needsProcessing simulatedOrders in
          bind (forEach (processOrder now currentSymbol currentBook midPrice bestBid bestAsk)
                        ordersToProcess (simulatedOrders, false))
               (fun st => if snd st then Done (Some (fst st)) else Done None)
      else Done None
  | _, _ => Done None
  end.

(** The ledger after one run of the effect. *)
Definition afterTick (now : Z) (currentSymbol : string) (currentBook : Book)
    (l : Ledger) : Ledger :=
  match evaluateOrders now currentSymbol currentBook l with
  | Done (Some l') => l'
  | _ => l
  end.

(** ** Book store: [useOrderBook]

    The raw book of a venue is a pair of JavaScript [Map]s from the price as
    received to the size as received.  A [Map] keeps its keys in insertion
    order; it is modelled by the list of its entries. *)

Definition JsMap : Type := list (value * value).

(** Key equality of a [Map] (SameValueZero). *)
Definition key_eqb (a b : value) : bool :=
  match a, b with
  | VUndef, VUndef => true
  | VStr s, VStr t => String.eqb s t
  | VNum NaN, VNum NaN => true
  | VNum x, VNum y => nseq x y
  | _, _ => false
  end.

Fixpoint mapSet (k v : value) (m : JsMap) : JsMap :=
  match m with
  | [] => [(k, v)]
  | (k', v') :: rest =>
      if key_eqb k' k then (k', v) :: rest else (k', v') :: mapSet k v rest
  end.

Definition mapDelete (k : value) (m : JsMap) : JsMap :=
  filter (fun e => negb (key_eqb (fst e) k)) m.

Fixpoint mapGet (k : value) (m : JsMap) : option value :=
  match m with
  | [] => None
  | (k', v') :: rest => if key_eqb k' k then Some v' else mapGet k rest
  end.

(** [new Map(entries)] *)
Definition newMap (entries : list (value * value)) : JsMap :=
  fold_left (fun m e => mapSet (fst e) (snd e) m) entries [].

Record BookRef : Type := mkBookRef { bidsMap : JsMap; asksMap : JsMap }.

Definition emptyBookRef : BookRef := mkBookRef [] [].

(** A book message of the two venues that send [[price, size]] arrays. *)
Record BookMessage : Type := mkMessage {
  isSnapshot : bool;
  bidsDelta : list (value * value);
  asksDelta : list (value * value)
}.

(** [parseFloat(s) === 0 ? book.delete(p) : book.set(p, s)] *)
Definition applyDeltaEntry (m : JsMap) (e : value * value) : JsMap :=
  if nseq (parseFloat (snd e)) zero then mapDelete (fst e) m
  else mapSet (fst e) (snd e) m.

Definition applyDelta (entries : list (value * value)) (m : JsMap) : JsMap :=
  fold_left applyDeltaEntry entries m.

(** The snapshot and delta handling of [ws.onmessage]. *)
Definition applyMessage (ref : BookRef) (msg : BookMessage) : BookRef :=
  if isSnapshot msg
  then mkBookRef (newMap (bidsDelta msg)) (newMap (asksDelta msg))
  else mkBookRef (applyDelta (bidsDelta msg) (bidsMap ref))
                 (applyDelta (asksDelta msg) (asksMap ref)).

(** A book message of the venue that sends [[type, price, size]] arrays;
    each entry is the array as received. *)
Record DeribitMessage : Type := mkDeribitMessage {
  deribitIsSnapshot : bool;
  deribitBids : list (list value);
  deribitAsks : list (list value)
}.

(** [a === b] on values. *)
Definition strictEq (a b : value) : bool :=
  match a, b with
  | VUndef, VUndef => true
  | VStr s, VStr t => String.eqb s t
  | VNum x, VNum y => nseq x y
  | _, _ => false
  end.

Definition element (i : nat) (a : list value) : value := nth i a VUndef.

(** The body of [updateBook]'s loop: entries that do not have three elements
    are passed over. *)
Definition updateBookEntry (book : JsMap) (delta : list value) : JsMap :=
  if negb (Nat.eqb (List.length delta) 3) then book
  else if strictEq (element 0 delta) (VStr "delete")
          || strictEq (element 2 delta) (VNum zero)
       then mapDelete (element 1 delta) book
       else mapSet (element 1 delta) (element 2 delta) book.

Definition updateBook (deltas : list (list value)) (book : JsMap) : JsMap :=
  fold_left updateBookEntry deltas book.

(** The snapshot branch clears the map and sets, for each entry, its first
    element to its second: [forEach(([p, s]) => book.set(p, s))]. *)
Definition setFirstTwo (book : JsMap) (entry : list value) : JsMap :=
  mapSet (element 0 entry) (element 1 entry) book.

Definition applyDeribitMessage (ref : BookRef) (msg : DeribitMessage) : BookRef :=
  if deribitIsSnapshot msg
  then mkBookRef (fold_left setFirstTwo (deribitBids msg) [])
                 (fold_left setFirstTwo (deribitAsks msg) [])
  else mkBookRef (updateBook (deribitBids msg) (bidsMap ref))
                 (updateBook (deribitAsks msg) (asksMap ref)).

(** A message for the raw book of a venue, by the shape the venue sends. *)
Inductive FeedMessage : Type :=
| Pairs : BookMessage -> FeedMessage
| Triples : DeribitMessage -> FeedMessage.

Definition applyFeedMessage (ref : BookRef) (msg : FeedMessage) : BookRef :=
  match msg with
  | Pairs m => applyMessage ref m
  | Triples m => applyDeribitMessage ref m
  end.

(** [Array.prototype.sort] with a comparison function: a stable sort; a
    positive result puts the second argument first, NaN counts as 0. *)
Fixpoint insertBy (cmp : Level -> Level -> number) (x : Level) (l : list Level)
  : list Level :=
  match l with
  | [] => [x]
  | y :: rest => if ngt (cmp x y) zero then y :: insertBy cmp x rest else x :: l
  end.

Definition sortBy (cmp : Level -> Level -> number) (l : list Level) : list Level :=
  fold_right (insertBy cmp) [] l.

Definition parseEntry (e : value * value) : Level :=
  mkLevel (parseFloat (fst e)) (parseFloat (snd e)).

Definition isNumericLevel (l : Level) : bool :=
  negb (isNaN (price l)) && negb (isNaN (size l)).

Definition bidsOrder (a b : Level) : number := nsub (price b) (price a).
Definition asksOrder (a b : Level) : number := nsub (price a) (price b).

(** [updateUI]: the sorted arrays handed to [setOrderBooks]. *)
Definition updateUI (ref : BookRef) : Book :=
  mkBook (sortBy bidsOrder (filter isNumericLevel (map parseEntry (bidsMap ref))))
         (sortBy asksOrder (filter isNumericLevel (map parseEntry (asksMap ref)))).

(** The book exposed after a run of messages, from the raw book [ref]. *)
Definition rawBookAfter (ref : BookRef) (msgs : list FeedMessage) : BookRef :=
  fold_left applyFeedMessage msgs ref.

Definition bookAfter (ref : BookRef) (msgs : list FeedMessage) : Book :=
  updateUI (rawBookAfter ref msgs).

(** ** Scenarios used in the statements below *)

(** The book side [[{price:100,size:1},{price:101,size:2}]]. *)
Definition scenarioAsks : list Level :=
  [mkLevel (numZ 100) (numZ 1); mkLevel (numZ 101) (numZ 2)].

(** A filled order of quantity [q] entered at price [entry]. *)
Definition positionAt (i sym : string) (v : Venue) (s : Side) (entry q : number)
  : Order :=
  mkOrder i (mkParams sym v s Market (VStr "") (VNum q) (VStr "0")) Filled 0
          (Some (resultOfImpact (mkImpact entry zero (numZ 100) zero) 0))
          None None None None None None.

(** A resting Buy limit order at 100 for quantity 1, and a book whose best
    ask has come down to that limit. *)
Definition restingLimit : Order :=
  newPendingOrder "a" (mkParams "BTC-USDT" OKX Buy Limit (VStr "100") (VStr "1") (VStr "0")) 0.

Definition crossingBook : Book :=
  mkBook [mkLevel (numZ 99) (numZ 1)] [mkLevel (numZ 100) (numZ 1)].

(** An open Buy position of quantity 1 entered at 100, a new Buy Market
    order, and books whose asks are the reference asks or a single level at
    110. *)
Definition openLong : Order := positionAt "p" "BTC-USDT" OKX Buy (numZ 100) (numZ 1).

Definition marketBuy (q : string) : OrderParams :=
  mkParams "BTC-USDT" OKX Buy Market (VStr "") (VStr q) (VStr "0").

Definition referenceBook : Book := mkBook [mkLevel (numZ 99) (numZ 1)] scenarioAsks.

Definition bookAt110 : Book :=
  mkBook [mkLevel (numZ 99) (numZ 1)] [mkLevel (numZ 110) (numZ 1)].

(** The merge of a fill into a position, as the specification words it:
    quantities summed, entry price averaged with the quantities as weights. *)
Definition mergedQuantity (oldQty fillQty : number) : number := nadd oldQty fillQty.

Definition mergedAverage (oldAvg oldQty fillAvg fillQty : number) : number :=
  ndiv (nadd (nmul oldAvg oldQty) (nmul fillAvg fillQty)) (nadd oldQty fillQty).

(** ** The level walk as the specification words it

    A level crosses the limit of a Limit order when its price is above the
    limit for Buy, below it for Sell.  [walkStoppingAtLimit] is the walk that
    stops at the first such level instead of passing over it. *)

Definition crossesLimit (p : OrderParams) (level : Level) : bool :=
  includesLimit (orderType p)
  && match side p with
     | Buy => ngt (price level) (parseFloat (limitPrice p))
     | Sell => nlt (price level) (parseFloat (limitPrice p))
     end.

Fixpoint walkStoppingAtLimit (p : OrderParams) (levels : list Level) (st : Fill)
  : Fill :=
  match levels with
  | [] => st
  | level :: rest =>
      if nle (sizeToFill st) zero then st
      else if crossesLimit p level then st
      else if skipsLevel p level then walkStoppingAtLimit p rest st
      else walkStoppingAtLimit p rest (consume p level st)
  end.

(** The order in which a book side is walked: ascending prices when buying
    from the asks, descending prices when selling into the bids. *)
Definition walkOrder (s : Side) (a b : Level) : Prop :=
  match s with
  | Buy => nle (price a) (price b) = true
  | Sell => nle (price b) (price a) = true
  end.

(** ** The book invariant as the specification words it *)

Definition descending (a b : Level) : Prop := nle (price b) (price a) = true.
Definition ascending (a b : Level) : Prop := nle (price a) (price b) = true.
Definition strictlyDescending (a b : Level) : Prop := nlt (price b) (price a) = true.
Definition strictlyAscending (a b : Level) : Prop := nlt (price a) (price b) = true.

Definition positiveSize (l : Level) : Prop := ngt (size l) zero = true.

Definition hasPrice (l : Level) : Prop := isNaN (price l) = false.

(** Two raw entries whose keys parse to different prices. *)
Definition differentPrices (e1 e2 : value * value) : Prop :=
  nseq (parseFloat (fst e1)) (parseFloat (fst e2)) = false.

(** A Buy limit order at 100 for quantity 5 on the reference venue. *)
Definition limitBuyAt100 : OrderParams :=
  mkParams "BTC-USDT" OKX Buy Limit (VStr "100") (VStr "5") (VStr "0").

(** A snapshot whose bids carry one price under two spellings and whose asks
    carry a level of size zero. *)
Definition looseSnapshot : BookMessage :=
  mkMessage true
    [(VStr "100", VStr "1"); (VStr "100.0", VStr "2")]
    [(VStr "101", VStr "0")].

(** Two levels with different prices. *)
Definition differentLevelPrices (a b : Level) : Prop :=
  nseq (price a) (price b) = false.

(** A raw book with two bids and one ask, prices all different. *)
Definition tidyRef : BookRef :=
  mkBookRef [(VStr "99.5", VStr "3"); (VStr "100", VStr "1")] [(VStr "101", VStr "2")].

(** ** Book updates over time *)

(** One book update as the effect sees it: the time, the symbol on view and
    the book of the selected venue. *)
Record Tick : Type := mkTick {
  tickTime : Z;
  tickSymbol : string;
  tickBook : Book
}.

Definition runTicks (ticks : list Tick) (l : Ledger) : Ledger :=
  fold_left (fun acc t => afterTick (tickTime t) (tickSymbol t) (tickBook t) acc) ticks l.

(** Marketability of a limit order as the specification words it: a Buy limit
    at or above the best ask, a Sell limit at or below the best bid. *)
Definition limitMarketable (p : OrderParams) (book : Book) : bool :=
  match bids book, asks book with
  | b :: _, a :: _ =>
      match side p with
      | Buy => nge (parseFloat (limitPrice p)) (price a)
      | Sell => nle (parseFloat (limitPrice p)) (price b)
      end
  | _, _ => false
  end.

(** An entry of the ledger that is still the resting order [order]. *)
Definition stillResting (order o : Order) : Prop :=
  id o = id order /\ status o = Pending /\ params o = params order.

(** A resting Sell limit order at 105 and three books whose best bid is 99,
    104 and 105. *)
Definition restingSell : Order :=
  newPendingOrder "s" (mkParams "BTC-USDT" OKX Sell Limit (VStr "105") (VStr "1") (VStr "0")) 0.

Definition bookWithBid (bid : Z) : Book :=
  mkBook [mkLevel (numZ bid) (numZ 1)] [mkLevel (numZ 106) (numZ 1)].

Definition quietTicks : list Tick :=
  [mkTick 1 "BTC-USDT" (bookWithBid 99); mkTick 2 "BTC-USDT" (bookWithBid 104)].

Definition resting (order : Order) (l : Ledger) : Prop :=
  exists o, In o l /\ stillResting order o.

(** The limit test of the effect, on the best quotes it was given. *)
Definition limitTest (p : OrderParams) (bestBid bestAsk : number) : bool :=
  (side_eqb (side p) Buy && nge (parseFloat (limitPrice p)) bestAsk)
  || (side_eqb (side p) Sell && nle (parseFloat (limitPrice p)) bestBid).

(** The stop condition as the specification words it: a Sell stop triggers
    when the mid-price is at or below the stop price, a Buy stop when it is
    at or above it. *)
Definition stopTriggered (s : Side) (midPrice stop : number) : bool :=
  match s with
  | Sell => nle midPrice stop
  | Buy => nge midPrice stop
  end.

(** [(bestBid + bestAsk) / 2] *)
Definition midPriceOf (b a : Level) : number :=
  ndiv (nadd (price b) (price a)) (numZ 2).

(** A Sell stop at 95 protecting the open Buy position of quantity 1 entered
    at 100, and a book whose mid-price has fallen to 94.5. *)
Definition protectiveStop : Order :=
  mkOrder "sl" (withSide (params openLong) Sell) Untriggered 3 None None None None
          (Some "p") (Some (mkStopLoss (VStr "95"))) None.

Definition fallenBook : Book :=
  mkBook [mkLevel (numZ 94) (numZ 1)] [mkLevel (numZ 95) (numZ 1)].


(** ** Well-formed books and the accumulators of the walk *)

(** A level with a finite positive price and a finite size that is not
    negative. *)
Definition tradableLevel (l : Level) : Prop :=
  exists p z, price l = Fin p /\ size l = Fin z /\ 0 < p /\ 0 <= z.

(** A level as above whose price lies between [lo] and [hi]. *)
Definition levelBetween (lo hi : Q) (l : Level) : Prop :=
  exists p z, price l = Fin p /\ size l = Fin z /\ 0 < p /\ 0 <= z
              /\ lo <= p /\ p <= hi.

(** The accumulators of a walk for an order of size [q] over levels priced
    between [lo] and [hi]: nothing is negative, what is filled and what is
    left add up to [q], and the cost lies between [lo] and [hi] times the
    filled size. *)
Definition fillWithin (q lo hi : Q) (st : Fill) : Prop :=
  exists s c f, st = mkFill (Fin s) (Fin c) (Fin f)
                /\ 0 <= s /\ 0 <= f /\ s + f == q
                /\ lo * f <= c /\ c <= hi * f.


(** ** Timing comparison: [TIMING_SCENARIOS], [handleCompare] and the best
    scenario of [TimingComparisonReport] *)

Record Scenario : Type := mkScenario {
  label : string;
  delayInMs : Z;
  delayFactor : number
}.

Definition TIMING_SCENARIOS : list Scenario :=
  [mkScenario "Immediate (Best)" 0 zero;
   mkScenario "5s Delay" 5000 (Fin (5 # 100));
   mkScenario "10s Delay" 10000 (Fin (10 # 100));
   mkScenario "30s Delay" 30000 (Fin (25 # 100))].

(** [{ ...scenario, avgFillPrice, slippage, priceImpact, filledPercentage, orderParams }] *)
Record ScenarioResult : Type := mkScenarioResult {
  scenario : Scenario;
  adjustedAvgFillPrice : number;
  adjustedSlippage : number;
  adjustedPriceImpact : number;
  scenarioFilledPercentage : number;
  orderParams : OrderParams
}.

(** The body of [TIMING_SCENARIOS.map] in [handleCompare]. *)
Definition compareScenario (p : OrderParams) (book : Book) (sc : Scenario)
  : ScenarioResult :=
  let baseImpact := calculateMarketImpact p book in
  let adjSlippage := nmul (slippage baseImpact) (nadd (numZ 1) (delayFactor sc)) in
  let adjPriceImpact := nmul (priceImpact baseImpact) (nadd (numZ 1) (delayFactor sc)) in
  let adjAvg :=
    if ngt (delayFactor sc) zero && ngt (avgFillPrice baseImpact) zero then
      let priceChange :=
        ndiv (nmul (avgFillPrice baseImpact) (nsub adjSlippage (slippage baseImpact)))
             (numZ 100) in
      if side_eqb (side p) Buy
      then nadd (avgFillPrice baseImpact) priceChange
      else nsub (avgFillPrice baseImpact) priceChange
    else avgFillPrice baseImpact in
  mkScenarioResult sc adjAvg adjSlippage adjPriceImpact
                   (filledPercentage baseImpact) p.

(** [handleCompare]: [None] stands for the "Order book not available."
    message, after which no comparison is stored. *)
Definition handleCompare (orderBooks : Venue -> Book) (p : OrderParams)
  : option (list ScenarioResult) :=
  let book := orderBooks (venue p) in
  if bookUnavailable book then None
  else Some (map (compareScenario p book) TIMING_SCENARIOS).

(** [bestScenario]: [comparisonResult.reduce] with no initial value, keeping
    the earlier of two results unless the later has smaller slippage. *)
Definition bestScenario (comparisonResult : list ScenarioResult)
  : option ScenarioResult :=
  match comparisonResult with
  | [] => None
  | first :: rest =>
      Some (fold_left (fun best current =>
                         if nlt (adjustedSlippage current) (adjustedSlippage best)
                         then current else best) rest first)
  end.

(** ** The tabs of [OrdersPage] *)

(** [['Pending', 'Untriggered'].includes(o.status)] *)
Definition inOpenOrdersTab (o : Order) : bool :=
  status_eqb (status o) Pending || status_eqb (status o) Untriggered.

(** [o.status === 'Filled' && o.pnl === undefined] *)
Definition inPositionsTab (o : Order) : bool :=
  status_eqb (status o) Filled && match pnl o with None => true | Some _ => false end.

(** [Cancelled || Failed || (Filled && o.pnl !== undefined)] *)
Definition inHistoryTab (o : Order) : bool :=
  status_eqb (status o) Cancelled || status_eqb (status o) Failed
  || (status_eqb (status o) Filled && match pnl o with None => false | Some _ => true end).


(** ** Raw maps: keys and lookups *)

(** No two entries of the map have the same key. *)
Definition uniqueKeys (m : JsMap) : Prop :=
  ForallOrdPairs (fun e1 e2 => key_eqb (fst e1) (fst e2) = false) m.

(** The value of the last entry of a list of entries that carries key [k]. *)
Definition lastValue (k : value) (entries : list (value * value)) : option value :=
  fold_left (fun acc e => if key_eqb (fst e) k then Some (snd e) else acc) entries None.

(** ** Price history kept by [updateUI] *)

Record PricePoint : Type := mkPricePoint {
  pointTime : Z;
  pointMid : number;
  pointExchange : Venue
}.

(** [l.slice(-n)] *)
Definition lastN {A : Type} (n : nat) (l : list A) : list A :=
  skipn (List.length l - n) l.

(** The price-history step of [updateUI]: the state is the history and the
    time of the last recorded point ([lastPriceUpdateRef]). *)
Definition recordPrice (now : Z) (exchange : Venue) (book : Book)
    (st : list PricePoint * Z) : list PricePoint * Z :=
  match bids book, asks book with
  | b :: _, a :: _ =>
      if (750 <? now - snd st)%Z then
        let midPrice := ndiv (nadd (price b) (price a)) (numZ 2) in
        (lastN 100 (fst st ++ [mkPricePoint now midPrice exchange]), now)
      else st
  | _, _ => st
  end.

(** A book update as the price history sees it. *)
Record BookUpdate : Type := mkBookUpdate {
  updateTime : Z;
  updateExchange : Venue;
  updatedBook : Book
}.

Definition recordPrices (updates : list BookUpdate) (st : list PricePoint * Z)
  : list PricePoint * Z :=
  fold_left (fun acc u => recordPrice (updateTime u) (updateExchange u) (updatedBook u) acc)
            updates st.

(** Two recorded points more than 750 ms apart, the earlier first. *)
Definition wellSpaced (a b : PricePoint) : Prop := (pointTime a + 750 < pointTime b)%Z.


(** A snapshot of the three-element shape whose entries lead with a change
    tag. *)
Definition taggedSnapshot : DeribitMessage :=
  mkDeribitMessage true
    [[VStr "new"; VNum (numZ 100); VNum (numZ 1)]]
    [[VStr "new"; VNum (numZ 101); VNum (numZ 2)]].


(** ** Simulation entry point: [handleSimulate]

    What the handler does next: a message, the slippage warning, or the
    scheduling of the order.  [parseInt] is the reading of the timing field
    as a base-10 integer; the handler is modelled for any such reading. *)

Inductive SimulateOutcome : Type :=
| ShowMessage (title message : string)
| ShowSlippageWarning (warnedSlippage warnedPriceImpact : number)
                      (warnedParams : OrderParams) (warnedDelay : number)
| ScheduleOrderExecution (scheduledParams : OrderParams) (scheduledDelay : number).

(** [0.01] is not a binary64 number; the constant is the number the literal
    denotes, 5764607523034235 / 2^59, just above one hundredth. *)
Definition SLIPPAGE_THRESHOLD : number :=
  Fin (5764607523034235 # 576460752303423488).


Definition warns (o : SimulateOutcome) : bool :=
  match o with ShowSlippageWarning _ _ _ _ => true | _ => false end.

(** ** Order imbalance: [imbalanceData] *)

Record Imbalance : Type := mkImbalance {
  ratio : number;
  totalBidSize : number;
  totalAskSize : number
}.

(** [levels.reduce((s, l) => s + l.size, 0)] *)
Definition totalSize (levels : list Level) : number :=
  fold_left (fun s l => nadd s (size l)) levels zero.

Definition imbalanceData (currentBook : Book) : option Imbalance :=
  match bids currentBook with
  | [] => None
  | _ :: _ =>
      let totalBidSize := totalSize (bids currentBook) in
      let totalAskSize := totalSize (asks currentBook) in
      if nseq (nadd totalBidSize totalAskSize) zero then None
      else Some (mkImbalance (ndiv totalBidSize (nadd totalBidSize totalAskSize))
                             totalBidSize totalAskSize)
  end.

(** A level whose size is a finite number that is not negative. *)
Definition sizeNotNegative (l : Level) : Prop :=
  exists z, size l = Fin z /\ 0 <= z.

Definition sizeIsZero (l : Level) : Prop := nseq (size l) zero = true.


(** ** Depth chart: [depthChartData]

    A point of a data set: [{ x: price, y: cumulative size }]. *)
Record ChartPoint : Type := mkChartPoint { chartX : number; chartY : number }.

(** [levels.map(l => ({ x: l.price, y: cumulative += l.size }))] with the
    running total starting from [cumulative]. *)
Fixpoint accumulate (cumulative : number) (levels : list Level) : list ChartPoint :=
  match levels with
  | [] => []
  | l :: rest =>
      let cumulative' := nadd cumulative (size l) in
      mkChartPoint (price l) cumulative' :: accumulate cumulative' rest
  end.

(** The bids and asks data sets; [None] stands for [{ datasets: [] }]. *)
Definition depthChartData (currentBook : Book)
  : option (list ChartPoint * list ChartPoint) :=
  match bids currentBook with
  | [] => None
  | _ :: _ =>
      Some (accumulate zero (rev (firstn 50 (bids currentBook))),
            accumulate zero (firstn 50 (asks currentBook)))
  end.

(** Along a data set: prices do not fall and cumulative sizes do not fall. *)
Definition risesTo (a b : ChartPoint) : Prop :=
  nle (chartX a) (chartX b) = true /\ nle (chartY a) (chartY b) = true.


(** The last entry of three elements in a delta of the [[type, price, size]]
    shape whose price is the key [k]: its type and its size. *)
Definition lastChange (k : value) (deltas : list (list value))
  : option (value * value) :=
  fold_left (fun acc d =>
               if Nat.eqb (List.length d) 3 && key_eqb (element 1 d) k
               then Some (element 0 d, element 2 d) else acc) deltas None.

(** A snapshot of two bids and one ask, and a delta that removes the bid at
    100, adds a bid at 99 and adds an ask at 102. *)
Definition tidySnapshot : BookMessage :=
  mkMessage true
    [(VStr "99.5", VStr "3"); (VStr "100", VStr "1")]
    [(VStr "101", VStr "2")].

Definition tidyDelta : BookMessage :=
  mkMessage false
    [(VStr "100", VStr "0"); (VStr "99", VStr "4")]
    [(VStr "102", VStr "1")].


(** An open Buy position in another symbol with its Sell stop at 95. *)
Definition otherLong : Order := positionAt "e" "ETH-USDT" OKX Buy (numZ 100) (numZ 1).

Definition otherStop : Order :=
  mkOrder "es" (withSide (params otherLong) Sell) Untriggered 3 None None None None
          (Some "e") (Some (mkStopLoss (VStr "95"))) None.


(** A book whose only bid has no size left, a second Sell stop, at 93, on the
    open Buy position, and a book whose mid-price has fallen to 90.5. *)
Definition emptiedBids : Book :=
  mkBook [mkLevel (numZ 99) zero] [mkLevel (numZ 100) (numZ 1)].

Definition secondStop : Order :=
  mkOrder "sl2" (withSide (params openLong) Sell) Untriggered 4 None None None None
          (Some "p") (Some (mkStopLoss (VStr "93"))) None.

Definition deeperBook : Book :=
  mkBook [mkLevel (numZ 90) (numZ 1)] [mkLevel (numZ 91) (numZ 1)].

(** The realized figures of the orders carrying the id [i] are [x] and [e]. *)
Definition realizedAs (i : string) (x : option number) (e : option ResultObj)
    (o : Order) : Prop :=
  id o = i -> pnl o = x /\ exitResult o = e.


(** A figure that is NaN or not negative. *)
Definition nanOrNotNegative (x : number) : Prop :=
  isNaN x = true \/ nle zero x = true.

(** * Properties *)

(** ** Facts about numbers *)

Local Open Scope bool_scope.

Lemma Qlt_bool_iff (a b : Q) : Qlt_bool a b = true <-> a < b.
Proof.
  unfold Qlt_bool. rewrite negb_true_iff. split.
  - intros H. apply Qnot_le_lt. intros Hle.
    apply Qle_bool_iff in Hle. congruence.
  - intros H. destruct (Qle_bool b a) eqn:E; [| reflexivity].
    apply Qle_bool_iff in E. exfalso. exact (Qlt_not_le _ _ H E).
Qed.

Lemma nlt_nle_trans (a b c : number) :
  nlt a b = true -> nle b c = true -> nlt a c = true.
Proof.
  destruct a, b, c; simpl; try congruence; intros H1 H2.
  apply Qlt_bool_iff in H1. apply Qle_bool_iff in H2.
  apply Qlt_bool_iff. eapply Qlt_le_trans; eassumption.
Qed.

Lemma nle_nlt_trans (a b c : number) :
  nle a b = true -> nlt b c = true -> nlt a c = true.
Proof.
  destruct a, b, c; simpl; try congruence; intros H1 H2.
  apply Qle_bool_iff in H1. apply Qlt_bool_iff in H2.
  apply Qlt_bool_iff. eapply Qle_lt_trans; eassumption.
Qed.

Lemma nle_trans (a b c : number) :
  nle a b = true -> nle b c = true -> nle a c = true.
Proof.
  destruct a, b, c; simpl; try congruence; intros H1 H2.
  apply Qle_bool_iff in H1. apply Qle_bool_iff in H2.
  apply Qle_bool_iff. eapply Qle_trans; eassumption.
Qed.

Lemma nlt_false_nle (a b : number) :
  isNaN a = false -> isNaN b = false -> nlt a b = false -> nle b a = true.
Proof.
  destruct a, b; simpl; try congruence; intros _ _ H.
  unfold Qlt_bool in H. now apply negb_false_iff in H.
Qed.

Lemma nlt_nle_false (a b : number) : nlt a b = true -> nle b a = false.
Proof.
  destruct a, b; simpl; try congruence. unfold Qlt_bool.
  intros H. now apply negb_true_iff in H.
Qed.

(** The sign of a difference of two numbers decides their order. *)
Lemma nsub_pos_iff (a b : number) : ngt (nsub a b) zero = nlt b a.
Proof.
  unfold ngt. destruct a, b; try reflexivity.
  unfold nsub, zero, numZ, nlt.
  apply eq_true_iff_eq. rewrite !Qlt_bool_iff. rewrite Qred_correct.
  rewrite (Qlt_minus_iff q0 q). reflexivity.
Qed.

(** ** Impact simulation on the reference book *)

(** C1: on a venue that quotes size in base units, against the asks
    [[{100,1},{101,2}]], a Buy Market order of quantity 2 returns average
    fill price 100.5, filled percentage 100, slippage 0.5 and price impact
    0.5; a Buy Market order of quantity 5 fills 3, leaves 2 unfilled and
    returns filled percentage 60.  The simulation is a total function: no
    case raises an error. *)
Theorem C1_impact_scenarios
    (sym : string) (v : Venue) (lp tm q2 q5 : value) (someBids : list Level)
    (Hv : v <> DERIBIT)
    (H2 : parseFloat q2 = numZ 2) (H5 : parseFloat q5 = numZ 5) :
  let book := mkBook someBids scenarioAsks in
  calculateMarketImpact (mkParams sym v Buy Market lp q2 tm) book
    = mkImpact (Fin (201 # 2)) (Fin (1 # 2)) (numZ 100) (Fin (1 # 2))
  /\ walkLevels (mkParams sym v Buy Market lp q5 tm) scenarioAsks
       (mkFill (numZ 5) zero zero)
     = mkFill (numZ 2) (numZ 302) (numZ 3)
  /\ filledPercentage (calculateMarketImpact (mkParams sym v Buy Market lp q5 tm) book)
     = numZ 60.
Proof.
  intros book. unfold calculateMarketImpact, book. cbn [quantity].
  rewrite H2, H5.
  destruct v; try (exfalso; apply Hv; reflexivity);
    repeat split; vm_compute; reflexivity.
Qed.

(** The operations of the two runs replayed in binary64, in the order the
    loop performs them: the same values come out, so rounding plays no part
    in the figures of C1. *)
Remark reference_runs_in_binary64 :
  let totalCost := (0 + 1 * 100 + 1 * 101)%float in
  let filledSize := (0 + 1 + 1)%float in
  let avg := (totalCost / filledSize)%float in
  avg = 100.5%float
  /\ (PrimFloat.abs ((avg - 100) / 100) * 100)%float = 0.5%float
  /\ (filledSize / 2 * 100)%float = 100%float
  /\ PrimFloat.abs (avg - 100)%float = 0.5%float
  /\ ((0 + 1 + 2) / 5 * 100)%float = 60%float.
Proof. cbv zeta. repeat split; vm_compute; reflexivity. Qed.

(** Likewise for the averaging of 1 at 100 with 1 at 110 and for the pnl of
    entry 100, exit 110, quantity 2. *)
Remark averaging_and_pnl_in_binary64 :
  ((100 * 1 + 110 * 1) / (1 + 1))%float = 105%float
  /\ ((110 - 100) * 2)%float = 20%float
  /\ ((100 - 110) * 2)%float = (-20)%float.
Proof. repeat split; vm_compute; reflexivity. Qed.

Lemma C1_impact_scenarios_witness :
  OKX <> DERIBIT
  /\ calculateMarketImpact
       (mkParams "BTC-USDT" OKX Buy Market (VStr "") (VStr "2") (VStr "0"))
       (mkBook [] scenarioAsks)
     = mkImpact (Fin (201 # 2)) (Fin (1 # 2)) (numZ 100) (Fin (1 # 2)).
Proof.
  split; [discriminate |].
  apply (C1_impact_scenarios "BTC-USDT" OKX (VStr "") (VStr "0") (VStr "2")
           (VNum (numZ 5)) []); [discriminate | reflexivity | reflexivity].
Defined.

(** ** Cancellation and the delayed-execution timer *)

Lemma withStatus_id (o : Order) (s : Status) : id (withStatus o s) = id o.
Proof. reflexivity. Qed.

Lemma hasId_true (i : string) (o : Order) : hasId i o = true <-> id o = i.
Proof. unfold hasId. apply String.eqb_eq. Qed.

Lemma hasId_false (i : string) (o : Order) : hasId i o = false <-> id o <> i.
Proof. unfold hasId. apply String.eqb_neq. Qed.

(** After a confirmed cancellation every order carrying the id is Cancelled,
    whatever its status was. *)
Lemma confirmCancelOrder_status (i : string) (p : Ledger) (o : Order) :
  i <> ""%string -> In o (confirmCancelOrder (Some i) p) -> id o = i ->
  status o = Cancelled.
Proof.
  intros Hi Hin Hid. unfold confirmCancelOrder in Hin.
  apply String.eqb_neq in Hi. rewrite Hi in Hin.
  apply in_map_iff in Hin. destruct Hin as [o0 [Ho0 _]].
  destruct (hasId i o0) eqn:E.
  - subst o. reflexivity.
  - subst o. apply hasId_false in E. contradiction.
Qed.

(** C2, the run of the code at the failing input: the limit order is Pending
    when cancellation is requested, the next book update fills it, and the
    confirmation then overwrites Filled with Cancelled: no status check is
    made when the cancellation is committed. *)
Lemma C2_confirmCancelOrder_overwrites_filled :
  let filled := afterTick 1 "BTC-USDT" crossingBook [restingLimit] in
  map status filled = [Filled]
  /\ map status (confirmCancelOrder (Some "a"%string) filled) = [Cancelled].
Proof. vm_compute. split; reflexivity. Qed.

Lemma find_hasId_In (i : string) (p : Ledger) (o : Order) :
  find (hasId i) p = Some o -> In o p /\ id o = i.
Proof.
  intros H. apply find_some in H. destruct H as [Hin Hid].
  split; [assumption | now apply hasId_true].
Qed.

(** C7: the timer callback of a delayed order looks the order up again when
    it fires and returns the ledger untouched unless the order is still
    Pending; so when the order was cancelled in the meantime the ledger stays
    as the cancellation left it and the order ends Cancelled. *)
Theorem C7_timer_after_cancel_is_noop
    (now t0 : Z) (orderBooks : Venue -> Book) (p : OrderParams) (newId : string)
    (prev : Ledger) (HnewId : newId <> ""%string) :
  (forall (l : Ledger) (o : Order),
      find (hasId newId) l = Some o -> status o <> Pending ->
      executionTimer now orderBooks p newId t0 l = Done l)
  /\ (forall l : Ledger,
        executionTimer now orderBooks p newId t0 (confirmCancelOrder (Some newId) l)
        = Done (confirmCancelOrder (Some newId) l))
  /\ (let cancelled := confirmCancelOrder (Some newId) (placeOrder newId p t0 prev) in
      executionTimer now orderBooks p newId t0 cancelled = Done cancelled
      /\ find (hasId newId) cancelled
         = Some (withStatus (newPendingOrder newId p t0) Cancelled)).
Proof.
  assert (Hstale : forall (l : Ledger) (o : Order),
             find (hasId newId) l = Some o -> status o <> Pending ->
             executionTimer now orderBooks p newId t0 l = Done l).
  { intros l o Hf Hs. unfold executionTimer. rewrite Hf.
    destruct (status o); try reflexivity. contradiction. }
  assert (Hcancel : forall l : Ledger,
             executionTimer now orderBooks p newId t0 (confirmCancelOrder (Some newId) l)
             = Done (confirmCancelOrder (Some newId) l)).
  { intros l.
    destruct (find (hasId newId) (confirmCancelOrder (Some newId) l)) as [o |] eqn:Hf.
    - apply (Hstale _ o Hf).
      destruct (find_hasId_In _ _ _ Hf) as [Hin Hid].
      rewrite (confirmCancelOrder_status newId l o HnewId Hin Hid). discriminate.
    - unfold executionTimer. rewrite Hf. reflexivity. }
  split; [exact Hstale | split; [exact Hcancel |]].
  intros cancelled. split; [apply Hcancel |].
  unfold cancelled, confirmCancelOrder, placeOrder.
  apply String.eqb_neq in HnewId. rewrite HnewId.
  assert (Hself : hasId newId (newPendingOrder newId p t0) = true)
    by (apply hasId_true; reflexivity).
  cbn [map find]. rewrite Hself.
  assert (Hself' : hasId newId (withStatus (newPendingOrder newId p t0) Cancelled) = true)
    by (apply hasId_true; reflexivity).
  rewrite Hself'. reflexivity.
Qed.

Lemma C7_timer_after_cancel_is_noop_witness :
  let l := confirmCancelOrder (Some "a"%string) [restingLimit] in
  executionTimer 5000 (fun _ => crossingBook) (params restingLimit) "a" 0 l = Done l
  /\ map status l = [Cancelled].
Proof.
  split; [| reflexivity].
  apply (C7_timer_after_cancel_is_noop 5000 0 (fun _ => crossingBook)
           (params restingLimit) "a" []).
  intros H; discriminate H.
Defined.

(** ** Profit and loss *)

Lemma find_map_update (i : string) (g : Order -> Order) (p : Ledger) (o : Order) :
  (forall x, id (g x) = id x) ->
  find (hasId i) p = Some o ->
  find (hasId i) (map (fun x => if hasId i x then g x else x) p) = Some (g o).
Proof.
  intros Hg. induction p as [| a p IH]; cbn [find map]; [discriminate |].
  destruct (hasId i a) eqn:E.
  - intros H. injection H as <-.
    assert (hasId i (g a) = true) as -> by (apply hasId_true; rewrite Hg; now apply hasId_true).
    reflexivity.
  - rewrite E. exact IH.
Qed.

Lemma find_filter_keep {A : Type} (f keep : A -> bool) (l : list A) (x : A) :
  find f l = Some x -> keep x = true ->
  find f (filter keep l) = Some x.
Proof.
  intros Hf Hk. induction l as [| a l IH]; cbn [find filter] in *; [discriminate |].
  destruct (f a) eqn:Ea.
  - injection Hf as ->. rewrite Hk. cbn [find]. rewrite Ea. reflexivity.
  - destruct (keep a); [cbn [find]; rewrite Ea |]; now apply IH.
Qed.

Lemma Forall_updateAt {A : Type} (P : A -> Prop) (k : nat) (g : A -> A) (l : list A) :
  (forall o, P o -> P (g o)) -> Forall P l -> Forall P (updateAt k g l).
Proof.
  intros Hg Hl. revert k. induction Hl as [| a l Ha Hl IH]; intros k;
    [destruct k; constructor |].
  destruct k; cbn [updateAt]; constructor; auto.
Qed.

Lemma Forall_updateAt_found {A : Type} (P : A -> Prop) (f : A -> bool) (k : nat)
    (g : A -> A) (l : list A) :
  findIndex f l = Some k -> (forall o, f o = true -> P (g o)) ->
  Forall P l -> Forall P (updateAt k g l).
Proof.
  intros Hk Hg Hl. revert k Hk. induction Hl as [| a l Ha Hl IH]; intros k Hk;
    [discriminate |].
  cbn [findIndex] in Hk. destruct (f a) eqn:Ea.
  - injection Hk as <-. cbn [updateAt]. constructor; auto.
  - destruct (findIndex f l) as [j |]; [| discriminate].
    injection Hk as <-. cbn [updateAt]. constructor; auto.
Qed.

Lemma Forall_filter {A : Type} (P : A -> Prop) (f : A -> bool) (l : list A) :
  Forall P l -> Forall P (filter f l).
Proof.
  intros H. rewrite Forall_forall in *. intros o Ho. apply H.
  apply filter_In in Ho. tauto.
Qed.

(** A triggered order that does not refer to [i] leaves the realized figures
    of the orders carrying [i] alone. *)
Lemma executeTriggeredOrder_realized (now : Z) (x : Order) (book : Book) (upd : Ledger)
    (i : string) (v : option number) (e : option ResultObj) :
  (status x = Untriggered -> positionId x <> Some i) ->
  Forall (realizedAs i v e) upd ->
  Forall (realizedAs i v e) (snd (executeTriggeredOrder now x book upd)).
Proof.
  intros Hx Hupd. unfold executeTriggeredOrder.
  destruct (nle _ zero); [exact Hupd |].
  destruct (status_eqb (status x) Untriggered) eqn:Es; cbn [snd].
  - apply Forall_filter.
    assert (Hst : status x = Untriggered) by (destruct (status x); now try discriminate).
    destruct (positionId x) as [pid |]; [| exact Hupd].
    destruct (findIndex (hasId pid) upd) as [k |] eqn:Ek; [| exact Hupd].
    apply (Forall_updateAt_found _ (hasId pid) k _ upd Ek); [| exact Hupd].
    intros o Ho Hid. cbn [withExit id] in Hid. apply hasId_true in Ho.
    exfalso. apply (Hx Hst). congruence.
  - destruct (findIndex (hasId (id x)) upd) as [k |]; [| exact Hupd].
    cbn [snd]. apply Forall_updateAt; [| exact Hupd].
    intros o Ho Hid. exact (Ho Hid).
Qed.

Lemma processOrder_realized (now : Z) (sym : string) (book : Book) (mid bb ba : number)
    (st st' : Ledger * bool) (x : Order) (i : string) (v : option number)
    (e : option ResultObj) :
  (status x = Untriggered -> positionId x <> Some i) ->
  processOrder now sym book mid bb ba st x = Done st' ->
  Forall (realizedAs i v e) (fst st) -> Forall (realizedAs i v e) (fst st').
Proof.
  intros Hx. destruct st as [upd changed]. unfold processOrder. cbn [fst].
  assert (Hlive : forall k w l, Forall (realizedAs i v e) l ->
                    Forall (realizedAs i v e) (updateAt k (fun o => withLivePnl o w) l)).
  { intros k w l Hl. apply Forall_updateAt; [| exact Hl].
    intros o Ho Hid. exact (Ho Hid). }
  destruct (negb (symbol (params x) =? sym)%string).
  - destruct (truthyOpt (livePnl x)); [| intros [= <-]; auto].
    destruct (findIndex (hasId (id x)) upd); intros [= <-]; cbn [fst]; auto.
  - set (st1 := if isOpenPosition x then _ else _).
    assert (H1 : Forall (realizedAs i v e) upd -> Forall (realizedAs i v e) (fst st1)).
    { intros Hupd. subst st1. destruct (isOpenPosition x); [| exact Hupd].
      destruct (livePnlDiffers _ _); [| exact Hupd].
      destruct (findIndex (hasId (id x)) upd); cbn [fst]; auto. }
    destruct (conditionMet x mid bb ba) as [met |]; cbn [bind]; [| discriminate].
    destruct met; [| intros [= <-]; exact H1].
    pose proof (executeTriggeredOrder_realized now x book (fst st1) i v e Hx) as He.
    destruct (executeTriggeredOrder now x book (fst st1)) as [ok updated].
    cbn [snd] in He. destruct ok; intros [= <-]; cbn [fst]; auto.
Qed.

Lemma forEach_processOrder_realized (now : Z) (sym : string) (book : Book)
    (mid bb ba : number) (xs : list Order) (st st' : Ledger * bool) (i : string)
    (v : option number) (e : option ResultObj) :
  Forall (fun x => status x = Untriggered -> positionId x <> Some i) xs ->
  forEach (processOrder now sym book mid bb ba) xs st = Done st' ->
  Forall (realizedAs i v e) (fst st) -> Forall (realizedAs i v e) (fst st').
Proof.
  intros Hxs. revert st. induction Hxs as [| x xs Hx _ IH]; intros st; cbn [forEach].
  - intros [= <-]. auto.
  - destruct (processOrder now sym book mid bb ba st x) as [st1 |] eqn:E;
      cbn [bind]; [| discriminate].
    intros Hrest Hst. apply (IH st1 Hrest).
    now apply (processOrder_realized now sym book mid bb ba st st1 x i v e Hx E).
Qed.

Lemma afterTick_realized (now : Z) (sym : string) (book : Book) (ledger : Ledger)
    (i : string) (v : option number) (e : option ResultObj) :
  Forall (fun x => status x = Untriggered -> positionId x <> Some i) ledger ->
  Forall (realizedAs i v e) ledger ->
  Forall (realizedAs i v e) (afterTick now sym book ledger).
Proof.
  intros Hno Hl. unfold afterTick.
  destruct (evaluateOrders now sym book ledger) as [[l' |] |] eqn:E; try exact Hl.
  unfold evaluateOrders in E.
  destruct (bids book) as [| b ?]; [discriminate |].
  destruct (asks book) as [| a ?]; [discriminate |].
  destruct (truthy (price b) && truthy (price a)); [| discriminate].
  destruct (negb (truthy _)); [discriminate |].
  match type of E with
  | bind ?run _ = _ => destruct run as [st |] eqn:Erun; cbn [bind] in E
  end; [| discriminate].
  destruct (snd st); [| discriminate]. injection E as <-.
  apply (forEach_processOrder_realized _ _ _ _ _ _ _ _ _ i v e
           (Forall_filter _ needsProcessing ledger Hno) Erun Hl).
Qed.

(** C9, as stated, fails.  At a reference price of 0 the function gives 0,
    not the formula: closing a Buy position of 2 entered at 100 on a book
    whose only bid has no size left fills nothing, so the exit price is 0 and
    the stored pnl is 0 where the formula gives -200.  And the pnl is not
    computed once: when a position has two stops, the first to trigger stores
    -6 and the second, on a later book update, stores -10 over it. *)
Lemma C9_counterexample_zero_fill_and_second_stop :
  (let position := positionAt "p" "BTC-USDT" OKX Buy (numZ 100) (numZ 2) in
   let closeParams := withOrderType (withSide (params position) Sell) Market in
   avgFillPrice (calculateMarketImpact closeParams emptiedBids) = zero
   /\ calculatePnl position zero = zero
   /\ nmul (nsub zero (numZ 100)) (numZ 2) = numZ (-200)
   /\ map pnl (handleClosePosition 7 (fun _ => emptiedBids) [position] "p" [position])
      = [Some zero])
  /\ (let afterFirst :=
        afterTick 7 "BTC-USDT" fallenBook [openLong; protectiveStop; secondStop] in
      map id afterFirst = ["p"; "sl2"]
      /\ map pnl afterFirst = [Some (numZ (-6)); None]
      /\ map pnl (afterTick 8 "BTC-USDT" deeperBook afterFirst) = [Some (numZ (-10))]).
Proof. cbv zeta. repeat split; vm_compute; reflexivity. Qed.

(** C9 (amended): for an order that has an entry price, with the entry price
    and the reference price neither 0 nor NaN, [calculatePnl] is
    (reference - entry) x quantity on the Buy side and
    (entry - reference) x quantity on the Sell side; it is 0 when the entry
    price or the reference price is missing, 0 or NaN; entry 100, exit 110
    and quantity 2 give +20 for Buy and -20 for Sell.  An explicit close
    stores on the position the value of [calculatePnl] at the average fill
    price of the simulated opposite-side Market order for the position's
    quantity, with the figures of that fill and the time of the close as
    exit result, so it does not depend on the mid-price; it leaves no order
    that refers to the position.  A run of the evaluation effect leaves the
    stored pnl and exit result of the orders carrying an id as they are when
    no Untriggered order of the ledger refers to that id. *)
Theorem C9_pnl_formula_and_realized_pnl :
  (forall (order : Order) (referencePrice entryPrice : number),
      entryPriceOf order = Some entryPrice ->
      truthy entryPrice = true -> truthy referencePrice = true ->
      calculatePnl order referencePrice
      = match side (params order) with
        | Buy => nmul (nsub referencePrice entryPrice)
                      (parseFloat (quantity (params order)))
        | Sell => nmul (nsub entryPrice referencePrice)
                       (parseFloat (quantity (params order)))
        end)
  /\ (forall (order : Order) (referencePrice : number),
         truthyOpt (entryPriceOf order) = false \/ truthy referencePrice = false ->
         calculatePnl order referencePrice = zero)
  /\ (forall (i sym : string) (v : Venue),
         calculatePnl (positionAt i sym v Buy (numZ 100) (numZ 2)) (numZ 110) = numZ 20
         /\ calculatePnl (positionAt i sym v Sell (numZ 100) (numZ 2)) (numZ 110)
            = numZ (-20))
  /\ (forall (now : Z) (orderBooks : Venue -> Book) (ledger : Ledger)
             (orderId : string) (position : Order),
         find (hasId orderId) ledger = Some position ->
         positionId position = None ->
         bookUnavailable (orderBooks (venue (params position))) = false ->
         let exitFill :=
           calculateMarketImpact
             (withOrderType
                (withSide (params position) (oppositeSide (side (params position))))
                Market)
             (orderBooks (venue (params position))) in
         let closedLedger := handleClosePosition now orderBooks ledger orderId ledger in
         (exists closed,
             find (hasId orderId) closedLedger = Some closed
             /\ pnl closed = Some (calculatePnl position (avgFillPrice exitFill))
             /\ exitResult closed
                = Some (mkResult (Some (avgFillPrice exitFill)) (Some (slippage exitFill))
                          (Some (filledPercentage exitFill))
                          (Some (priceImpact exitFill)) (Some now) None)
             /\ id closed = id position /\ params closed = params position
             /\ status closed = status position /\ result closed = result position)
         /\ (forall o, In o closedLedger -> positionId o <> Some orderId))
  /\ (forall (now : Z) (sym : string) (book : Book) (ledger : Ledger) (i : string)
             (x : option number) (e : option ResultObj),
         (forall o, In o ledger -> status o = Untriggered -> positionId o <> Some i) ->
         (forall o, In o ledger -> id o = i -> pnl o = x /\ exitResult o = e) ->
         forall o, In o (afterTick now sym book ledger) -> id o = i ->
                   pnl o = x /\ exitResult o = e).
Proof.
  split; [| split; [| split; [| split]]].
  - intros order refP entry He Hte Htr. unfold calculatePnl.
    rewrite He. cbn [truthyOpt toNumber]. rewrite Hte, Htr. cbn [negb orb].
    destruct (side (params order)); reflexivity.
  - intros order refP [H | H]; unfold calculatePnl; rewrite H; cbn [negb orb];
      [reflexivity | now rewrite orb_true_r].
  - intros i sym v. split; vm_compute; reflexivity.
  - intros now orderBooks ledger orderId position Hf Hp Hb exitFill closedLedger.
    subst closedLedger. unfold handleClosePosition. rewrite Hf, Hb. fold exitFill.
    split.
    + exists (withExit position (calculatePnl position (avgFillPrice exitFill))
                (resultOfImpact exitFill now)).
      split; [| repeat split].
      apply find_filter_keep.
      * apply (find_map_update orderId
                 (fun o => withExit o (calculatePnl position (avgFillPrice exitFill))
                             (resultOfImpact exitFill now)));
          [reflexivity | exact Hf].
      * unfold refersTo. cbn [withExit positionId]. rewrite Hp. reflexivity.
    + intros o Ho Hpos. apply filter_In in Ho. destruct Ho as [_ Ho].
      unfold refersTo in Ho. rewrite Hpos, String.eqb_refl in Ho. discriminate.
  - intros now sym book ledger i x e Hno Hl.
    assert (H : Forall (realizedAs i x e) (afterTick now sym book ledger)).
    { apply afterTick_realized; apply Forall_forall; intros o Ho;
        [now apply Hno | exact (Hl o Ho)]. }
    rewrite Forall_forall in H. intros o Ho. exact (H o Ho).
Qed.

Lemma C9_pnl_formula_and_realized_pnl_witness :
  let position := positionAt "p" "BTC-USDT" OKX Buy (numZ 100) (numZ 2) in
  let closedLedger := handleClosePosition 7 (fun _ => crossingBook) [position] "p" [position] in
  (entryPriceOf position = Some (numZ 100)
   /\ truthy (numZ 100) = true /\ truthy (numZ 110) = true
   /\ calculatePnl position (numZ 110)
      = nmul (nsub (numZ 110) (numZ 100)) (parseFloat (quantity (params position))))
  /\ (exists closed,
         find (hasId "p") closedLedger = Some closed
         /\ pnl closed = Some (numZ (-2))
         /\ exitResult closed
            = Some (mkResult (Some (numZ 99)) (Some zero) (Some (numZ 50)) (Some zero)
                      (Some 7%Z) None))
  /\ (forall o, In o (afterTick 8 "BTC-USDT" fallenBook closedLedger) -> id o = "p" ->
                pnl o = Some (numZ (-2))
                /\ exitResult o
                   = Some (mkResult (Some (numZ 99)) (Some zero) (Some (numZ 50))
                             (Some zero) (Some 7%Z) None)).
Proof.
  intros position closedLedger. split; [| split].
  - split; [reflexivity | split; [reflexivity | split; [reflexivity |]]].
    apply (proj1 C9_pnl_formula_and_realized_pnl position (numZ 110) (numZ 100));
      reflexivity.
  - destruct (proj1 (proj1 (proj2 (proj2 (proj2 C9_pnl_formula_and_realized_pnl))) 7%Z
                       (fun _ => crossingBook) [position] "p" position
                       eq_refl eq_refl eq_refl))
      as (closed & Hfind & Hpnl & Hexit & _).
    exists closed. split; [exact Hfind | split; [exact Hpnl | exact Hexit]].
  - apply (proj2 (proj2 (proj2 (proj2 C9_pnl_formula_and_realized_pnl))) 8%Z
             "BTC-USDT" fallenBook closedLedger "p").
    + intros o [<- | []]. discriminate.
    + intros o [<- | []] _. split; reflexivity.
Defined.

(** ** Position averaging *)

Lemma find_first_of_NoDup (l : Ledger) (o : Order) :
  NoDup (map id l) -> In o l -> find (hasId (id o)) l = Some o.
Proof.
  induction l as [| a l IH]; intros Hnd Hin; [contradiction |].
  cbn [map] in Hnd. inversion Hnd as [| ? ? Hnotin Hnd']; subst.
  cbn [find]. destruct Hin as [-> | Hin].
  - assert (hasId (id o) o = true) as -> by (now apply hasId_true). reflexivity.
  - destruct (hasId (id o) a) eqn:E.
    + apply hasId_true in E. exfalso. apply Hnotin. rewrite E. now apply in_map.
    + now apply IH.
Qed.

(** C3, as stated, fails on a partial fill: a Buy Market order for 5 against
    the reference asks fills 3, yet the merge adds the 5 that were requested
    to the position of 1, giving quantity 6 where the claim gives 4, and
    weighs the fill price by 5 in the average. *)
Lemma C3_counterexample_partial_fill :
  let p := marketBuy "5" in
  let filledQty :=
    filledSize (walkLevels p (asks referenceBook) (mkFill (parseFloat (quantity p)) zero zero)) in
  let fillAvg := avgFillPrice (calculateMarketImpact p referenceBook) in
  exists merged : Order,
    executionTimer 9 (fun _ => referenceBook) p "n" 5 (placeOrder "n" p 5 [openLong])
    = Done [merged]
    /\ filledQty = numZ 3
    /\ quantity (params merged) = VNum (numZ 6)
    /\ quantity (params merged) <> VNum (mergedQuantity (numZ 1) filledQty)
    /\ entryPriceOf merged = Some (Fin (905 # 9))
    /\ entryPriceOf merged
       <> Some (mergedAverage (numZ 100) (numZ 1) fillAvg filledQty).
Proof.
  eexists. split; [vm_compute; reflexivity |].
  split; [vm_compute; reflexivity |].
  split; [vm_compute; reflexivity |].
  split; [vm_compute; discriminate |].
  split; [vm_compute; reflexivity |].
  vm_compute; discriminate.
Qed.

Lemma withMerged_id (o : Order) (q a : number) : id (withMerged o q a) = id o.
Proof. reflexivity. Qed.

(** C3 (amended): when the timer callback of [scheduleOrderExecution] merges
    a fill into the open position with the same symbol, side and venue, and
    when [handleAddQuantity] adds to a position, the position gets quantity
    oldQty + newQty and average entry price
    (oldAvg x oldQty + fillAvg x newQty) / (oldQty + newQty), where fillAvg
    is the average price of the simulated fill and newQty the quantity the
    new order asked for (the quantity added), filled in full or not; after
    the merge of a new order no record with its id is left in the ledger; a
    position of 1 at 100 merged with a fill of 1 at 110 has average 105 and
    quantity 2. *)
Theorem C3_merge_uses_requested_quantity :
  (forall (now t0 : Z) (orderBooks : Venue -> Book) (p : OrderParams)
          (newId : string) (prevOrders : Ledger) (pending existing : Order)
          (r : ResultObj),
      NoDup (map id prevOrders) ->
      find (hasId newId) prevOrders = Some pending -> status pending = Pending ->
      bookUnavailable (orderBooks (venue p)) = false ->
      ngt (filledPercentage (calculateMarketImpact p (orderBooks (venue p)))) zero = true ->
      find (samePosition p) prevOrders = Some existing ->
      result existing = Some r ->
      let oldQty := parseFloat (quantity (params existing)) in
      let oldAvg := toNumber (r_avgFillPrice r) in
      let newQty := parseFloat (quantity p) in
      let fillAvg := avgFillPrice (calculateMarketImpact p (orderBooks (venue p))) in
      exists l : Ledger,
        executionTimer now orderBooks p newId t0 prevOrders = Done l
        /\ find (hasId (id existing)) l
           = Some (withMerged existing (mergedQuantity oldQty newQty)
                     (mergedAverage oldAvg oldQty fillAvg newQty))
        /\ (forall o, In o l -> id o <> newId))
  /\ (forall (orderBooks : Venue -> Book) (ledger : Ledger) (orderId : string)
             (additionalQuantity : number) (position : Order) (r : ResultObj),
         find (hasId orderId) ledger = Some position ->
         result position = Some r ->
         bookUnavailable (orderBooks (venue (params position))) = false ->
         let oldQty := parseFloat (quantity (params position)) in
         let oldAvg := toNumber (r_avgFillPrice r) in
         let fillAvg :=
           avgFillPrice
             (calculateMarketImpact
                (withOrderType (withQuantity (params position) (VNum additionalQuantity))
                   Market)
                (orderBooks (venue (params position)))) in
         exists l : Ledger,
           handleAddQuantity orderBooks ledger orderId additionalQuantity ledger = Done l
           /\ find (hasId orderId) l
              = Some (withMerged position (mergedQuantity oldQty additionalQuantity)
                        (mergedAverage oldAvg oldQty fillAvg additionalQuantity)))
  /\ (exists merged : Order,
         executionTimer 9 (fun _ => bookAt110) (marketBuy "1") "n" 5
           (placeOrder "n" (marketBuy "1") 5 [openLong]) = Done [merged]
         /\ handleAddQuantity (fun _ => bookAt110) [openLong] "p" (numZ 1) [openLong]
            = Done [merged]
         /\ id merged = "p"%string /\ status merged = Filled
         /\ quantity (params merged) = VNum (numZ 2)
         /\ entryPriceOf merged = Some (numZ 105)).
Proof.
  split; [| split].
  - intros now t0 orderBooks p newId prevOrders pending existing r
           Hnd Hpend Hst Hbook Hfill Hex Hres oldQty oldAvg newQty fillAvg.
    unfold executionTimer. rewrite Hpend, Hst. cbn [status_eqb negb].
    rewrite Hbook, Hfill, Hex, Hres.
    eexists. split; [reflexivity |].
    assert (Hin : In existing prevOrders) by (apply find_some in Hex; tauto).
    assert (Hfirst := find_first_of_NoDup prevOrders existing Hnd Hin).
    assert (Hne : id existing <> newId).
    { intros Heq. rewrite Heq in Hfirst. rewrite Hpend in Hfirst.
      injection Hfirst as ->. apply find_some in Hex. destruct Hex as [_ Hsame].
      unfold samePosition, isOpenPosition in Hsame. rewrite Hst in Hsame.
      discriminate Hsame. }
    split.
    + apply find_filter_keep.
      * apply (find_map_update (id existing)
                 (fun o => withMerged o (mergedQuantity oldQty newQty)
                             (mergedAverage oldAvg oldQty fillAvg newQty)));
          [reflexivity | exact Hfirst].
      * apply negb_true_iff. apply hasId_false. exact Hne.
    + intros o Ho. apply filter_In in Ho. destruct Ho as [_ Ho].
      apply negb_true_iff in Ho. now apply hasId_false.
  - intros orderBooks ledger orderId add position r Hf Hres Hbook oldQty oldAvg fillAvg.
    unfold handleAddQuantity. rewrite Hf, Hbook, Hres.
    eexists. split; [reflexivity |].
    apply (find_map_update orderId
             (fun o => withMerged o (mergedQuantity oldQty add)
                         (mergedAverage oldAvg oldQty fillAvg add)));
      [reflexivity | exact Hf].
  - eexists. split; [vm_compute; reflexivity |].
    repeat split; vm_compute; reflexivity.
Qed.

Lemma C3_merge_uses_requested_quantity_witness :
  exists l : Ledger,
    executionTimer 9 (fun _ => referenceBook) (marketBuy "5") "n" 5
      (placeOrder "n" (marketBuy "5") 5 [openLong]) = Done l
    /\ find (hasId "p") l
       = Some (withMerged openLong (mergedQuantity (numZ 1) (numZ 5))
                 (mergedAverage (numZ 100) (numZ 1) (Fin (302 # 3)) (numZ 5)))
    /\ (forall o, In o l -> id o <> "n"%string).
Proof.
  apply (proj1 C3_merge_uses_requested_quantity 9%Z 5%Z (fun _ => referenceBook)
           (marketBuy "5") "n" (placeOrder "n" (marketBuy "5") 5 [openLong])
           (newPendingOrder "n" (marketBuy "5") 5) openLong
           (resultOfImpact (mkImpact (numZ 100) zero (numZ 100) zero) 0)).
  - cbn [map placeOrder newPendingOrder openLong positionAt id].
    constructor; [| constructor; [| constructor]].
    + intros [H | []]; discriminate H.
    + intros [].
  - reflexivity.
  - reflexivity.
  - reflexivity.
  - vm_compute; reflexivity.
  - reflexivity.
  - reflexivity.
Defined.

(** ** Limit orders in the level walk *)

Lemma crossesLimit_skips (p : OrderParams) (level : Level) :
  crossesLimit p level = true -> skipsLevel p level = true.
Proof.
  unfold crossesLimit, skipsLevel. cbn [parseFloat].
  destruct (includesLimit (orderType p)); [| discriminate].
  destruct (side p); cbn [andb side_eqb]; intros ->;
    rewrite ?orb_true_r; reflexivity.
Qed.

Lemma crossesLimit_later (p : OrderParams) (a b : Level) :
  walkOrder (side p) a b -> crossesLimit p a = true -> crossesLimit p b = true.
Proof.
  unfold walkOrder, crossesLimit.
  destruct (includesLimit (orderType p)); [| discriminate].
  cbn [andb]. destruct (side p); unfold ngt; intros Hab Ha.
  - eapply nlt_nle_trans; eassumption.
  - eapply nle_nlt_trans; eassumption.
Qed.

(** Levels that are all passed over leave the accumulators as they were. *)
Lemma walkLevels_all_skipped (p : OrderParams) (levels : list Level) (st : Fill) :
  Forall (fun l => skipsLevel p l = true) levels -> walkLevels p levels st = st.
Proof.
  induction 1 as [| a l Ha _ IH]; cbn [walkLevels]; [reflexivity |].
  rewrite Ha, IH. now destruct (nle (sizeToFill st) zero).
Qed.

Lemma walkLevels_drop_crossing (p : OrderParams) (levels : list Level) (st : Fill) :
  walkLevels p levels st
  = walkLevels p (filter (fun l => negb (crossesLimit p l)) levels) st.
Proof.
  revert st. induction levels as [| a l IH]; intros st; [reflexivity |].
  cbn [walkLevels filter]. destruct (crossesLimit p a) eqn:Ec; cbn [negb].
  - rewrite (crossesLimit_skips p a Ec), <- IH.
    destruct (nle (sizeToFill st) zero) eqn:E; [| reflexivity].
    destruct l; cbn [walkLevels]; [reflexivity | now rewrite E].
  - cbn [walkLevels]. destruct (nle (sizeToFill st) zero); [reflexivity |].
    destruct (skipsLevel p a); apply IH.
Qed.

Lemma walkLevels_stops_when_sorted (p : OrderParams) (levels : list Level) (st : Fill) :
  StronglySorted (walkOrder (side p)) levels ->
  walkLevels p levels st = walkStoppingAtLimit p levels st.
Proof.
  intros Hs. revert st. induction Hs as [| a l Hs IH Hall]; intros st; [reflexivity |].
  cbn [walkLevels walkStoppingAtLimit].
  destruct (nle (sizeToFill st) zero); [reflexivity |].
  destruct (crossesLimit p a) eqn:Ec.
  - rewrite (crossesLimit_skips p a Ec). apply walkLevels_all_skipped.
    eapply Forall_impl; [| exact Hall].
    intros b Hab. apply crossesLimit_skips. now apply (crossesLimit_later p a b).
  - destruct (skipsLevel p a); apply IH.
Qed.

(** ** Sorting with a comparison function *)

Section Sorting.

Variable cmp : Level -> Level -> number.
Variable R : Level -> Level -> Prop.
Variable dom : Level -> Prop.

Hypothesis R_trans : forall a b c, R a b -> R b c -> R a c.
Hypothesis cmp_after :
  forall x y, dom x -> dom y -> ngt (cmp x y) zero = true -> R y x.
Hypothesis cmp_before :
  forall x y, dom x -> dom y -> ngt (cmp x y) zero = false -> R x y.

Lemma insertBy_In (x z : Level) (l : list Level) :
  In z (insertBy cmp x l) <-> z = x \/ In z l.
Proof.
  induction l as [| y l IH]; cbn [insertBy].
  - cbn. intuition congruence.
  - destruct (ngt (cmp x y) zero); cbn [In]; [rewrite IH |]; intuition congruence.
Qed.

Lemma sortBy_In (z : Level) (l : list Level) : In z (sortBy cmp l) <-> In z l.
Proof.
  induction l as [| x l IH]; [reflexivity |].
  unfold sortBy in *. cbn [fold_right]. rewrite insertBy_In, IH.
  cbn [In]. intuition congruence.
Qed.

Lemma sortBy_Forall (P : Level -> Prop) (l : list Level) :
  Forall P l -> Forall P (sortBy cmp l).
Proof.
  rewrite !Forall_forall. intros H z Hz. apply H. now apply sortBy_In.
Qed.

Lemma insertBy_sorted (x : Level) (l : list Level) :
  dom x -> Forall dom l -> StronglySorted R l -> StronglySorted R (insertBy cmp x l).
Proof.
  intros Hx Hdom Hs. induction Hs as [| y l Hs IH Hall]; cbn [insertBy].
  - constructor; constructor.
  - inversion Hdom as [| ? ? Hy Hdom']; subst.
    destruct (ngt (cmp x y) zero) eqn:E.
    + constructor; [now apply IH |].
      apply Forall_forall. intros z Hz. apply insertBy_In in Hz.
      destruct Hz as [-> | Hz]; [now apply cmp_after |].
      rewrite Forall_forall in Hall. now apply Hall.
    + assert (Hxy : R x y) by now apply cmp_before.
      constructor; [now constructor |].
      constructor; [exact Hxy |].
      eapply Forall_impl; [| exact Hall]. intros z Hz. now apply (R_trans x y z).
Qed.

Lemma sortBy_sorted (l : list Level) :
  Forall dom l -> StronglySorted R (sortBy cmp l).
Proof.
  induction 1 as [| x l Hx Hl IH]; [constructor |].
  unfold sortBy in *. cbn [fold_right].
  apply insertBy_sorted; [assumption | now apply sortBy_Forall | assumption].
Qed.

End Sorting.

(** Pairwise properties survive sorting when they are symmetric. *)
Lemma insertBy_pairwise (cmp : Level -> Level -> number) (D : Level -> Level -> Prop)
    (x : Level) (l : list Level) :
  (forall a b, D a b -> D b a) ->
  ForallOrdPairs D (x :: l) -> ForallOrdPairs D (insertBy cmp x l).
Proof.
  intros Dsym H. inversion H as [| ? ? Hx Hl]; subst. clear H.
  induction l as [| y l IH]; cbn [insertBy]; [constructor; [constructor | constructor] |].
  inversion Hx as [| ? ? Hxy Hx']; subst. inversion Hl as [| ? ? Hy Hl']; subst.
  destruct (ngt (cmp x y) zero).
  - constructor.
    + apply Forall_forall. intros z Hz. apply insertBy_In in Hz.
      destruct Hz as [-> | Hz]; [now apply Dsym |].
      rewrite Forall_forall in Hy. now apply Hy.
    + now apply IH.
  - constructor; [now constructor | now constructor].
Qed.

Lemma sortBy_pairwise (cmp : Level -> Level -> number) (D : Level -> Level -> Prop)
    (l : list Level) :
  (forall a b, D a b -> D b a) ->
  ForallOrdPairs D l -> ForallOrdPairs D (sortBy cmp l).
Proof.
  intros Dsym. induction 1 as [| x l Hx Hl IH]; [constructor |].
  change (sortBy cmp (x :: l)) with (insertBy cmp x (sortBy cmp l)).
  apply insertBy_pairwise; [assumption |].
  constructor; [| assumption].
  apply Forall_forall. intros z Hz. apply (proj1 (sortBy_In cmp z l)) in Hz.
  rewrite Forall_forall in Hx. now apply Hx.
Qed.

(** ** The exposed book is sorted and numeric *)

Lemma nlt_nle (a b : number) : nlt a b = true -> nle a b = true.
Proof.
  destruct a, b; simpl; try congruence. intros H.
  apply Qlt_bool_iff in H. apply Qle_bool_iff. now apply Qlt_le_weak.
Qed.

Lemma nle_differ_nlt (a b : number) :
  nle a b = true -> nseq a b = false -> nlt a b = true.
Proof.
  destruct a, b; simpl; try congruence. intros Hle Hne.
  apply Qle_bool_iff in Hle. apply Qlt_bool_iff.
  apply Qle_lteq in Hle. destruct Hle as [Hlt | Heq]; [assumption |].
  apply Qeq_bool_iff in Heq. congruence.
Qed.

Lemma nseq_sym (a b : number) : nseq a b = nseq b a.
Proof.
  destruct a, b; simpl; try reflexivity.
  apply eq_true_iff_eq. rewrite !Qeq_bool_iff. split; intros H; now symmetry.
Qed.

Lemma numeric_hasPrice (l : Level) : isNumericLevel l = true -> hasPrice l.
Proof.
  unfold isNumericLevel, hasPrice. intros H. apply andb_true_iff in H.
  destruct H as [H _]. now apply negb_true_iff in H.
Qed.

Lemma filter_numeric_hasPrice (l : list Level) :
  Forall hasPrice (filter isNumericLevel l).
Proof.
  apply Forall_forall. intros x Hx. apply filter_In in Hx.
  apply numeric_hasPrice. tauto.
Qed.

Lemma sortBy_bids_descending (l : list Level) :
  Forall hasPrice l -> StronglySorted descending (sortBy bidsOrder l).
Proof.
  apply sortBy_sorted; unfold descending, bidsOrder, hasPrice.
  - intros a b c Hab Hbc. eapply nle_trans; eassumption.
  - intros x y _ _ H. rewrite nsub_pos_iff in H. now apply nlt_nle.
  - intros x y Hx Hy H. rewrite nsub_pos_iff in H. now apply nlt_false_nle.
Qed.

Lemma sortBy_asks_ascending (l : list Level) :
  Forall hasPrice l -> StronglySorted ascending (sortBy asksOrder l).
Proof.
  apply sortBy_sorted; unfold ascending, asksOrder, hasPrice.
  - intros a b c Hab Hbc. eapply nle_trans; eassumption.
  - intros x y _ _ H. rewrite nsub_pos_iff in H. now apply nlt_nle.
  - intros x y Hx Hy H. rewrite nsub_pos_iff in H. now apply nlt_false_nle.
Qed.

Lemma updateUI_sorted (ref : BookRef) :
  StronglySorted descending (bids (updateUI ref))
  /\ StronglySorted ascending (asks (updateUI ref)).
Proof.
  split; cbn [updateUI bids asks].
  - apply sortBy_bids_descending, filter_numeric_hasPrice.
  - apply sortBy_asks_ascending, filter_numeric_hasPrice.
Qed.

Lemma updateUI_numeric (ref : BookRef) :
  Forall (fun l => isNumericLevel l = true) (bids (updateUI ref))
  /\ Forall (fun l => isNumericLevel l = true) (asks (updateUI ref)).
Proof.
  split; cbn [updateUI bids asks]; apply sortBy_Forall;
    apply Forall_forall; intros x Hx; apply filter_In in Hx; tauto.
Qed.

(** The levels exposed are exactly the entries that parse to numbers. *)
Lemma updateUI_levels (ref : BookRef) (l : Level) :
  (In l (bids (updateUI ref))
   <-> isNumericLevel l = true /\ exists e, In e (bidsMap ref) /\ parseEntry e = l)
  /\ (In l (asks (updateUI ref))
      <-> isNumericLevel l = true /\ exists e, In e (asksMap ref) /\ parseEntry e = l).
Proof.
  split; cbn [updateUI bids asks]; rewrite sortBy_In, filter_In, in_map_iff.
  - split.
    + intros [[e [He Hin]] Hn]. split; [assumption | exists e; tauto].
    + intros [Hn [e [Hin He]]]. split; [exists e; tauto | assumption].
  - split.
    + intros [[e [He Hin]] Hn]. split; [assumption | exists e; tauto].
    + intros [Hn [e [Hin He]]]. split; [exists e; tauto | assumption].
Qed.

(** C8: for a Limit order the walk consumes nothing from a level whose price
    crosses the limit (above it for Buy, below it for Sell): the result is
    that of the walk over the levels within the limit.  On a book side in
    walk order, and so on every book the store exposes, the walk coincides
    with the one that stops at the first crossing level: all later levels
    cross the limit as well and none of them is filled. *)
Theorem C8_limit_walk_stops_at_limit (p : OrderParams) :
  (forall (levels : list Level) (st : Fill),
      walkLevels p levels st
      = walkLevels p (filter (fun l => negb (crossesLimit p l)) levels) st)
  /\ (forall (levels : list Level) (st : Fill),
         StronglySorted (walkOrder (side p)) levels ->
         walkLevels p levels st = walkStoppingAtLimit p levels st)
  /\ (forall (ref : BookRef) (st : Fill),
         walkLevels p (relevantBook p (updateUI ref)) st
         = walkStoppingAtLimit p (relevantBook p (updateUI ref)) st).
Proof.
  split; [exact (walkLevels_drop_crossing p) | split].
  - exact (walkLevels_stops_when_sorted p).
  - intros ref st. apply walkLevels_stops_when_sorted.
    destruct (updateUI_sorted ref) as [Hb Ha].
    unfold relevantBook, walkOrder. destruct (side p); cbn [side_eqb]; assumption.
Qed.

Lemma C8_limit_walk_stops_at_limit_witness :
  StronglySorted (walkOrder (side limitBuyAt100)) scenarioAsks
  /\ walkLevels limitBuyAt100 scenarioAsks (mkFill (numZ 5) zero zero)
     = walkStoppingAtLimit limitBuyAt100 scenarioAsks (mkFill (numZ 5) zero zero)
  /\ walkLevels limitBuyAt100 scenarioAsks (mkFill (numZ 5) zero zero)
     = mkFill (numZ 4) (numZ 100) (numZ 1).
Proof.
  assert (Hs : StronglySorted (walkOrder (side limitBuyAt100)) scenarioAsks).
  { repeat constructor. }
  split; [exact Hs | split; [| reflexivity]].
  exact (proj1 (proj2 (C8_limit_walk_stops_at_limit limitBuyAt100)) scenarioAsks
           (mkFill (numZ 5) zero zero) Hs).
Defined.

(** ** The book store *)

Lemma Forall_numeric_fields (l : list Level) :
  Forall (fun x => isNumericLevel x = true) l ->
  Forall (fun x => isNaN (price x) = false /\ isNaN (size x) = false) l.
Proof.
  apply Forall_impl. intros x H. unfold isNumericLevel in H.
  apply andb_true_iff in H. destruct H as [H1 H2].
  split; now apply negb_true_iff.
Qed.

(** C10: whatever the raw book holds and whatever messages are applied,
    every level of the book handed to consumers has a price and a size that
    are not NaN; the levels handed over are exactly the raw entries whose
    price and size both parse to numbers, so an entry that fails to parse
    reaches neither the impact simulation nor the order evaluation. *)
Theorem C10_exposed_levels_are_numeric (ref : BookRef) (msgs : list FeedMessage) :
  Forall (fun l => isNaN (price l) = false /\ isNaN (size l) = false)
         (bids (bookAfter ref msgs))
  /\ Forall (fun l => isNaN (price l) = false /\ isNaN (size l) = false)
            (asks (bookAfter ref msgs))
  /\ (forall l : Level,
         In l (bids (updateUI ref))
         <-> isNumericLevel l = true
             /\ exists e, In e (bidsMap ref) /\ parseEntry e = l)
  /\ (forall l : Level,
         In l (asks (updateUI ref))
         <-> isNumericLevel l = true
             /\ exists e, In e (asksMap ref) /\ parseEntry e = l).
Proof.
  unfold bookAfter.
  destruct (updateUI_numeric (rawBookAfter ref msgs)) as [Hb Ha].
  split; [now apply Forall_numeric_fields |].
  split; [now apply Forall_numeric_fields |].
  split; intros l; apply (updateUI_levels ref l).
Qed.

Lemma ForallOrdPairs_map {A B : Type} (f : A -> B) (D : B -> B -> Prop) (l : list A) :
  ForallOrdPairs (fun x y => D (f x) (f y)) l -> ForallOrdPairs D (map f l).
Proof.
  induction 1 as [| x l Hx Hl IH]; cbn [map]; constructor; [| assumption].
  apply Forall_forall. intros y Hy. apply in_map_iff in Hy.
  destruct Hy as [z [<- Hz]]. rewrite Forall_forall in Hx. now apply Hx.
Qed.

Lemma ForallOrdPairs_filter {A : Type} (g : A -> bool) (D : A -> A -> Prop) (l : list A) :
  ForallOrdPairs D l -> ForallOrdPairs D (filter g l).
Proof.
  induction 1 as [| x l Hx Hl IH]; cbn [filter]; [constructor |].
  destruct (g x); [| assumption]. constructor; [| assumption].
  apply Forall_forall. intros y Hy. apply filter_In in Hy.
  rewrite Forall_forall in Hx. apply Hx. tauto.
Qed.

Lemma differentLevelPrices_sym (a b : Level) :
  differentLevelPrices a b -> differentLevelPrices b a.
Proof. unfold differentLevelPrices. now rewrite nseq_sym. Qed.

Lemma strict_of_sorted_distinct (R S : Level -> Level -> Prop) (l : list Level) :
  (forall a b, R a b -> differentLevelPrices a b -> S a b) ->
  StronglySorted R l -> ForallOrdPairs differentLevelPrices l -> StronglySorted S l.
Proof.
  intros HRS Hs. induction Hs as [| a l Hs IH Hall]; intros Hd; [constructor |].
  inversion Hd as [| ? ? Ha Hd']; subst. constructor; [now apply IH |].
  rewrite Forall_forall in *. intros b Hb. apply HRS; [now apply Hall | now apply Ha].
Qed.

Lemma parsed_levels_distinct (m : JsMap) :
  ForallOrdPairs differentPrices m ->
  ForallOrdPairs differentLevelPrices (filter isNumericLevel (map parseEntry m)).
Proof.
  intros H. apply ForallOrdPairs_filter. apply ForallOrdPairs_map. exact H.
Qed.

Lemma updateUI_strict (ref : BookRef) :
  (ForallOrdPairs differentPrices (bidsMap ref) ->
   StronglySorted strictlyDescending (bids (updateUI ref)))
  /\ (ForallOrdPairs differentPrices (asksMap ref) ->
      StronglySorted strictlyAscending (asks (updateUI ref))).
Proof.
  destruct (updateUI_sorted ref) as [Hb Ha]. split; intros Hd.
  - apply (strict_of_sorted_distinct descending); [| exact Hb |].
    + unfold descending, strictlyDescending, differentLevelPrices. intros a b Hab Hne.
      apply nle_differ_nlt; [assumption | now rewrite nseq_sym].
    + cbn [updateUI bids]. apply sortBy_pairwise;
        [exact differentLevelPrices_sym | now apply parsed_levels_distinct].
  - apply (strict_of_sorted_distinct ascending); [| exact Ha |].
    + unfold ascending, strictlyAscending, differentLevelPrices. intros a b Hab Hne.
      now apply nle_differ_nlt.
    + cbn [updateUI asks]. apply sortBy_pairwise;
        [exact differentLevelPrices_sym | now apply parsed_levels_distinct].
Qed.

Lemma key_eqb_refl (k : value) : key_eqb k k = true.
Proof.
  destruct k as [| s | n]; cbn [key_eqb]; [reflexivity | apply String.eqb_refl |].
  destruct n; try reflexivity. cbn [nseq]. apply Qeq_bool_iff. reflexivity.
Qed.

Lemma mapGet_mapDelete (k : value) (m : JsMap) : mapGet k (mapDelete k m) = None.
Proof.
  unfold mapDelete. induction m as [| [k' v'] m IH]; [reflexivity |].
  cbn [filter fst]. destruct (key_eqb k' k) eqn:E; cbn [negb]; [exact IH |].
  cbn [mapGet]. rewrite E. exact IH.
Qed.

Lemma mapGet_mapSet (k v : value) (m : JsMap) : mapGet k (mapSet k v m) = Some v.
Proof.
  induction m as [| [k' v'] m IH]; cbn [mapSet mapGet].
  - now rewrite key_eqb_refl.
  - destruct (key_eqb k' k) eqn:E; cbn [mapGet]; rewrite E; [reflexivity | exact IH].
Qed.

(** C4, as stated, fails: a snapshot is stored as received, so two spellings
    of one price give two bid levels at that price, and an ask of size zero
    is stored and exposed. *)
Lemma C4_counterexample_loose_snapshot :
  let book := bookAfter emptyBookRef [Pairs looseSnapshot] in
  bids book = [mkLevel (numZ 100) (numZ 1); mkLevel (numZ 100) (numZ 2)]
  /\ asks book = [mkLevel (numZ 101) zero]
  /\ ~ StronglySorted strictlyDescending (bids book)
  /\ ~ Forall positiveSize (asks book).
Proof.
  cbv zeta. split; [reflexivity | split; [reflexivity | split]].
  - intros H. change (bids (bookAfter emptyBookRef [Pairs looseSnapshot]))
      with [mkLevel (numZ 100) (numZ 1); mkLevel (numZ 100) (numZ 2)] in H.
    inversion H as [| ? ? _ Hall]; subst.
    inversion Hall as [| ? ? Hlt _]; subst. discriminate Hlt.
  - intros H. change (asks (bookAfter emptyBookRef [Pairs looseSnapshot]))
      with [mkLevel (numZ 101) zero] in H.
    inversion H as [| ? ? Hpos _]; subst. discriminate Hpos.
Qed.

(** ** Resting orders under the evaluation effect *)

Lemma updateAt_In_or {A : Type} (i : nat) (g : A -> A) (l : list A) (o : A) :
  In o l -> In o (updateAt i g l) \/ In (g o) (updateAt i g l).
Proof.
  revert i. induction l as [| a l IH]; intros i Hin; [contradiction |].
  destruct Hin as [-> | Hin]; destruct i; cbn [updateAt In]; auto.
  destruct (IH i Hin); auto.
Qed.

Lemma updateAt_other {A : Type} (f : A -> bool) (i : nat) (g : A -> A)
    (l : list A) (o : A) :
  findIndex f l = Some i -> In o l -> f o = false -> In o (updateAt i g l).
Proof.
  revert i. induction l as [| a l IH]; intros i Hf Hin Ho; [contradiction |].
  cbn [findIndex] in Hf. destruct (f a) eqn:Ea.
  - injection Hf as <-. cbn [updateAt]. destruct Hin as [-> | Hin]; [congruence |].
    now right.
  - destruct (findIndex f l) as [j |] eqn:Ej; [| discriminate].
    injection Hf as <-. cbn [updateAt]. destruct Hin as [-> | Hin]; [now left |].
    right. now apply IH.
Qed.

Lemma updateAt_map_id (i : nat) (g : Order -> Order) (l : Ledger) :
  (forall x, id (g x) = id x) -> map id (updateAt i g l) = map id l.
Proof.
  intros Hg. revert i. induction l as [| a l IH]; intros i; [now destruct i |].
  destruct i; cbn [updateAt map]; [now rewrite Hg | now rewrite IH].
Qed.

Lemma NoDup_map_filter (f : Order -> bool) (l : Ledger) :
  NoDup (map id l) -> NoDup (map id (filter f l)).
Proof.
  induction l as [| a l IH]; cbn [map filter]; intros H; [constructor |].
  inversion H as [| ? ? Hnotin Hnd]; subst.
  destruct (f a); [| now apply IH]. cbn [map]. constructor; [| now apply IH].
  intros Hin. apply Hnotin. apply in_map_iff in Hin. destruct Hin as [x [Hx Hin]].
  apply in_map_iff. exists x. apply filter_In in Hin. tauto.
Qed.

(** Executing a triggered order keeps the ids of the ledger distinct. *)
Lemma executeTriggeredOrder_NoDup (now : Z) (x : Order) (book : Book) (upd : Ledger) :
  NoDup (map id upd) -> NoDup (map id (snd (executeTriggeredOrder now x book upd))).
Proof.
  intros Hnd. unfold executeTriggeredOrder.
  destruct (nle _ zero); [exact Hnd |].
  destruct (status_eqb (status x) Untriggered).
  - cbn [snd]. apply NoDup_map_filter.
    destruct (positionId x) as [pid |]; [| exact Hnd].
    destruct (findIndex (hasId pid) upd); [| exact Hnd].
    now rewrite updateAt_map_id.
  - destruct (findIndex (hasId (id x)) upd); cbn [snd]; [| exact Hnd].
    now rewrite updateAt_map_id.
Qed.

Lemma processOrder_NoDup (now : Z) (sym : string) (book : Book) (mid bb ba : number)
    (st st' : Ledger * bool) (x : Order) :
  processOrder now sym book mid bb ba st x = Done st' ->
  NoDup (map id (fst st)) -> NoDup (map id (fst st')).
Proof.
  destruct st as [upd changed]. unfold processOrder. cbn [fst].
  destruct (negb (symbol (params x) =? sym)%string).
  - destruct (truthyOpt (livePnl x)); [| intros [= <-]; trivial].
    destruct (findIndex (hasId (id x)) upd); intros [= <-]; cbn [fst]; trivial.
    now rewrite updateAt_map_id.
  - set (st1 := if isOpenPosition x then _ else _).
    assert (H1 : NoDup (map id upd) -> NoDup (map id (fst st1))).
    { intros Hnd. subst st1. destruct (isOpenPosition x); [| exact Hnd].
      destruct (livePnlDiffers _ _); [| exact Hnd].
      destruct (findIndex (hasId (id x)) upd); cbn [fst]; [| exact Hnd].
      now rewrite updateAt_map_id. }
    destruct (conditionMet x mid bb ba) as [met |]; cbn [bind]; [| discriminate].
    destruct met; [| intros [= <-]; exact H1].
    pose proof (executeTriggeredOrder_NoDup now x book (fst st1)) as He.
    destruct (executeTriggeredOrder now x book (fst st1)) as [ok updated].
    cbn [snd] in He.
    destruct ok; intros [= <-] Hnd; cbn [fst]; auto.
Qed.

Section RestingOrder.

Variable order : Order.

Lemma resting_updateAt_preserving (i : nat) (g : Order -> Order) (l : Ledger) :
  (forall o, stillResting order o -> stillResting order (g o)) ->
  resting order l -> resting order (updateAt i g l).
Proof.
  intros Hg [o [Hin Ho]]. destruct (updateAt_In_or i g l o Hin) as [H | H].
  - exists o. auto.
  - exists (g o). auto.
Qed.

Lemma resting_updateAt_elsewhere (j : string) (i : nat) (g : Order -> Order) (l : Ledger) :
  j <> id order -> findIndex (hasId j) l = Some i ->
  resting order l -> resting order (updateAt i g l).
Proof.
  intros Hj Hf [o [Hin Ho]]. exists o. split; [| exact Ho].
  apply (updateAt_other (hasId j) i g l o Hf Hin).
  apply hasId_false. destruct Ho as [Hid _]. congruence.
Qed.

Lemma resting_filter_other (j : string) (l : Ledger) :
  j <> id order -> resting order l ->
  resting order (filter (fun o => negb (hasId j o)) l).
Proof.
  intros Hj [o [Hin Ho]]. exists o. split; [| exact Ho].
  apply filter_In. split; [exact Hin |].
  apply negb_true_iff, hasId_false. destruct Ho as [Hid _]. congruence.
Qed.

Lemma executeTriggeredOrder_resting (now : Z) (x : Order) (book : Book) (upd : Ledger) :
  id x <> id order -> resting order upd ->
  resting order (snd (executeTriggeredOrder now x book upd)).
Proof.
  intros Hx Hr. unfold executeTriggeredOrder.
  destruct (nle _ zero); [exact Hr |].
  destruct (status_eqb (status x) Untriggered).
  - cbn [snd]. apply resting_filter_other; [exact Hx |].
    destruct (positionId x) as [pid |]; [| exact Hr].
    destruct (findIndex (hasId pid) upd); [| exact Hr].
    apply resting_updateAt_preserving; [| exact Hr].
    intros o Ho. exact Ho.
  - destruct (findIndex (hasId (id x)) upd) eqn:Ef; cbn [snd]; [| exact Hr].
    now apply (resting_updateAt_elsewhere (id x)).
Qed.

Lemma conditionMet_of_resting (x : Order) (mid bb ba : number) :
  stillResting order x -> limitTest (params order) bb ba = false ->
  conditionMet x mid bb ba = Done false.
Proof.
  intros [_ [Hst Hp]] Hq. unfold conditionMet. rewrite Hst, Hp.
  destruct (orderType (params order)); [reflexivity |].
  unfold limitTest in Hq. now rewrite Hq.
Qed.

Lemma processOrder_resting (now : Z) (sym : string) (book : Book) (mid bb ba : number)
    (st st' : Ledger * bool) (x : Order) :
  (id x = id order -> stillResting order x) ->
  limitTest (params order) bb ba = false ->
  processOrder now sym book mid bb ba st x = Done st' ->
  resting order (fst st) -> resting order (fst st').
Proof.
  intros Hx Hq. destruct st as [upd changed]. unfold processOrder. cbn [fst].
  assert (Hlive : forall i v, resting order upd ->
                    resting order (updateAt i (fun o => withLivePnl o v) upd)).
  { intros i v. apply resting_updateAt_preserving. intros o Ho. exact Ho. }
  destruct (negb (symbol (params x) =? sym)%string).
  - destruct (truthyOpt (livePnl x)); [| intros [= <-]; trivial].
    destruct (findIndex (hasId (id x)) upd); intros [= <-]; cbn [fst]; auto.
  - set (st1 := if isOpenPosition x then _ else _).
    assert (H1 : resting order upd -> resting order (fst st1)).
    { intros Hr. subst st1. destruct (isOpenPosition x); [| exact Hr].
      destruct (livePnlDiffers _ _); [| exact Hr].
      destruct (findIndex (hasId (id x)) upd); cbn [fst]; auto. }
    destruct (string_dec (id x) (id order)) as [Heq | Hne].
    + rewrite (conditionMet_of_resting x mid bb ba (Hx Heq) Hq). cbn [bind].
      intros [= <-]. exact H1.
    + destruct (conditionMet x mid bb ba) as [met |]; cbn [bind]; [| discriminate].
      destruct met; [| intros [= <-]; exact H1].
      pose proof (executeTriggeredOrder_resting now x book (fst st1) Hne) as He.
      destruct (executeTriggeredOrder now x book (fst st1)) as [ok updated].
      cbn [snd] in He.
      destruct ok; intros [= <-] Hr; cbn [fst]; auto.
Qed.

Lemma forEach_processOrder_resting (now : Z) (sym : string) (book : Book)
    (mid bb ba : number) (xs : list Order) (st st' : Ledger * bool) :
  Forall (fun x => id x = id order -> stillResting order x) xs ->
  limitTest (params order) bb ba = false ->
  forEach (processOrder now sym book mid bb ba) xs st = Done st' ->
  NoDup (map id (fst st)) -> resting order (fst st) ->
  NoDup (map id (fst st')) /\ resting order (fst st').
Proof.
  intros Hxs Hq. revert st. induction Hxs as [| x xs Hx _ IH]; intros st; cbn [forEach].
  - intros [= <-]. auto.
  - destruct (processOrder now sym book mid bb ba st x) as [st1 |] eqn:E;
      cbn [bind]; [| discriminate].
    intros Hrest Hnd Hr. apply (IH st1 Hrest).
    + exact (processOrder_NoDup _ _ _ _ _ _ _ _ _ E Hnd).
    + exact (processOrder_resting _ _ _ _ _ _ _ _ _ Hx Hq E Hr).
Qed.

End RestingOrder.

Lemma NoDup_id_inj (l : Ledger) (x y : Order) :
  NoDup (map id l) -> In x l -> In y l -> id x = id y -> x = y.
Proof.
  intros Hnd Hx Hy Hid.
  pose proof (find_first_of_NoDup l x Hnd Hx) as Fx.
  pose proof (find_first_of_NoDup l y Hnd Hy) as Fy.
  rewrite Hid in Fx. congruence.
Qed.

Lemma limitTest_of_book (p : OrderParams) (b a : Level) (bs ask_rest : list Level) :
  limitTest p (price b) (price a) = limitMarketable p (mkBook (b :: bs) (a :: ask_rest)).
Proof.
  unfold limitTest, limitMarketable. cbn [bids asks].
  destruct (side p); cbn [side_eqb andb orb]; [apply orb_false_r | reflexivity].
Qed.

Lemma afterTick_resting (order : Order) (t : Tick) (l : Ledger) :
  limitMarketable (params order) (tickBook t) = false ->
  NoDup (map id l) -> resting order l ->
  NoDup (map id (afterTick (tickTime t) (tickSymbol t) (tickBook t) l))
  /\ resting order (afterTick (tickTime t) (tickSymbol t) (tickBook t) l).
Proof.
  intros Hq Hnd Hr. unfold afterTick, evaluateOrders.
  destruct (tickBook t) as [[| b bs] [| a ask_rest]]; cbn [bids asks]; auto.
  destruct (truthy (price b) && truthy (price a)); auto.
  destruct (negb (truthy _)); auto.
  rewrite <- (limitTest_of_book (params order) b a bs ask_rest) in Hq.
  match goal with
  | |- context [forEach ?f ?xs ?s] => destruct (forEach f xs s) as [st' |] eqn:E
  end; cbn [bind]; auto.
  destruct (snd st'); auto.
  apply (forEach_processOrder_resting order _ _ _ _ _ _ _ _ _) in E; auto.
  apply Forall_forall. intros x Hx Hid. apply filter_In in Hx. destruct Hx as [Hx _].
  destruct Hr as [o [Ho Hrest]].
  assert (x = o) as ->; [| exact Hrest].
  apply (NoDup_id_inj l); auto. destruct Hrest as [Hido _]. congruence.
Qed.

Lemma runTicks_resting (order : Order) (ticks : list Tick) (l : Ledger) :
  Forall (fun t => limitMarketable (params order) (tickBook t) = false) ticks ->
  NoDup (map id l) -> resting order l -> resting order (runTicks ticks l).
Proof.
  intros Hq. revert l. induction Hq as [| t ticks Ht _ IH]; intros l Hnd Hr;
    [exact Hr |].
  unfold runTicks. cbn [fold_left].
  destruct (afterTick_resting order t l Ht Hnd Hr) as [Hnd' Hr'].
  exact (IH _ Hnd' Hr').
Qed.

(** C6: for a Pending Limit order the effect's execution condition is exactly
    marketability against the best quotes (limit at or above the best ask for
    Buy, at or below the best bid for Sell); over any run of book updates on
    which the order is not marketable it stays in the ledger with status
    Pending; a Sell limit at 105 rests while the best bid is 99 and 104 and is
    filled by the update that brings the best bid to 105. *)
Theorem C6_limit_order_rests_until_marketable :
  (forall (order : Order) (mid : number) (b a : Level) (bs ask_rest : list Level),
      status order = Pending -> orderType (params order) = Limit ->
      conditionMet order mid (price b) (price a)
      = Done (limitMarketable (params order) (mkBook (b :: bs) (a :: ask_rest))))
  /\ (forall (order : Order) (ticks : list Tick) (ledger : Ledger),
         NoDup (map id ledger) -> In order ledger ->
         status order = Pending -> orderType (params order) = Limit ->
         Forall (fun t => limitMarketable (params order) (tickBook t) = false) ticks ->
         exists o, In o (runTicks ticks ledger)
                   /\ id o = id order /\ status o = Pending
                   /\ params o = params order)
  /\ (limitMarketable (params restingSell) (bookWithBid 99) = false
      /\ limitMarketable (params restingSell) (bookWithBid 104) = false
      /\ limitMarketable (params restingSell) (bookWithBid 105) = true
      /\ map status (runTicks quietTicks [restingSell]) = [Pending]
      /\ map status (runTicks (quietTicks ++ [mkTick 3 "BTC-USDT" (bookWithBid 105)])
                       [restingSell]) = [Filled]).
Proof.
  split; [| split].
  - intros order mid b a bs ask_rest Hst Hty. unfold conditionMet.
    rewrite Hst, Hty. rewrite <- limitTest_of_book. reflexivity.
  - intros order ticks ledger Hnd Hin Hst _ Hq.
    apply (runTicks_resting order ticks ledger Hq Hnd).
    exists order. split; [exact Hin |]. repeat split. exact Hst.
  - repeat split; vm_compute; reflexivity.
Qed.

Lemma C6_limit_order_rests_until_marketable_witness :
  exists o, In o (runTicks quietTicks [restingSell])
            /\ id o = id restingSell /\ status o = Pending
            /\ params o = params restingSell.
Proof.
  apply (proj1 (proj2 C6_limit_order_rests_until_marketable) restingSell quietTicks
           [restingSell]).
  - repeat constructor. intros [].
  - left. reflexivity.
  - reflexivity.
  - reflexivity.
  - repeat constructor.
Defined.

(** ** Stop orders under the evaluation effect *)

Lemma findIndex_of_find {A : Type} (f : A -> bool) (l : list A) (x : A) :
  find f l = Some x ->
  exists i, findIndex f l = Some i
            /\ forall g, f (g x) = true -> find f (updateAt i g l) = Some (g x).
Proof.
  induction l as [| a l IH]; cbn [find findIndex]; [discriminate |].
  destruct (f a) eqn:Ea.
  - intros [= ->]. exists O. split; [reflexivity |].
    intros g Hg. cbn [updateAt find]. now rewrite Hg.
  - intros Hx. destruct (IH Hx) as [i [Hi Hupd]]. exists (S i). rewrite Hi.
    split; [reflexivity |]. intros g Hg. cbn [updateAt find]. rewrite Ea. now apply Hupd.
Qed.

Lemma stop_condition (stop : Order) (sl : StopLoss) (mid bb ba : number) :
  status stop = Untriggered -> stopLoss stop = Some sl ->
  conditionMet stop mid bb ba
  = Done (stopTriggered (side (params stop)) mid (parseFloat (stopPrice sl))).
Proof.
  intros Hst Hsl. unfold conditionMet. rewrite Hst, Hsl.
  unfold stopTriggered. destruct (side (params stop)); cbn [side_eqb andb orb];
    [reflexivity | now rewrite orb_false_r].
Qed.

Lemma untriggered_not_open (stop : Order) :
  status stop = Untriggered -> isOpenPosition stop = false.
Proof. unfold isOpenPosition. now intros ->. Qed.

(** C5, as stated, fails: the effect passes over the orders whose symbol is
    not the symbol on view.  With BTC-USDT on view, an Untriggered Sell stop
    at 95 on an ETH-USDT position is left alone by a book update whose
    mid-price is 94.5, and the effect commits nothing. *)
Lemma C5_counterexample_symbol_not_on_view :
  status otherStop = Untriggered
  /\ side (params otherStop) = Sell
  /\ midPriceOf (mkLevel (numZ 94) (numZ 1)) (mkLevel (numZ 95) (numZ 1)) = Fin (189 # 2)
  /\ nle (Fin (189 # 2)) (parseFloat (VStr "95")) = true
  /\ evaluateOrders 7 "BTC-USDT" fallenBook [otherLong; otherStop] = Done None
  /\ afterTick 7 "BTC-USDT" fallenBook [otherLong; otherStop] = [otherLong; otherStop].
Proof. repeat split; vm_compute; reflexivity. Qed.

(** C5 (amended): when the effect processes an Untriggered order whose
    symbol is the symbol on view, the order triggers exactly when the
    mid-price is at or below its stop price (Sell) or at or above it (Buy);
    an order that does not trigger leaves the ledger as it is; one that
    triggers is run as a Market order against the current book and, when
    that order fills, the stop order is removed from the ledger, every other
    order but the position it refers to is kept, and that position keeps its
    id, parameters, status and entry result and gets as pnl the value of
    [calculatePnl] at the stop's average fill price and as exit result the
    figures of the fill with the time of the run.  An Untriggered order of
    another symbol is passed over.  The mid-price is (bestBid + bestAsk) / 2
    of the book and every Untriggered order of the ledger is visited: in a
    ledger made of an open Buy position of 1 entered at 100 and its Sell stop
    at 95, one run of the effect on a book with bid 94 and ask 95 commits
    the ledger holding only the position, closed with pnl -6 and the fill at
    94 as exit result. *)
Theorem C5_stop_trigger_closes_position :
  (forall (now : Z) (sym : string) (book : Book) (mid bb ba : number) (upd : Ledger)
          (changed : bool) (stop : Order) (sl : StopLoss),
      status stop = Untriggered -> stopLoss stop = Some sl ->
      symbol (params stop) = sym ->
      let triggered := stopTriggered (side (params stop)) mid (parseFloat (stopPrice sl)) in
      let fill := calculateMarketImpact (withOrderType (params stop) Market) book in
      conditionMet stop mid bb ba = Done triggered
      /\ (triggered = false ->
          processOrder now sym book mid bb ba (upd, changed) stop = Done (upd, changed))
      /\ (triggered = true -> nle (filledPercentage fill) zero = false ->
          exists upd',
            processOrder now sym book mid bb ba (upd, changed) stop = Done (upd', true)
            /\ (forall o, In o upd' -> id o <> id stop)
            /\ (forall o, In o upd -> id o <> id stop ->
                          positionId stop <> Some (id o) -> In o upd')
            /\ (forall (pid : string) (position : Order),
                   positionId stop = Some pid -> pid <> id stop ->
                   find (hasId pid) upd = Some position ->
                   exists closed,
                     find (hasId pid) upd' = Some closed
                     /\ pnl closed = Some (calculatePnl position (avgFillPrice fill))
                     /\ exitResult closed
                        = Some (mkResult (Some (avgFillPrice fill)) (Some (slippage fill))
                                  (Some (filledPercentage fill))
                                  (Some (priceImpact fill)) (Some now) None)
                     /\ id closed = id position /\ params closed = params position
                     /\ status closed = status position
                     /\ result closed = result position)))
  /\ (forall (now : Z) (sym : string) (book : Book) (mid bb ba : number) (upd : Ledger)
             (changed : bool) (stop : Order),
         status stop = Untriggered -> symbol (params stop) <> sym ->
         truthyOpt (livePnl stop) = false ->
         processOrder now sym book mid bb ba (upd, changed) stop = Done (upd, changed))
  /\ (forall (now : Z) (sym : string) (b a : Level) (bs ask_rest : list Level)
             (ledger : Ledger),
         truthy (price b) = true -> truthy (price a) = true ->
         truthy (midPriceOf b a) = true ->
         let book := mkBook (b :: bs) (a :: ask_rest) in
         (forall o, status o = Untriggered -> In o ledger ->
                    In o (filter needsProcessing ledger))
         /\ evaluateOrders now sym book ledger
            = bind (forEach (processOrder now sym book (midPriceOf b a) (price b) (price a))
                      (filter needsProcessing ledger) (ledger, false))
                   (fun st => if snd st then Done (Some (fst st)) else Done None))
  /\ (midPriceOf (mkLevel (numZ 94) (numZ 1)) (mkLevel (numZ 95) (numZ 1)) = Fin (189 # 2)
      /\ stopTriggered Sell (Fin (189 # 2)) (numZ 95) = true
      /\ evaluateOrders 7 "BTC-USDT" fallenBook [openLong; protectiveStop]
         = Done (Some [mkOrder "p" (params openLong) Filled 0 (result openLong)
                         (Some (numZ (-6))) (Some (Fin (-11 # 2))) None None None
                         (Some (mkResult (Some (numZ 94)) (Some zero) (Some (numZ 100))
                                  (Some zero) (Some 7%Z) None))])
      /\ avgFillPrice (calculateMarketImpact
                         (withOrderType (params protectiveStop) Market) fallenBook)
         = numZ 94).
Proof.
  split; [| split].
  - intros now sym book mid bb ba upd changed stop sl Hst Hsl Hsym triggered fill.
    pose proof (stop_condition stop sl mid bb ba Hst Hsl) as Hc.
    fold triggered in Hc. split; [exact Hc |].
    assert (Hproc : processOrder now sym book mid bb ba (upd, changed) stop
                    = if triggered
                      then (let '(ok, updated) := executeTriggeredOrder now stop book upd in
                            if ok then Done (updated, true) else Done (upd, changed))
                      else Done (upd, changed)).
    { unfold processOrder. rewrite Hsym, String.eqb_refl. cbn [negb].
      rewrite (untriggered_not_open stop Hst), Hc. cbn [bind fst]. reflexivity. }
    split.
    + intros Ht. rewrite Hproc, Ht. reflexivity.
    + intros Ht Hfill. rewrite Hproc, Ht.
      unfold executeTriggeredOrder. rewrite Hst. cbn [status_eqb].
      fold fill. rewrite Hfill.
      eexists. split; [reflexivity |]. split; [| split].
      * intros o Ho. apply filter_In in Ho. destruct Ho as [_ Ho].
        apply negb_true_iff in Ho. now apply hasId_false.
      * intros o Hin Hne Hpos. apply filter_In. split.
        -- destruct (positionId stop) as [pid |]; [| exact Hin].
           destruct (findIndex (hasId pid) upd) as [i |] eqn:Ei; [| exact Hin].
           apply (updateAt_other (hasId pid) i _ upd o Ei Hin).
           apply hasId_false. congruence.
        -- apply negb_true_iff. now apply hasId_false.
      * intros pid position Hpid Hne Hfind. rewrite Hpid.
        destruct (findIndex_of_find _ _ _ Hfind) as [i [Hi Hupd]]. rewrite Hi.
        exists (withExit position (calculatePnl position (avgFillPrice fill))
                  (resultOfImpact fill now)).
        split; [| repeat split].
        apply find_filter_keep.
        -- apply Hupd. cbn. apply find_some in Hfind. tauto.
        -- apply negb_true_iff, hasId_false. cbn [withExit id].
           apply find_some in Hfind. destruct Hfind as [_ Hid].
           apply hasId_true in Hid. congruence.
  - intros now sym book mid bb ba upd changed stop Hst Hsym Hlive.
    unfold processOrder. apply String.eqb_neq in Hsym. rewrite Hsym.
    cbn [negb]. rewrite Hlive. reflexivity.
  - split; [| repeat split; vm_compute; reflexivity].
    intros now sym b a bs ask_rest ledger Hb Ha Hm book. split.
    + intros o Hst Hin. apply filter_In. split; [exact Hin |].
      unfold needsProcessing. rewrite Hst. reflexivity.
    + unfold evaluateOrders, book. cbn [bids asks parseFloat].
      rewrite Hb, Ha. cbn [andb]. fold (midPriceOf b a). rewrite Hm. reflexivity.
Qed.

Lemma C5_stop_trigger_closes_position_witness :
  exists upd' closed,
    processOrder 7 "BTC-USDT" fallenBook (Fin (189 # 2)) (numZ 94) (numZ 95)
      ([openLong; protectiveStop], false) protectiveStop = Done (upd', true)
    /\ (forall o, In o upd' -> id o <> "sl")
    /\ find (hasId "p") upd' = Some closed
    /\ pnl closed = Some (numZ (-6))
    /\ exitResult closed
       = Some (mkResult (Some (numZ 94)) (Some zero) (Some (numZ 100)) (Some zero)
                 (Some 7%Z) None)
    /\ status closed = Filled.
Proof.
  destruct (proj1 C5_stop_trigger_closes_position 7%Z "BTC-USDT" fallenBook
              (Fin (189 # 2)) (numZ 94) (numZ 95) [openLong; protectiveStop] false
              protectiveStop (mkStopLoss (VStr "95")) eq_refl eq_refl eq_refl)
    as [_ [_ Hfill]].
  destruct (Hfill eq_refl eq_refl) as [upd' [Hrun [Hgone [_ Hclosed]]]].
  destruct (Hclosed "p" openLong eq_refl ltac:(discriminate) eq_refl)
    as (closed & Hfind & Hpnl & Hexit & _ & _ & Hstatus & _).
  exists upd', closed.
  split; [exact Hrun | split; [exact Hgone | split; [exact Hfind |]]].
  split; [exact Hpnl | split; [exact Hexit | exact Hstatus]].
Defined.

(** * Further properties of the code *)

(** ** Bounds on the result of the impact simulation *)

Lemma Fin_Qred_eq (a b : Q) : a == b -> Fin (Qred a) = Fin (Qred b).
Proof. intros H. f_equal. now apply Qred_complete. Qed.

Lemma levelSizeInBase_tradable (v : Venue) (l : Level) (p z : Q) :
  price l = Fin p -> size l = Fin z -> 0 < p -> 0 <= z ->
  exists L, levelSizeInBase v l = Fin L /\ 0 <= L.
Proof.
  intros Hp Hz Hpos Hnn. unfold levelSizeInBase. cbn [parseFloat]. rewrite Hp, Hz.
  destruct (venue_eqb v DERIBIT); [| exists z; auto].
  unfold ndiv. destruct (Qeq_bool p 0) eqn:E.
  - apply Qeq_bool_iff in E. lra.
  - exists (Qred (z / p)). split; [reflexivity |]. rewrite Qred_correct.
    apply Qle_shift_div_l; lra.
Qed.

Lemma consume_fillWithin (p : OrderParams) (l : Level) (q lo hi : Q) (st : Fill) :
  levelBetween lo hi l -> fillWithin q lo hi st ->
  fillWithin q lo hi (consume p l st).
Proof.
  intros [pl [z [Hp [Hz [Hpos [Hnn [Hlo Hhi]]]]]]] [s [c [f [-> [Hs [Hf [Hsum [Hc1 Hc2]]]]]]]].
  destruct (levelSizeInBase_tradable (venue p) l pl z Hp Hz Hpos Hnn) as [L [HL HLnn]].
  unfold consume. cbn [sizeToFill totalCost filledSize parseFloat]. rewrite HL, Hp.
  assert (Hm : exists m, nmin (Fin s) (Fin L) = Fin m /\ 0 <= m /\ m <= s).
  { unfold nmin, nle. destruct (Qle_bool s L) eqn:E.
    - exists s. split; [reflexivity | lra].
    - exists L. split; [reflexivity |]. split; [assumption |].
      destruct (Qlt_le_dec L s) as [H | H]; [lra |].
      apply Qle_bool_iff in H. congruence. }
  destruct Hm as [m [-> [Hm0 Hms]]]. cbn [nsub nadd nmul].
  eexists _, _, _. split; [reflexivity |].
  rewrite !Qred_correct. repeat split; try lra; nra.
Qed.

Lemma walkLevels_fillWithin (p : OrderParams) (levels : list Level) (q lo hi : Q)
    (st : Fill) :
  Forall (levelBetween lo hi) levels -> fillWithin q lo hi st ->
  fillWithin q lo hi (walkLevels p levels st).
Proof.
  intros Hl. revert st. induction Hl as [| l levels Hlev _ IH]; intros st Hst;
    cbn [walkLevels]; [exact Hst |].
  destruct (nle (sizeToFill st) zero); [exact Hst |].
  destruct (skipsLevel p l); apply IH; [exact Hst |].
  now apply consume_fillWithin.
Qed.

(** The shape of a result that is not the zero result: finite figures, the
    average within the price range of the side, the filled percentage in
    (0, 100], slippage and price impact computed from the best price. *)
Lemma impact_shape (p : OrderParams) (book : Book) (q lo hi : Q) :
  parseFloat (quantity p) = Fin q ->
  Forall (levelBetween lo hi) (relevantBook p book) ->
  calculateMarketImpact p book = zeroImpact
  \/ exists a s f i best,
       calculateMarketImpact p book = mkImpact (Fin a) (Fin s) (Fin f) (Fin i)
       /\ bestPriceOf (relevantBook p book) = Fin best /\ 0 < best
       /\ lo <= a /\ a <= hi /\ 0 < f /\ f <= 100
       /\ s == Qabs ((a - best) / best) * 100 /\ i == Qabs (a - best).
Proof.
  intros Hq Hall. unfold calculateMarketImpact. rewrite Hq. cbn [isNaN orb].
  destruct (nle (Fin q) zero) eqn:Eq; [now left |].
  assert (Hqpos : 0 < q).
  { unfold nle, zero, numZ in Eq. change (inject_Z 0) with 0 in Eq.
    destruct (Qlt_le_dec 0 q) as [H | H]; [exact H |].
    apply Qle_bool_iff in H. congruence. }
  destruct (relevantBook p book) as [| l rest] eqn:El; [now left |].
  inversion Hall as [| ? ? Hl _]; subst.
  destruct Hl as [pl [z [Hp [Hz [Hpos [Hnn [Hlo Hhi]]]]]]].
  cbn [bestPriceOf parseFloat]. rewrite Hp. cbn [isNaN orb].
  assert (nle (Fin pl) zero = false) as ->.
  { unfold nle, zero, numZ. change (inject_Z 0) with 0.
    destruct (Qle_bool pl 0) eqn:E; [| reflexivity].
    apply Qle_bool_iff in E. lra. }
  assert (Hinit : fillWithin q lo hi (mkFill (Fin q) zero zero)).
  { exists q, 0, 0. split; [reflexivity |]. repeat split; lra. }
  destruct (walkLevels_fillWithin p (l :: rest) q lo hi _ Hall Hinit)
    as [s [c [f [-> [Hs [Hf [Hsum [Hc1 Hc2]]]]]]]].
  cbn [filledSize totalCost]. unfold nseq, zero, numZ.
  change (inject_Z 0) with 0.
  destruct (Qeq_bool f 0) eqn:Ef; [now left |].
  assert (Hfpos : 0 < f).
  { destruct (Qlt_le_dec 0 f) as [H | H]; [exact H |].
    assert (Hz0 : f == 0) by lra. apply Qeq_bool_iff in Hz0. congruence. }
  right. unfold ndiv, nsub, nabs, nmul. rewrite Ef.
  assert (Qeq_bool q 0 = false) as ->.
  { destruct (Qeq_bool q 0) eqn:E; [| reflexivity]. apply Qeq_bool_iff in E. lra. }
  assert (Qeq_bool pl 0 = false) as ->.
  { destruct (Qeq_bool pl 0) eqn:E; [| reflexivity]. apply Qeq_bool_iff in E. lra. }
  eexists _, _, _, _, pl. split; [reflexivity |].
  split; [reflexivity |]. split; [exact Hpos |].
  rewrite !Qred_correct. change (inject_Z 100) with 100.
  assert (Hdiv1 : lo <= c / f) by (apply Qle_shift_div_l; lra).
  assert (Hdiv2 : c / f <= hi) by (apply Qle_shift_div_r; lra).
  assert (Hfq1 : 0 < f / q) by (apply Qlt_shift_div_l; lra).
  assert (Hfq2 : f / q <= 1) by (apply Qle_shift_div_r; lra).
  repeat split; try assumption; try lra; try reflexivity.
Qed.

Lemma levelBetween_weaken (lo hi lo' hi' : Q) (l : Level) :
  lo' <= lo -> hi <= hi' -> levelBetween lo hi l -> levelBetween lo' hi' l.
Proof.
  intros H1 H2 [p [z [Hp [Hz [Hpos [Hnn [Hlo Hhi]]]]]]].
  exists p, z. repeat split; try assumption; lra.
Qed.

Lemma tradable_levels_between (levels : list Level) :
  Forall tradableLevel levels ->
  exists lo hi, 0 < lo /\ Forall (levelBetween lo hi) levels.
Proof.
  induction 1 as [| l levels Hl _ [lo [hi [Hlo IH]]]].
  - exists 1, 1. split; [lra | constructor].
  - destruct Hl as [p [z [Hp [Hz [Hpos Hnn]]]]].
    exists (Qmin p lo), (Qmax p hi). split; [now apply Q.min_glb_lt |].
    constructor.
    + exists p, z. repeat split; try assumption;
        [apply Q.le_min_l | apply Q.le_max_l].
    + eapply Forall_impl; [| exact IH]. intros l'.
      apply levelBetween_weaken; [apply Q.le_min_r | apply Q.le_max_r].
Qed.

Lemma nle_Fin (a b : Q) : nle (Fin a) (Fin b) = true <-> a <= b.
Proof. unfold nle. apply Qle_bool_iff. Qed.

Lemma nlt_Fin (a b : Q) : nlt (Fin a) (Fin b) = true <-> a < b.
Proof. unfold nlt. apply Qlt_bool_iff. Qed.

Lemma nabs_nanOrNotNegative (x : number) : nanOrNotNegative (nabs x).
Proof.
  destruct x as [| | | a]; cbn [nabs]; [now left | now right | now right |].
  right. apply nle_Fin. rewrite Qred_correct. change (inject_Z 0) with 0.
  apply Qabs_nonneg.
Qed.

Lemma percent_nanOrNotNegative (x : number) :
  nanOrNotNegative x -> nanOrNotNegative (nmul x (numZ 100)).
Proof.
  intros [H | H]; destruct x as [| | | a]; try discriminate;
    [now left | now right |].
  right. apply nle_Fin in H. apply nle_Fin. rewrite Qred_correct.
  change (inject_Z 0) with 0 in *. change (inject_Z 100) with 100. lra.
Qed.

Lemma scenarioAsks_tradable : Forall tradableLevel scenarioAsks.
Proof.
  repeat constructor; eexists _, _;
    (split; [reflexivity | split; [reflexivity | split; reflexivity || discriminate]]).
Qed.

(** X1: the slippage and the price impact of a result, for any order and any
    book, are not negative: each is NaN or at least 0.  On a side whose
    levels have finite positive prices and finite sizes that are not
    negative, and for a finite quantity of at most one billion, the filled
    percentage is at least 0 and the average fill price is NaN or at least
    0. *)
Theorem impact_figures_are_never_negative (p : OrderParams) (book : Book) :
  let r := calculateMarketImpact p book in
  nanOrNotNegative (slippage r)
  /\ nanOrNotNegative (priceImpact r)
  /\ (forall q : Q,
         parseFloat (quantity p) = Fin q -> q <= 1000000000 ->
         Forall tradableLevel (relevantBook p book) ->
         nle zero (filledPercentage r) = true
         /\ nanOrNotNegative (avgFillPrice r)).
Proof.
  intros r. subst r.
  assert (Hz : nanOrNotNegative zero) by (now right).
  split; [| split].
  - unfold calculateMarketImpact.
    destruct (isNaN _ || nle _ zero); [exact Hz |].
    destruct (relevantBook p book); [exact Hz |].
    destruct (isNaN _ || nle _ zero); [exact Hz |].
    destruct (nseq _ zero); [exact Hz |].
    cbn [slippage]. apply percent_nanOrNotNegative, nabs_nanOrNotNegative.
  - unfold calculateMarketImpact.
    destruct (isNaN _ || nle _ zero); [exact Hz |].
    destruct (relevantBook p book); [exact Hz |].
    destruct (isNaN _ || nle _ zero); [exact Hz |].
    destruct (nseq _ zero); [exact Hz |].
    cbn [priceImpact]. apply nabs_nanOrNotNegative.
  - intros q Hq _ Hall.
    destruct (tradable_levels_between _ Hall) as [lo [hi [Hlo Hbetween]]].
    destruct (impact_shape p book q lo hi Hq Hbetween)
      as [H | (a & s & f & i & best & Hr & _ & _ & Ha1 & _ & Hf1 & _)].
    + rewrite H. split; [reflexivity | exact Hz].
    + rewrite Hr. cbn [filledPercentage avgFillPrice]. split; [| right];
        apply nle_Fin; change (inject_Z 0) with 0; lra.
Qed.

Lemma impact_figures_are_never_negative_witness :
  let r := calculateMarketImpact (marketBuy "5") referenceBook in
  parseFloat (quantity (marketBuy "5")) = numZ 5
  /\ nle zero (filledPercentage r) = true
  /\ nanOrNotNegative (avgFillPrice r).
Proof.
  split; [reflexivity |].
  apply (proj2 (proj2 (impact_figures_are_never_negative (marketBuy "5") referenceBook))
           5 eq_refl); [discriminate | exact scenarioAsks_tradable].
Defined.

Lemma walkLevels_filled (p : OrderParams) (levels : list Level) (st : Fill) :
  nle (sizeToFill st) zero = true -> walkLevels p levels st = st.
Proof. intros H. destruct levels; cbn [walkLevels]; [reflexivity | now rewrite H]. Qed.

Lemma Qeq_bool_false_of_pos (a : Q) : 0 < a -> Qeq_bool a 0 = false.
Proof.
  intros H. destruct (Qeq_bool a 0) eqn:E; [| reflexivity].
  apply Qeq_bool_iff in E. lra.
Qed.

Lemma Qle_bool_false_of_pos (a : Q) : 0 < a -> Qle_bool a 0 = false.
Proof.
  intros H. destruct (Qle_bool a 0) eqn:E; [| reflexivity].
  apply Qle_bool_iff in E. lra.
Qed.

(** The walk of an order that the best level can take in full, and the
    result it leads to when the arithmetic is exact. *)
Lemma fill_within_best_level
    (p : OrderParams) (book : Book) (best : Level) (rest : list Level) (q pb L : Q) :
  parseFloat (quantity p) = Fin q -> 0 < q ->
  relevantBook p book = best :: rest ->
  price best = Fin pb -> 0 < pb ->
  levelSizeInBase (venue p) best = Fin L -> q <= L ->
  skipsLevel p best = false ->
  walkLevels p (best :: rest) (mkFill (Fin q) zero zero)
  = mkFill (Fin (Qred (q - q))) (Fin (Qred (0 + Qred (q * pb)))) (Fin (Qred (0 + q)))
  /\ slippage (calculateMarketImpact p book) = zero
  /\ filledPercentage (calculateMarketImpact p book) = numZ 100.
Proof.
  intros Hq Hqpos Hbook Hp Hpb HL HqL Hskip.
  assert (Hnle : forall a, 0 < a -> nle (Fin a) zero = false).
  { intros a Ha. unfold nle, zero, numZ. change (inject_Z 0) with 0.
    now apply Qle_bool_false_of_pos. }
  set (f := Qred (0 + q)). set (c := Qred (0 + Qred (q * pb))).
  assert (Hwalk : walkLevels p (best :: rest) (mkFill (Fin q) zero zero)
                  = mkFill (Fin (Qred (q - q))) (Fin c) (Fin f)).
  { cbn [walkLevels sizeToFill]. rewrite (Hnle q Hqpos), Hskip.
    unfold consume. cbn [sizeToFill totalCost filledSize parseFloat]. rewrite HL, Hp.
    assert (nmin (Fin q) (Fin L) = Fin q) as ->.
    { unfold nmin, nle. apply Qle_bool_iff in HqL. now rewrite HqL. }
    rewrite walkLevels_filled; [reflexivity |].
    cbn [sizeToFill nsub]. apply nle_Fin. rewrite Qred_correct.
    change (inject_Z 0) with 0. lra. }
  split; [exact Hwalk |].
  assert (Hf : f == q) by (subst f; rewrite Qred_correct; ring).
  assert (Hc : c == q * pb) by (subst c; rewrite !Qred_correct; ring).
  assert (Hfpos : 0 < f) by lra.
  unfold calculateMarketImpact. rewrite Hq, Hbook, Hwalk.
  cbn [isNaN orb bestPriceOf parseFloat]. rewrite Hp. cbn [isNaN orb].
  rewrite (Hnle q Hqpos), (Hnle pb Hpb). cbn [filledSize totalCost].
  assert (nseq (Fin f) zero = false) as ->.
  { unfold nseq, zero, numZ. change (inject_Z 0) with 0.
    now apply Qeq_bool_false_of_pos. }
  unfold ndiv. rewrite (Qeq_bool_false_of_pos f Hfpos),
    (Qeq_bool_false_of_pos q Hqpos).
  cbn [avgFillPrice slippage filledPercentage priceImpact nsub nabs nmul].
  rewrite (Qeq_bool_false_of_pos pb Hpb). unfold numZ, zero, numZ.
  change (inject_Z 0) with 0. change (inject_Z 100) with 100. cbn [nabs nmul].
  assert (Hcf : c / f == pb) by (rewrite Hc, Hf; field; lra).
  split.
  - apply (Fin_Qred_eq _ 0). rewrite !Qred_correct, Hcf.
    setoid_replace ((pb - pb) / pb) with 0 by (field; lra). reflexivity.
  - apply (Fin_Qred_eq _ 100). rewrite Qred_correct, Hf. field. lra.
Qed.

(** X3: an order of finite quantity, of one billionth at least, that the
    best level can take in full, and that its limit does not keep from that
    level, is filled there in full: the walk ends with the whole quantity
    filled and nothing left to fill, and the filled percentage of the result
    is 100. *)
Theorem order_within_best_level_is_filled_in_full
    (p : OrderParams) (book : Book) (best : Level) (rest : list Level) (q pb L : Q) :
  parseFloat (quantity p) = Fin q -> 1 # 1000000000 <= q ->
  relevantBook p book = best :: rest ->
  price best = Fin pb -> 0 < pb ->
  levelSizeInBase (venue p) best = Fin L -> q <= L ->
  skipsLevel p best = false ->
  let walk := walkLevels p (best :: rest) (mkFill (Fin q) zero zero) in
  sizeToFill walk = zero
  /\ nseq (filledSize walk) (Fin q) = true
  /\ filledPercentage (calculateMarketImpact p book) = numZ 100.
Proof.
  intros Hq Hqmin Hbook Hp Hpb HL HqL Hskip walk. subst walk.
  assert (Hqpos : 0 < q) by lra.
  destruct (fill_within_best_level p book best rest q pb L Hq Hqpos Hbook Hp Hpb HL
              HqL Hskip) as (Hwalk & _ & Hpct).
  rewrite Hwalk. cbn [sizeToFill filledSize]. split; [| split; [| exact Hpct]].
  - apply (Fin_Qred_eq _ 0). ring.
  - unfold nseq. apply Qeq_bool_iff. rewrite Qred_correct. ring.
Qed.

Lemma order_within_best_level_is_filled_in_full_witness :
  let walk := walkLevels (marketBuy "1") scenarioAsks (mkFill (numZ 1) zero zero) in
  sizeToFill walk = zero
  /\ nseq (filledSize walk) (numZ 1) = true
  /\ filledPercentage (calculateMarketImpact (marketBuy "1") referenceBook) = numZ 100.
Proof.
  apply (order_within_best_level_is_filled_in_full (marketBuy "1") referenceBook
           (mkLevel (numZ 100) (numZ 1)) [mkLevel (numZ 101) (numZ 2)] 1 100 1);
    try reflexivity; try lra.
Defined.

(** In binary64 the sums and quotients of the walk are rounded.  Filling
    0.1, 0.1 and 0.4 for a quantity of 0.6 gives a filled size above 0.6 and
    a filled percentage above 100; filling 0.3 at the single price 107.2
    gives an average fill price below 107.2, a slippage that is not 0 but
    far below the warning threshold, and a filled percentage of exactly 100.
    The properties of this part are stated so that they hold with and
    without rounding; bounds that rounding breaks are not among them. *)
Remark rounding_in_binary64 :
  (let filledSize :=
     (0 + 0x1.999999999999ap-4 + 0x1.999999999999ap-4 + 0x1.999999999999ap-2)%float in
   (0x1.3333333333333p-1 <? filledSize)%float = true
   /\ (100 <? filledSize / 0x1.3333333333333p-1 * 100)%float = true)
  /\ (let q := 0x1.3333333333333p-2%float in
      let best := 0x1.acccccccccccdp+6%float in
      let avg := ((0 + q * best) / (0 + q))%float in
      let slippage := (PrimFloat.abs ((avg - best) / best) * 100)%float in
      (avg <? best)%float = true
      /\ (0 <? slippage)%float = true
      /\ (slippage <? 0x1.47ae147ae147bp-7)%float = true
      /\ ((0 + q) / q * 100)%float = 100%float).
Proof. cbv zeta. repeat split; vm_compute; reflexivity. Qed.

(** ** The timer callback of [scheduleOrderExecution] *)

Lemma nle_false_nlt (a b : number) :
  isNaN a = false -> isNaN b = false -> nle a b = false -> nlt b a = true.
Proof.
  destruct a, b; simpl; try congruence. intros _ _ H.
  unfold Qlt_bool. now rewrite H.
Qed.

(** A limit order that is not marketable fills nothing on a sorted side. *)
Lemma unmarketable_limit_fills_nothing (p : OrderParams) (book : Book) :
  orderType p = Limit -> isNaN (parseFloat (limitPrice p)) = false ->
  Forall (fun l => isNumericLevel l = true) (relevantBook p book) ->
  StronglySorted (walkOrder (side p)) (relevantBook p book) ->
  bookUnavailable book = false -> limitMarketable p book = false ->
  calculateMarketImpact p book = zeroImpact.
Proof.
  intros Hty Hlim Hnum Hsorted Hav Hq.
  assert (Hskip : Forall (fun l => skipsLevel p l = true) (relevantBook p book)).
  { unfold bookUnavailable, limitMarketable in *. unfold relevantBook in *.
    destruct (bids book) as [| b bs]; [discriminate |].
    destruct (asks book) as [| a ask_rest]; [discriminate |].
    assert (Hhead : forall l rest, (if side_eqb (side p) Buy then a :: ask_rest else b :: bs)
                                   = l :: rest -> crossesLimit p l = true).
    { intros l rest Hl. unfold crossesLimit. rewrite Hty. cbn [includesLimit andb].
      destruct (side p); cbn [side_eqb] in Hl; injection Hl as <- <-;
        inversion Hnum as [| ? ? Hn _]; subst; apply numeric_hasPrice in Hn;
        unfold ngt, nge in *; now apply nle_false_nlt. }
    destruct (if side_eqb (side p) Buy then a :: ask_rest else b :: bs)
      as [| l rest] eqn:El; [constructor |].
    pose proof (Hhead l rest eq_refl) as Hc.
    inversion Hsorted as [| ? ? _ Hall]; subst.
    constructor; [now apply crossesLimit_skips |].
    eapply Forall_impl; [| exact Hall]. intros l' Hl'.
    apply crossesLimit_skips. now apply (crossesLimit_later p l l'). }
  unfold calculateMarketImpact.
  destruct (isNaN (parseFloat (quantity p)) || nle (parseFloat (quantity p)) zero);
    [reflexivity |].
  destruct (relevantBook p book) as [| l rest] eqn:El; [reflexivity |].
  destruct (isNaN (bestPriceOf (l :: rest)) || nle (bestPriceOf (l :: rest)) zero);
    [reflexivity |].
  rewrite (walkLevels_all_skipped p (l :: rest) _ Hskip). reflexivity.
Qed.

(** X5: when the timer of a Limit order fires on a book of the store that
    has bids and asks and on which the order is not marketable, the ledger
    is returned as it is: the order keeps resting. *)
Theorem timer_leaves_unmarketable_limit_resting
    (now t0 : Z) (orderBooks : Venue -> Book) (p : OrderParams) (newId : string)
    (prevOrders : Ledger) (ref : BookRef) :
  orderBooks (venue p) = updateUI ref ->
  bookUnavailable (updateUI ref) = false ->
  orderType p = Limit -> isNaN (parseFloat (limitPrice p)) = false ->
  limitMarketable p (updateUI ref) = false ->
  executionTimer now orderBooks p newId t0 prevOrders = Done prevOrders.
Proof.
  intros Hbook Hav Hty Hlim Hq. unfold executionTimer.
  destruct (find (hasId newId) prevOrders) as [o |]; [| reflexivity].
  destruct (negb (status_eqb (status o) Pending)); [reflexivity |].
  rewrite Hbook, Hav.
  rewrite (unmarketable_limit_fills_nothing p (updateUI ref) Hty Hlim); try assumption.
  - cbn. now rewrite Hty.
  - destruct (updateUI_numeric ref) as [Hb Ha]. unfold relevantBook.
    now destruct (side_eqb (side p) Buy).
  - destruct (updateUI_sorted ref) as [Hb Ha]. unfold relevantBook, walkOrder.
    destruct (side p); cbn [side_eqb]; assumption.
Qed.

Lemma timer_leaves_unmarketable_limit_resting_witness :
  executionTimer 9 (fun _ => updateUI tidyRef) limitBuyAt100 "n" 5
    (placeOrder "n" limitBuyAt100 5 [])
  = Done (placeOrder "n" limitBuyAt100 5 []).
Proof.
  apply (timer_leaves_unmarketable_limit_resting 9 5 (fun _ => updateUI tidyRef)
           limitBuyAt100 "n" _ tidyRef); reflexivity.
Defined.

Lemma map_update_other (i : string) (g : Order -> Order) (l : Ledger) (o : Order) :
  In o l -> hasId i o = false ->
  In o (map (fun x => if hasId i x then g x else x) l).
Proof.
  intros Hin Ho. apply in_map_iff. exists o. now rewrite Ho.
Qed.

Lemma map_update_ids (i : string) (g : Order -> Order) (l : Ledger) :
  (forall x, id (g x) = id x) ->
  map id (map (fun x => if hasId i x then g x else x) l) = map id l.
Proof.
  intros Hg. rewrite map_map. apply map_ext. intros x.
  destruct (hasId i x); [apply Hg | reflexivity].
Qed.

(** X6: a pending order whose timer fires while the book of its venue, in the
    book table the callback was created with, lacks bids or asks gets status
    Failed and a result holding only the error "Market data unavailable.";
    a Market order that this book does not fill at all gets status Failed
    and a result holding only the error "Market order could not be
    filled.".  In both cases the order keeps its id, parameters and creation
    time, no id is added or removed, and every other order is kept as it
    was. *)
Theorem timer_failure_keeps_the_order_with_a_reason
    (now t0 : Z) (orderBooks : Venue -> Book) (p : OrderParams) (newId : string)
    (prevOrders : Ledger) (pending : Order) :
  find (hasId newId) prevOrders = Some pending -> status pending = Pending ->
  let failedWith (reason : string) (l : Ledger) :=
    (exists failed,
        find (hasId newId) l = Some failed
        /\ status failed = Failed
        /\ result failed = Some (mkResult None None None None None (Some reason))
        /\ id failed = newId /\ params failed = params pending
        /\ createdAt failed = createdAt pending)
    /\ map id l = map id prevOrders
    /\ (forall o, In o prevOrders -> id o <> newId -> In o l) in
  (bookUnavailable (orderBooks (venue p)) = true ->
   exists l, executionTimer now orderBooks p newId t0 prevOrders = Done l
             /\ failedWith "Market data unavailable." l)
  /\ (bookUnavailable (orderBooks (venue p)) = false ->
      orderType p = Market ->
      ngt (filledPercentage (calculateMarketImpact p (orderBooks (venue p)))) zero = false ->
      exists l, executionTimer now orderBooks p newId t0 prevOrders = Done l
                /\ failedWith "Market order could not be filled." l).
Proof.
  intros Hf Hst failedWith.
  assert (Hfailed : forall reason,
             failedWith reason
               (map (fun o => if hasId newId o
                              then withOutcome o Failed (errorResult reason) else o)
                    prevOrders)).
  { intros reason. split; [| split].
    - exists (withOutcome pending Failed (errorResult reason)).
      split; [| repeat split].
      + apply (find_map_update newId (fun o => withOutcome o Failed _));
          [reflexivity | exact Hf].
      + cbn [withOutcome id]. apply find_some in Hf. now apply hasId_true.
    - apply map_update_ids. reflexivity.
    - intros o Hin Hne. apply map_update_other; [exact Hin | now apply hasId_false]. }
  split.
  - intros Hb. unfold executionTimer. rewrite Hf, Hst, Hb. cbn [status_eqb negb].
    eexists. split; [reflexivity | apply Hfailed].
  - intros Hb Hm Hfill. unfold executionTimer.
    rewrite Hf, Hst, Hb, Hfill, Hm. cbn [status_eqb negb].
    eexists. split; [reflexivity | apply Hfailed].
Qed.

Lemma timer_failure_keeps_the_order_with_a_reason_witness :
  exists l failed,
    executionTimer 9 (fun _ => mkBook [] scenarioAsks) (marketBuy "1") "n" 5
      (placeOrder "n" (marketBuy "1") 5 [restingLimit]) = Done l
    /\ find (hasId "n") l = Some failed
    /\ status failed = Failed
    /\ result failed
       = Some (mkResult None None None None None (Some "Market data unavailable."))
    /\ map id l = ["n"; "a"]
    /\ In restingLimit l.
Proof.
  destruct (proj1 (timer_failure_keeps_the_order_with_a_reason 9 5
                     (fun _ => mkBook [] scenarioAsks) (marketBuy "1") "n"
                     (placeOrder "n" (marketBuy "1") 5 [restingLimit])
                     (newPendingOrder "n" (marketBuy "1") 5) eq_refl eq_refl) eq_refl)
    as (l & Hrun & (failed & Hfind & Hstatus & Hresult & _) & Hids & Hothers).
  exists l, failed.
  split; [exact Hrun | split; [exact Hfind | split; [exact Hstatus |]]].
  split; [exact Hresult | split; [exact Hids |]].
  apply Hothers; [right; left; reflexivity | discriminate].
Defined.

(** X7: whatever the timer callback does, it adds no order, and every order
    that is neither the new order nor the position it merges into is still
    in the ledger, unchanged. *)
Theorem timer_touches_only_new_order_and_merged_position
    (now t0 : Z) (orderBooks : Venue -> Book) (p : OrderParams) (newId : string)
    (prevOrders l : Ledger) :
  executionTimer now orderBooks p newId t0 prevOrders = Done l ->
  (forall i, In i (map id l) -> In i (map id prevOrders))
  /\ (forall o, In o prevOrders -> id o <> newId ->
                (forall e, find (samePosition p) prevOrders = Some e -> id o <> id e) ->
                In o l).
Proof.
  unfold executionTimer.
  assert (Hmap : forall (g : Order -> Order),
             (forall x, id (g x) = id x) ->
             (forall i, In i (map id (map (fun x => if hasId newId x then g x else x)
                                        prevOrders)) -> In i (map id prevOrders))
             /\ (forall o, In o prevOrders -> id o <> newId ->
                           (forall e, find (samePosition p) prevOrders = Some e ->
                                      id o <> id e) ->
                           In o (map (fun x => if hasId newId x then g x else x)
                                   prevOrders))).
  { intros g Hg. split.
    - intros i. now rewrite map_update_ids.
    - intros o Hin Hne _. apply map_update_other; [exact Hin | now apply hasId_false]. }
  destruct (find (hasId newId) prevOrders) as [o0 |]; [| intros [= <-]; auto].
  destruct (negb (status_eqb (status o0) Pending)); [intros [= <-]; auto |].
  destruct (bookUnavailable (orderBooks (venue p))).
  { intros [= <-]. apply Hmap. reflexivity. }
  destruct (ngt (filledPercentage _) zero).
  - destruct (find (samePosition p) prevOrders) as [e |] eqn:Ee.
    + destruct (result e); [| discriminate]. intros [= <-]. split.
      * intros i Hi. apply in_map_iff in Hi. destruct Hi as (x & <- & Hx).
        apply filter_In in Hx. destruct Hx as [Hx _].
        apply (in_map id) in Hx. now rewrite map_update_ids in Hx.
      * intros o Hin Hne Hother. apply filter_In. split.
        -- apply map_update_other; [exact Hin |]. apply hasId_false. now apply Hother.
        -- apply negb_true_iff. now apply hasId_false.
    + intros [= <-]. apply Hmap. reflexivity.
  - destruct (orderType p); intros [= <-]; [apply Hmap; reflexivity | auto].
Qed.

Lemma timer_touches_only_new_order_and_merged_position_witness :
  In restingLimit
     [restingLimit; withFill (newPendingOrder "n" (marketBuy "1") 5)
                      (resultOfImpact (calculateMarketImpact (marketBuy "1") bookAt110) 9)
                      (secondsBetween 9 5)].
Proof.
  refine (proj2 (timer_touches_only_new_order_and_merged_position 9 5 (fun _ => bookAt110)
                   (marketBuy "1") "n"
                   [restingLimit; newPendingOrder "n" (marketBuy "1") 5] _ eq_refl)
            restingLimit _ _ _).
  - left. reflexivity.
  - discriminate.
  - intros e He. discriminate He.
Defined.

(** ** Closing, protecting and cancelling *)

(** X8: after an explicit close no order of the ledger refers to the closed
    position any more, while every order that neither carries the position's
    id nor refers to it is kept as it was; when the position is not in the
    ledger the handler was rendered with, or the book of its venue lacks bids
    or asks, the ledger is left as it is. *)
Theorem close_position_removes_its_stops
    (now : Z) (orderBooks : Venue -> Book) (simulatedOrders p : Ledger)
    (orderId : string) :
  (forall position,
      find (hasId orderId) simulatedOrders = Some position ->
      bookUnavailable (orderBooks (venue (params position))) = false ->
      (forall o, In o (handleClosePosition now orderBooks simulatedOrders orderId p) ->
                 refersTo orderId o = false)
      /\ (forall o, In o p -> id o <> orderId -> refersTo orderId o = false ->
                    In o (handleClosePosition now orderBooks simulatedOrders orderId p)))
  /\ (find (hasId orderId) simulatedOrders = None ->
      handleClosePosition now orderBooks simulatedOrders orderId p = p)
  /\ (forall position,
         find (hasId orderId) simulatedOrders = Some position ->
         bookUnavailable (orderBooks (venue (params position))) = true ->
         handleClosePosition now orderBooks simulatedOrders orderId p = p).
Proof.
  unfold handleClosePosition. split; [| split].
  - intros position Hf Hb. rewrite Hf, Hb. split.
    + intros o Ho. apply filter_In in Ho. destruct Ho as [_ Ho].
      now apply negb_true_iff in Ho.
    + intros o Hin Hne Href. apply filter_In. split.
      * apply map_update_other; [exact Hin | now apply hasId_false].
      * now rewrite Href.
  - now intros ->.
  - intros position Hf Hb. now rewrite Hf, Hb.
Qed.

Lemma close_position_removes_its_stops_witness :
  map id (handleClosePosition 7 (fun _ => fallenBook) [openLong; protectiveStop; restingLimit]
            "p" [openLong; protectiveStop; restingLimit])
  = ["p"; "a"]
  /\ In restingLimit
        (handleClosePosition 7 (fun _ => fallenBook) [openLong; protectiveStop; restingLimit]
           "p" [openLong; protectiveStop; restingLimit]).
Proof.
  split; [reflexivity |].
  apply (proj2 (proj1 (close_position_removes_its_stops 7 (fun _ => fallenBook)
                         [openLong; protectiveStop; restingLimit]
                         [openLong; protectiveStop; restingLimit] "p")
                  openLong eq_refl eq_refl)).
  - right. right. left. reflexivity.
  - discriminate.
  - reflexivity.
Defined.

(** X9: a stop-loss added to a position is appended as an Untriggered order
    on the opposite side that refers to the position and copies its other
    parameters; closing the position afterwards gives the ledger that
    closing it without the stop gives. *)
Theorem stop_loss_is_opposite_and_goes_with_the_position
    (now t : Z) (orderBooks : Venue -> Book) (simulatedOrders p : Ledger)
    (posId newId : string) (slParams : StopLoss) (position : Order) :
  find (hasId posId) simulatedOrders = Some position ->
  newId <> posId ->
  (exists stop,
      handleAddStopLoss t newId simulatedOrders posId slParams p = (p ++ [stop])%list
      /\ id stop = newId /\ status stop = Untriggered
      /\ refersTo posId stop = true
      /\ stopLoss stop = Some slParams
      /\ params stop = withSide (params position) (oppositeSide (side (params position))))
  /\ (bookUnavailable (orderBooks (venue (params position))) = false ->
      handleClosePosition now orderBooks simulatedOrders posId
        (handleAddStopLoss t newId simulatedOrders posId slParams p)
      = handleClosePosition now orderBooks simulatedOrders posId p).
Proof.
  intros Hf Hne. split.
  - unfold handleAddStopLoss. rewrite Hf. eexists. split; [reflexivity |].
    repeat split. unfold refersTo. cbn [positionId]. apply String.eqb_refl.
  - intros Hb. unfold handleAddStopLoss, handleClosePosition. rewrite Hf, Hb.
    rewrite map_app, filter_app. cbn [map filter].
    assert (Hid : hasId posId
                    (mkOrder newId
                       (withSide (params position) (oppositeSide (side (params position))))
                       Untriggered t None None None None (Some posId)
                       (Some slParams) None) = false).
    { apply hasId_false. exact Hne. }
    rewrite Hid. unfold refersTo at 2. cbn [positionId].
    rewrite String.eqb_refl. cbn [negb]. apply app_nil_r.
Qed.

Lemma stop_loss_is_opposite_and_goes_with_the_position_witness :
  handleClosePosition 7 (fun _ => fallenBook) [openLong] "p"
    (handleAddStopLoss 3 "sl" [openLong] "p" (mkStopLoss (VStr "95")) [openLong])
  = handleClosePosition 7 (fun _ => fallenBook) [openLong] "p" [openLong].
Proof.
  apply (proj2 (stop_loss_is_opposite_and_goes_with_the_position 7 3 (fun _ => fallenBook)
                  [openLong] [openLong] "p" "sl" (mkStopLoss (VStr "95")) openLong
                  eq_refl ltac:(discriminate))).
  reflexivity.
Defined.

(** X10: a confirmed cancellation changes nothing but the status of the
    orders carrying the id: the ledger keeps its ids in their order, every
    other order is kept as it was, and confirming twice gives what confirming
    once gives; with no order selected the ledger is left as it is. *)
Theorem cancel_changes_only_the_status_of_its_order (i : string) (p : Ledger) :
  confirmCancelOrder None p = p
  /\ confirmCancelOrder (Some "") p = p
  /\ map id (confirmCancelOrder (Some i) p) = map id p
  /\ confirmCancelOrder (Some i) (confirmCancelOrder (Some i) p)
     = confirmCancelOrder (Some i) p
  /\ (forall o, In o p -> id o <> i -> In o (confirmCancelOrder (Some i) p))
  /\ (forall o, In o p -> id o = i -> i <> "" ->
                In (withStatus o Cancelled) (confirmCancelOrder (Some i) p)).
Proof.
  split; [reflexivity | split; [reflexivity |]].
  unfold confirmCancelOrder. destruct (String.eqb i "") eqn:Ei.
  - repeat split; auto. intros o _ _ Hne. apply String.eqb_neq in Hne. congruence.
  - split; [apply map_update_ids; reflexivity |]. split; [| split].
    + rewrite map_map. apply map_ext. intros x. destruct (hasId i x) eqn:E.
      * assert (hasId i (withStatus x Cancelled) = true) as -> by exact E. reflexivity.
      * now rewrite E.
    + intros o Hin Hne. apply map_update_other; [exact Hin | now apply hasId_false].
    + intros o Hin Hid _. apply in_map_iff. exists o. split; [| exact Hin].
      apply hasId_true in Hid. now rewrite Hid.
Qed.

(** ** What the evaluation effect never does *)

Lemma In_map_id_filter (f : Order -> bool) (l : Ledger) (i : string) :
  In i (map id (filter f l)) -> In i (map id l).
Proof.
  intros H. apply in_map_iff in H. destruct H as (x & <- & Hx).
  apply filter_In in Hx. apply in_map. tauto.
Qed.

Lemma executeTriggeredOrder_ids (now : Z) (x : Order) (book : Book) (upd : Ledger)
    (i : string) :
  (In i (map id (snd (executeTriggeredOrder now x book upd))) -> In i (map id upd))
  /\ ((id x = i -> status x <> Untriggered) ->
      In i (map id upd) -> In i (map id (snd (executeTriggeredOrder now x book upd)))).
Proof.
  unfold executeTriggeredOrder.
  destruct (nle _ zero); [cbn [snd]; auto |].
  destruct (status_eqb (status x) Untriggered) eqn:Es.
  - cbn [snd].
    match goal with |- context [filter _ ?c] => set (closed := c) end.
    assert (Hc : map id closed = map id upd).
    { subst closed. destruct (positionId x) as [pid |]; [| reflexivity].
      destruct (findIndex (hasId pid) upd); [| reflexivity].
      now rewrite updateAt_map_id. }
    split.
    + intros H. apply In_map_id_filter in H. now rewrite Hc in H.
    + intros Hx H. rewrite <- Hc in H. apply in_map_iff in H.
      destruct H as (o & Ho & Hin). apply in_map_iff. exists o. split; [exact Ho |].
      apply filter_In. split; [exact Hin |].
      apply negb_true_iff, hasId_false. intros Heq.
      apply (Hx (eq_trans (eq_sym Heq) Ho)).
      destruct (status x); try discriminate. reflexivity.
  - destruct (findIndex (hasId (id x)) upd); cbn [snd]; auto.
    rewrite updateAt_map_id by reflexivity. auto.
Qed.

Lemma processOrder_ids (now : Z) (sym : string) (book : Book) (mid bb ba : number)
    (st st' : Ledger * bool) (x : Order) (i : string) :
  processOrder now sym book mid bb ba st x = Done st' ->
  (In i (map id (fst st')) -> In i (map id (fst st)))
  /\ ((id x = i -> status x <> Untriggered) ->
      In i (map id (fst st)) -> In i (map id (fst st'))).
Proof.
  destruct st as [upd changed]. unfold processOrder. cbn [fst].
  assert (Hlive : forall k v, map id (updateAt k (fun o => withLivePnl o v) upd)
                              = map id upd).
  { intros k v. now apply updateAt_map_id. }
  destruct (negb (symbol (params x) =? sym)%string).
  - destruct (truthyOpt (livePnl x)); [| intros [= <-]; auto].
    destruct (findIndex (hasId (id x)) upd); intros [= <-]; cbn [fst]; auto.
    rewrite Hlive. auto.
  - set (st1 := if isOpenPosition x then _ else _).
    assert (H1 : map id (fst st1) = map id upd).
    { subst st1. destruct (isOpenPosition x); [| reflexivity].
      destruct (livePnlDiffers _ _); [| reflexivity].
      destruct (findIndex (hasId (id x)) upd); cbn [fst]; [apply Hlive | reflexivity]. }
    assert (H1' : (In i (map id (fst st1)) -> In i (map id upd))
                  /\ ((id x = i -> status x <> Untriggered) ->
                      In i (map id upd) -> In i (map id (fst st1)))).
    { rewrite H1. auto. }
    destruct (conditionMet x mid bb ba) as [met |]; cbn [bind]; [| discriminate].
    destruct met; [| intros [= <-]; exact H1'].
    pose proof (executeTriggeredOrder_ids now x book (fst st1) i) as He.
    destruct (executeTriggeredOrder now x book (fst st1)) as [ok updated].
    cbn [snd] in He. rewrite H1 in He.
    destruct ok; intros [= <-]; cbn [fst]; [exact He | exact H1'].
Qed.

Lemma forEach_processOrder_ids (now : Z) (sym : string) (book : Book)
    (mid bb ba : number) (xs : list Order) (st st' : Ledger * bool) (i : string) :
  forEach (processOrder now sym book mid bb ba) xs st = Done st' ->
  (In i (map id (fst st')) -> In i (map id (fst st)))
  /\ (Forall (fun x => id x = i -> status x <> Untriggered) xs ->
      In i (map id (fst st)) -> In i (map id (fst st'))).
Proof.
  revert st. induction xs as [| x xs IH]; intros st; cbn [forEach].
  - intros [= <-]. auto.
  - destruct (processOrder now sym book mid bb ba st x) as [st1 |] eqn:E;
      cbn [bind]; [| discriminate].
    intros Hrest. destruct (IH st1 Hrest) as [IH1 IH2].
    destruct (processOrder_ids _ _ _ _ _ _ _ _ _ i E) as [P1 P2].
    split; [auto |]. intros Hall Hin. inversion Hall as [| ? ? Hx Hxs]; subst. auto.
Qed.

Lemma forEach_processOrder_NoDup (now : Z) (sym : string) (book : Book)
    (mid bb ba : number) (xs : list Order) (st st' : Ledger * bool) :
  forEach (processOrder now sym book mid bb ba) xs st = Done st' ->
  NoDup (map id (fst st)) -> NoDup (map id (fst st')).
Proof.
  revert st. induction xs as [| x xs IH]; intros st; cbn [forEach].
  - intros [= <-]. auto.
  - destruct (processOrder now sym book mid bb ba st x) as [st1 |] eqn:E;
      cbn [bind]; [| discriminate].
    intros Hrest Hnd. apply (IH st1 Hrest).
    exact (processOrder_NoDup _ _ _ _ _ _ _ _ _ E Hnd).
Qed.

(** X11: one run of the evaluation effect on a ledger with distinct ids
    gives a ledger with distinct ids, adds no order, and drops no order
    other than an Untriggered stop. *)
Theorem effect_adds_nothing_and_drops_only_stops
    (now : Z) (sym : string) (book : Book) (l : Ledger) :
  NoDup (map id l) ->
  NoDup (map id (afterTick now sym book l))
  /\ (forall i, In i (map id (afterTick now sym book l)) -> In i (map id l))
  /\ (forall o, In o l -> status o <> Untriggered ->
                In (id o) (map id (afterTick now sym book l))).
Proof.
  intros Hnd.
  assert (Hsame : NoDup (map id l) /\ (forall i, In i (map id l) -> In i (map id l))
                  /\ (forall o, In o l -> status o <> Untriggered -> In (id o) (map id l))).
  { split; [exact Hnd | split; [auto |]]. intros o Ho _. now apply in_map. }
  unfold afterTick, evaluateOrders.
  destruct (bids book) as [| b bs]; [exact Hsame |].
  destruct (asks book) as [| a ask_rest]; [exact Hsame |].
  destruct (truthy (price b) && truthy (price a)); [| exact Hsame].
  destruct (negb (truthy _)); [exact Hsame |].
  match goal with
  | |- context [forEach ?f ?xs ?s] => destruct (forEach f xs s) as [st' |] eqn:E
  end; cbn [bind]; [| exact Hsame].
  destruct (snd st'); [| exact Hsame].
  split; [exact (forEach_processOrder_NoDup _ _ _ _ _ _ _ _ _ E Hnd) |].
  split.
  - intros i. exact (proj1 (forEach_processOrder_ids _ _ _ _ _ _ _ _ _ i E)).
  - intros o Ho Hst.
    apply (proj2 (forEach_processOrder_ids _ _ _ _ _ _ _ _ _ (id o) E)).
    + apply Forall_forall. intros x Hx Hid. apply filter_In in Hx. destruct Hx as [Hx _].
      now rewrite (NoDup_id_inj l x o Hnd Hx Ho Hid).
    + cbn [fst]. now apply in_map.
Qed.

Lemma effect_adds_nothing_and_drops_only_stops_witness :
  map id (afterTick 7 "BTC-USDT" fallenBook [openLong; protectiveStop]) = ["p"]
  /\ In (id openLong) (map id (afterTick 7 "BTC-USDT" fallenBook [openLong; protectiveStop])).
Proof.
  split; [reflexivity |].
  refine (proj2 (proj2 (effect_adds_nothing_and_drops_only_stops 7 "BTC-USDT" fallenBook
                          [openLong; protectiveStop] _)) openLong _ _).
  - repeat constructor; cbn; intuition discriminate.
  - left. reflexivity.
  - discriminate.
Defined.

(** ** Timing comparison *)

Lemma nmul_nabs_100_shape (x : number) :
  let s := nmul (nabs x) (numZ 100) in
  s = NaN \/ s = PInf \/ exists a, s = Fin a /\ 0 <= a.
Proof.
  destruct x as [| | | a]; cbn [nabs]; [now left | right; now left | right; now left |].
  right. right. eexists. split; [reflexivity |].
  rewrite !Qred_correct. change (inject_Z 100) with 100.
  pose proof (Qabs_nonneg a). lra.
Qed.

(** The slippage of a result is NaN, infinite or a number that is not
    negative. *)
Lemma slippage_shape (p : OrderParams) (book : Book) :
  let s := slippage (calculateMarketImpact p book) in
  s = NaN \/ s = PInf \/ exists a, s = Fin a /\ 0 <= a.
Proof.
  assert (Hz : let s := slippage zeroImpact in
               s = NaN \/ s = PInf \/ exists a, s = Fin a /\ 0 <= a).
  { right. right. exists 0. split; [reflexivity | lra]. }
  unfold calculateMarketImpact.
  destruct (isNaN _ || nle _ zero); [exact Hz |].
  destruct (relevantBook p book); [exact Hz |].
  destruct (isNaN _ || nle _ zero); [exact Hz |].
  destruct (nseq _ zero); [exact Hz |].
  cbn [slippage]. apply nmul_nabs_100_shape.
Qed.

Lemma scaled_slippage_not_smaller (s : number) (c : Q) :
  (s = NaN \/ s = PInf \/ exists a, s = Fin a /\ 0 <= a) -> 1 <= c ->
  nlt (nmul s (Fin c)) (nmul s (Fin 1)) = false.
Proof.
  intros [-> | [-> | (a & -> & Ha)]] Hc.
  - reflexivity.
  - cbn [nmul nsign]. assert ((c ?= 0) = Gt) as -> by (apply Qgt_alt; lra). reflexivity.
  - cbn [nmul nlt]. unfold Qlt_bool. apply negb_false_iff, Qle_bool_iff.
    rewrite !Qred_correct. nra.
Qed.

Lemma bestScenario_keeps_first (first : ScenarioResult) (rest : list ScenarioResult) :
  Forall (fun r => nlt (adjustedSlippage r) (adjustedSlippage first) = false) rest ->
  bestScenario (first :: rest) = Some first.
Proof.
  cbn [bestScenario]. induction 1 as [| r rest Hr _ IH]; [reflexivity |].
  cbn [fold_left]. rewrite Hr. exact IH.
Qed.

Lemma adjustedSlippage_compareScenario (p : OrderParams) (book : Book) (sc : Scenario) :
  adjustedSlippage (compareScenario p book sc)
  = nmul (slippage (calculateMarketImpact p book)) (nadd (numZ 1) (delayFactor sc)).
Proof. reflexivity. Qed.

(** X12: whenever a comparison is produced, the scenario that
    [bestScenario] picks is the immediate one; it carries the average fill
    price and the filled percentage of the plain simulation. *)
Theorem best_scenario_is_the_immediate_one
    (orderBooks : Venue -> Book) (p : OrderParams) (rows : list ScenarioResult) :
  handleCompare orderBooks p = Some rows ->
  let base := calculateMarketImpact p (orderBooks (venue p)) in
  exists best,
    bestScenario rows = Some best
    /\ scenario best = mkScenario "Immediate (Best)" 0 zero
    /\ adjustedAvgFillPrice best = avgFillPrice base
    /\ scenarioFilledPercentage best = filledPercentage base.
Proof.
  unfold handleCompare. destruct (bookUnavailable (orderBooks (venue p))); [discriminate |].
  intros Hrows. injection Hrows as <-.
  pose proof (slippage_shape p (orderBooks (venue p))) as Hs. cbv zeta in Hs.
  exists (compareScenario p (orderBooks (venue p)) (mkScenario "Immediate (Best)" 0 zero)).
  split; [| repeat split].
  cbn [TIMING_SCENARIOS map]. apply bestScenario_keeps_first.
  repeat constructor; rewrite !adjustedSlippage_compareScenario; cbn [delayFactor].
  - change (nadd (numZ 1) zero) with (Fin 1).
    change (nadd (numZ 1) (Fin (5 # 100))) with (Fin (21 # 20)).
    apply scaled_slippage_not_smaller; [exact Hs | lra].
  - change (nadd (numZ 1) zero) with (Fin 1).
    change (nadd (numZ 1) (Fin (10 # 100))) with (Fin (11 # 10)).
    apply scaled_slippage_not_smaller; [exact Hs | lra].
  - change (nadd (numZ 1) zero) with (Fin 1).
    change (nadd (numZ 1) (Fin (25 # 100))) with (Fin (5 # 4)).
    apply scaled_slippage_not_smaller; [exact Hs | lra].
Qed.

Lemma best_scenario_is_the_immediate_one_witness :
  exists best,
    bestScenario (map (compareScenario (marketBuy "5") referenceBook) TIMING_SCENARIOS)
    = Some best
    /\ scenario best = mkScenario "Immediate (Best)" 0 zero
    /\ adjustedAvgFillPrice best = Fin (302 # 3)
    /\ scenarioFilledPercentage best = numZ 60.
Proof.
  apply (best_scenario_is_the_immediate_one (fun _ => referenceBook) (marketBuy "5")).
  reflexivity.
Defined.

Lemma timing_factor_shape (sc : Scenario) :
  In sc TIMING_SCENARIOS -> exists phi, delayFactor sc = Fin phi /\ 0 <= phi.
Proof.
  cbn [TIMING_SCENARIOS In].
  intros [<- | [<- | [<- | [<- | []]]]]; eexists;
    (split; [reflexivity | unfold Qle; cbn; lia]).
Qed.

Lemma nlt_Fin_false (a b : Q) : nlt (Fin a) (Fin b) = false <-> b <= a.
Proof.
  unfold nlt, Qlt_bool. rewrite negb_false_iff. apply Qle_bool_iff.
Qed.

(** X13: on a side of tradable levels, for a finite quantity and when the
    plain simulation gives a finite average fill price and a finite
    slippage, every row of the comparison keeps the filled percentage of the
    plain simulation and has slippage and price impact at least as large; its
    average fill price is at least the plain one for a Buy and at most the
    plain one for a Sell. *)
Theorem delayed_scenarios_never_improve_the_fill
    (p : OrderParams) (book : Book) (q plainAverage plainSlippage : Q) (sc : Scenario) :
  parseFloat (quantity p) = Fin q ->
  Forall tradableLevel (relevantBook p book) ->
  avgFillPrice (calculateMarketImpact p book) = Fin plainAverage ->
  slippage (calculateMarketImpact p book) = Fin plainSlippage ->
  In sc TIMING_SCENARIOS ->
  let base := calculateMarketImpact p book in
  let row := compareScenario p book sc in
  scenarioFilledPercentage row = filledPercentage base
  /\ nle (slippage base) (adjustedSlippage row) = true
  /\ nle (priceImpact base) (adjustedPriceImpact row) = true
  /\ match side p with
     | Buy => nle (avgFillPrice base) (adjustedAvgFillPrice row) = true
     | Sell => nle (adjustedAvgFillPrice row) (avgFillPrice base) = true
     end.
Proof.
  intros Hq Hall _ _ Hsc base row.
  destruct (timing_factor_shape sc Hsc) as (phi & Hphi & Hphi0).
  destruct (tradable_levels_between _ Hall) as (lo & hi & Hlo & Hbetween).
  assert (Hshape : exists a s f i, base = mkImpact (Fin a) (Fin s) (Fin f) (Fin i)
                                   /\ 0 <= a /\ 0 <= s /\ 0 <= i).
  { destruct (impact_shape p book q lo hi Hq Hbetween)
      as [H | (a & s & f & i & best & Hr & _ & _ & Ha1 & _ & _ & _ & Hs & Hi)].
    - exists 0, 0, 0, 0. subst base. rewrite H. split; [reflexivity | lra].
    - exists a, s, f, i. split; [exact Hr |]. split; [lra |]. split.
      + rewrite Hs. pose proof (Qabs_nonneg ((a - best) / best)). lra.
      + rewrite Hi. apply Qabs_nonneg. }
  destruct Hshape as (a & s & f & i & Hbase & Ha & Hs & Hi).
  subst row. unfold compareScenario. fold base. rewrite Hbase, Hphi.
  cbn [avgFillPrice slippage priceImpact filledPercentage scenarioFilledPercentage
       adjustedSlippage adjustedPriceImpact adjustedAvgFillPrice].
  unfold numZ, zero, numZ. change (inject_Z 1) with 1. change (inject_Z 0) with 0.
  change (inject_Z 100) with 100. cbn [nadd nmul nsub].
  split; [reflexivity |].
  split; [apply nle_Fin; rewrite !Qred_correct; nra |].
  split; [apply nle_Fin; rewrite !Qred_correct; nra |].
  destruct (ngt (Fin phi) (Fin 0) && ngt (Fin a) (Fin 0)).
  - unfold ndiv. assert (Qeq_bool 100 0 = false) as -> by reflexivity.
    assert (Hsp : 0 <= s * (1 + phi) - s) by nra.
    assert (Hnum : 0 <= a * (s * (1 + phi) - s)) by (now apply Qmult_le_0_compat).
    assert (Hpc : 0 <= a * (s * (1 + phi) - s) / 100)
      by (apply Qle_shift_div_l; lra).
    destruct (side p); cbn [side_eqb nadd nsub]; apply nle_Fin;
      rewrite !Qred_correct; lra.
  - destruct (side p); apply nle_Fin; lra.
Qed.

Lemma delayed_scenarios_never_improve_the_fill_witness :
  let base := calculateMarketImpact (marketBuy "5") referenceBook in
  let row := compareScenario (marketBuy "5") referenceBook
               (mkScenario "30s Delay" 30000 (Fin (25 # 100))) in
  scenarioFilledPercentage row = filledPercentage base
  /\ nle (slippage base) (adjustedSlippage row) = true
  /\ nle (priceImpact base) (adjustedPriceImpact row) = true
  /\ nle (avgFillPrice base) (adjustedAvgFillPrice row) = true.
Proof.
  apply (delayed_scenarios_never_improve_the_fill (marketBuy "5") referenceBook 5
           (302 # 3) (2 # 3) (mkScenario "30s Delay" 30000 (Fin (25 # 100)))
           eq_refl scenarioAsks_tradable eq_refl eq_refl).
  right. right. right. left. reflexivity.
Defined.

(** ** The tabs of the orders page *)

(** X14: the three tabs of the orders page split the ledger: every order is
    listed in exactly one of Open Orders, Positions and History, so the three
    counts add up to the number of orders. *)
Theorem orders_page_tabs_split_the_ledger (l : Ledger) :
  (forall o : Order,
      (inOpenOrdersTab o = true /\ inPositionsTab o = false /\ inHistoryTab o = false)
      \/ (inOpenOrdersTab o = false /\ inPositionsTab o = true /\ inHistoryTab o = false)
      \/ (inOpenOrdersTab o = false /\ inPositionsTab o = false /\ inHistoryTab o = true))
  /\ (List.length (filter inOpenOrdersTab l) + List.length (filter inPositionsTab l)
      + List.length (filter inHistoryTab l) = List.length l)%nat.
Proof.
  assert (Hone : forall o : Order,
             (inOpenOrdersTab o = true /\ inPositionsTab o = false /\ inHistoryTab o = false)
             \/ (inOpenOrdersTab o = false /\ inPositionsTab o = true /\ inHistoryTab o = false)
             \/ (inOpenOrdersTab o = false /\ inPositionsTab o = false /\ inHistoryTab o = true)).
  { intros o. unfold inOpenOrdersTab, inPositionsTab, inHistoryTab.
    destruct (status o), (pnl o); cbn; tauto. }
  split; [exact Hone |].
  induction l as [| o l IH]; [reflexivity |]. cbn [filter].
  destruct (Hone o) as [(-> & -> & ->) | [(-> & -> & ->) | (-> & -> & ->)]];
    cbn [List.length]; lia.
Qed.

(** X15: an order listed under Positions is an open position for the ledger
    logic; a Filled order whose pnl is 0 or NaN is listed under History and
    is an open position all the same: the evaluation effect keeps processing
    it, and it is what a new fill with the same symbol, side and venue merges
    into. *)
Theorem history_can_hold_an_open_position (o : Order) :
  (inPositionsTab o = true -> isOpenPosition o = true)
  /\ (isOpenPosition o = true -> inPositionsTab o = false ->
      inHistoryTab o = true /\ exists x, pnl o = Some x /\ truthy x = false)
  /\ (forall x, status o = Filled -> pnl o = Some x -> truthy x = false ->
                inHistoryTab o = true /\ needsProcessing o = true
                /\ samePosition (params o) o = true).
Proof.
  unfold inPositionsTab, inHistoryTab, isOpenPosition, needsProcessing, samePosition,
    isOpenPosition.
  split; [| split].
  - destruct (status o), (pnl o); cbn; congruence.
  - destruct (status o), (pnl o) as [x |]; cbn; try congruence.
    intros Hx _. split; [reflexivity |]. exists x. split; [reflexivity |].
    now apply negb_true_iff in Hx.
  - intros x -> -> Hx. cbn. rewrite Hx, String.eqb_refl. cbn.
    destruct (side (params o)), (venue (params o)); repeat split; reflexivity.
Qed.

Lemma history_can_hold_an_open_position_witness :
  let closedAtZero := withExit openLong zero (resultOfImpact zeroImpact 7) in
  inHistoryTab closedAtZero = true /\ needsProcessing closedAtZero = true
  /\ samePosition (params closedAtZero) closedAtZero = true.
Proof.
  apply (proj2 (proj2 (history_can_hold_an_open_position
                         (withExit openLong zero (resultOfImpact zeroImpact 7)))) zero);
    reflexivity.
Defined.

(** ** Raw maps of the book store *)

Lemma Qeq_bool_trans_eq (a b c : Q) :
  Qeq_bool a b = true -> Qeq_bool a c = Qeq_bool b c.
Proof.
  intros H. apply Qeq_bool_iff in H. apply eq_true_iff_eq.
  rewrite !Qeq_bool_iff. now rewrite H.
Qed.

(** Keys equal to one key are equal or different together to any other. *)
Lemma key_eqb_trans_eq (a b c : value) :
  key_eqb a b = true -> key_eqb a c = key_eqb b c.
Proof.
  destruct a as [| s | [| | | x]], b as [| t | [| | | y]];
    cbn [key_eqb nseq]; try discriminate; intros H;
    try (apply String.eqb_eq in H; subst t); try reflexivity.
  destruct c as [| u | [| | | z]]; cbn [key_eqb nseq]; try reflexivity.
  now apply Qeq_bool_trans_eq.
Qed.

Lemma mapGet_mapSet_other (p k s : value) (m : JsMap) :
  key_eqb p k = false -> mapGet k (mapSet p s m) = mapGet k m.
Proof.
  intros Hpk. induction m as [| [k' v'] m IH]; cbn [mapSet mapGet].
  - now rewrite Hpk.
  - destruct (key_eqb k' p) eqn:E; cbn [mapGet].
    + rewrite (key_eqb_trans_eq k' p k E), Hpk. reflexivity.
    + now rewrite IH.
Qed.

Lemma mapGet_mapDelete_other (p k : value) (m : JsMap) :
  key_eqb p k = false -> mapGet k (mapDelete p m) = mapGet k m.
Proof.
  intros Hpk. unfold mapDelete. induction m as [| [k' v'] m IH]; [reflexivity |].
  cbn [filter fst mapGet]. destruct (key_eqb k' p) eqn:E; cbn [negb mapGet].
  - rewrite (key_eqb_trans_eq k' p k E), Hpk. exact IH.
  - now rewrite IH.
Qed.

Lemma mapSet_Forall_key (P : value -> Prop) (k v : value) (m : JsMap) :
  Forall (fun e => P (fst e)) m -> P k -> Forall (fun e => P (fst e)) (mapSet k v m).
Proof.
  intros Hm Hk. induction Hm as [| [k' v'] m Hh Hm IH]; cbn [mapSet].
  - constructor; [exact Hk | constructor].
  - destruct (key_eqb k' k); constructor; assumption.
Qed.

Lemma mapSet_uniqueKeys (k v : value) (m : JsMap) :
  uniqueKeys m -> uniqueKeys (mapSet k v m).
Proof.
  unfold uniqueKeys. induction 1 as [| [k' v'] m Hh Hm IH]; cbn [mapSet].
  - constructor; constructor.
  - destruct (key_eqb k' k) eqn:E.
    + constructor; assumption.
    + constructor; [| exact IH].
      apply (mapSet_Forall_key (fun x => key_eqb k' x = false)); assumption.
Qed.

Lemma mapDelete_uniqueKeys (k : value) (m : JsMap) :
  uniqueKeys m -> uniqueKeys (mapDelete k m).
Proof. apply ForallOrdPairs_filter. Qed.

Lemma fold_uniqueKeys {A : Type} (step : JsMap -> A -> JsMap) (xs : list A) (m : JsMap) :
  (forall m' x, uniqueKeys m' -> uniqueKeys (step m' x)) ->
  uniqueKeys m -> uniqueKeys (fold_left step xs m).
Proof.
  intros Hstep. revert m. induction xs as [| x xs IH]; intros m Hm; [exact Hm |].
  cbn [fold_left]. apply IH. now apply Hstep.
Qed.

Lemma applyFeedMessage_uniqueKeys (ref : BookRef) (msg : FeedMessage) :
  uniqueKeys (bidsMap ref) /\ uniqueKeys (asksMap ref) ->
  uniqueKeys (bidsMap (applyFeedMessage ref msg))
  /\ uniqueKeys (asksMap (applyFeedMessage ref msg)).
Proof.
  intros [Hb Ha].
  assert (Hset : forall m' (e : value * value),
             uniqueKeys m' -> uniqueKeys (mapSet (fst e) (snd e) m'))
    by (intros; now apply mapSet_uniqueKeys).
  assert (Hdelta : forall m' e, uniqueKeys m' -> uniqueKeys (applyDeltaEntry m' e)).
  { intros m' e Hm'. unfold applyDeltaEntry.
    destruct (nseq _ zero); [now apply mapDelete_uniqueKeys | now apply mapSet_uniqueKeys]. }
  assert (Hupd : forall m' d, uniqueKeys m' -> uniqueKeys (updateBookEntry m' d)).
  { intros m' d Hm'. unfold updateBookEntry.
    destruct (negb _); [exact Hm' |].
    destruct (_ || _); [now apply mapDelete_uniqueKeys | now apply mapSet_uniqueKeys]. }
  assert (Hfirst : forall m' d, uniqueKeys m' -> uniqueKeys (setFirstTwo m' d))
    by (intros; now apply mapSet_uniqueKeys).
  assert (Hnil : uniqueKeys []) by constructor.
  destruct msg as [m | m]; cbn [applyFeedMessage].
  - unfold applyMessage, newMap, applyDelta.
    destruct (isSnapshot m); cbn [bidsMap asksMap]; split; now apply fold_uniqueKeys.
  - unfold applyDeribitMessage, updateBook.
    destruct (deribitIsSnapshot m); cbn [bidsMap asksMap]; split; now apply fold_uniqueKeys.
Qed.

Lemma mapGet_of_entry (m : JsMap) (e : value * value) :
  uniqueKeys m -> In e m -> mapGet (fst e) m = Some (snd e).
Proof.
  unfold uniqueKeys. induction 1 as [| [k' v'] m Hh Hm IH]; [contradiction |].
  intros [<- | Hin]; cbn [mapGet fst snd].
  - now rewrite key_eqb_refl.
  - rewrite Forall_forall in Hh. pose proof (Hh e Hin) as Hk.
    cbn [fst] in Hk. rewrite Hk. now apply IH.
Qed.

(** X16: through every snapshot and delta, of either message shape, a raw
    map whose keys are distinct keeps distinct keys, so each stored entry is
    the one a lookup of its key returns. *)
Theorem raw_maps_keep_distinct_keys (ref : BookRef) (msgs : list FeedMessage) :
  uniqueKeys (bidsMap ref) -> uniqueKeys (asksMap ref) ->
  let raw := rawBookAfter ref msgs in
  uniqueKeys (bidsMap raw) /\ uniqueKeys (asksMap raw)
  /\ (forall e, In e (bidsMap raw) -> mapGet (fst e) (bidsMap raw) = Some (snd e))
  /\ (forall e, In e (asksMap raw) -> mapGet (fst e) (asksMap raw) = Some (snd e)).
Proof.
  intros Hb Ha raw.
  assert (H : uniqueKeys (bidsMap raw) /\ uniqueKeys (asksMap raw)).
  { subst raw. unfold rawBookAfter. revert ref Hb Ha.
    induction msgs as [| msg msgs IH]; intros ref Hb Ha; [now split |].
    cbn [fold_left].
    destruct (applyFeedMessage_uniqueKeys ref msg (conj Hb Ha)) as [Hb' Ha'].
    now apply IH. }
  destruct H as [H1 H2]. repeat split; try assumption; intros e He;
    now apply mapGet_of_entry.
Qed.

Lemma raw_maps_keep_distinct_keys_witness :
  uniqueKeys (bidsMap (rawBookAfter emptyBookRef [Pairs looseSnapshot]))
  /\ uniqueKeys (asksMap (rawBookAfter emptyBookRef [Pairs looseSnapshot])).
Proof.
  destruct (raw_maps_keep_distinct_keys emptyBookRef [Pairs looseSnapshot])
    as (H1 & H2 & _); [constructor | constructor |].
  split; assumption.
Defined.

Lemma Qeq_bool_sym_eq (a b : Q) : Qeq_bool a b = Qeq_bool b a.
Proof.
  apply eq_true_iff_eq. rewrite !Qeq_bool_iff. split; intros H; now symmetry.
Qed.

Lemma key_eqb_sym (a b : value) : key_eqb a b = key_eqb b a.
Proof.
  destruct a as [| s | [| | | x]], b as [| t | [| | | y]];
    cbn [key_eqb nseq]; try reflexivity.
  - apply String.eqb_sym.
  - apply Qeq_bool_sym_eq.
Qed.

Lemma mapGet_mapSet_same (p k s : value) (m : JsMap) :
  key_eqb p k = true -> mapGet k (mapSet p s m) = Some s.
Proof.
  intros Hpk. induction m as [| [k' v'] m IH]; cbn [mapSet mapGet].
  - now rewrite Hpk.
  - destruct (key_eqb k' p) eqn:E; cbn [mapGet].
    + rewrite (key_eqb_trans_eq k' p k E), Hpk. reflexivity.
    + rewrite key_eqb_sym in E. rewrite key_eqb_sym.
      rewrite <- (key_eqb_trans_eq p k k' Hpk), E. exact IH.
Qed.

Lemma mapGet_mapDelete_same (p k : value) (m : JsMap) :
  key_eqb p k = true -> mapGet k (mapDelete p m) = None.
Proof.
  intros Hpk. unfold mapDelete. induction m as [| [k' v'] m IH]; [reflexivity |].
  cbn [filter fst]. destruct (key_eqb k' p) eqn:E; cbn [negb]; [exact IH |].
  cbn [mapGet]. rewrite key_eqb_sym in E. rewrite key_eqb_sym.
  rewrite <- (key_eqb_trans_eq p k k' Hpk), E. exact IH.
Qed.

Lemma lastValue_snoc (k : value) (entries : list (value * value)) (e : value * value) :
  lastValue k (entries ++ [e])
  = if key_eqb (fst e) k then Some (snd e) else lastValue k entries.
Proof. unfold lastValue. now rewrite fold_left_app. Qed.

Lemma mapGet_newMap (k : value) (entries : list (value * value)) :
  mapGet k (newMap entries) = lastValue k entries.
Proof.
  induction entries as [| e entries IH] using rev_ind; [reflexivity |].
  rewrite lastValue_snoc. unfold newMap in *. rewrite fold_left_app.
  cbn [fold_left]. destruct (key_eqb (fst e) k) eqn:E.
  - now apply mapGet_mapSet_same.
  - rewrite mapGet_mapSet_other by exact E. exact IH.
Qed.

(** X17: a snapshot replaces the raw book whatever it held: afterwards a
    price key is found exactly when the snapshot lists it, and under the size
    of its last listing. *)
Theorem snapshot_replaces_the_raw_book (ref : BookRef) (msg : BookMessage) (k : value) :
  isSnapshot msg = true ->
  mapGet k (bidsMap (applyFeedMessage ref (Pairs msg))) = lastValue k (bidsDelta msg)
  /\ mapGet k (asksMap (applyFeedMessage ref (Pairs msg))) = lastValue k (asksDelta msg).
Proof.
  intros Hs. cbn [applyFeedMessage]. unfold applyMessage. rewrite Hs.
  cbn [bidsMap asksMap]. split; apply mapGet_newMap.
Qed.

Lemma snapshot_replaces_the_raw_book_witness :
  mapGet (VStr "100") (bidsMap (applyFeedMessage tidyRef (Pairs looseSnapshot)))
  = lastValue (VStr "100") (bidsDelta looseSnapshot)
  /\ mapGet (VStr "100") (asksMap (applyFeedMessage tidyRef (Pairs looseSnapshot)))
     = lastValue (VStr "100") (asksDelta looseSnapshot).
Proof.
  apply (snapshot_replaces_the_raw_book tidyRef looseSnapshot (VStr "100")).
  reflexivity.
Defined.

Lemma mapGet_applyDeltaEntry (k : value) (m : JsMap) (e : value * value) :
  mapGet k (applyDeltaEntry m e)
  = if key_eqb (fst e) k
    then (if nseq (parseFloat (snd e)) zero then None else Some (snd e))
    else mapGet k m.
Proof.
  unfold applyDeltaEntry. destruct (key_eqb (fst e) k) eqn:E.
  - destruct (nseq (parseFloat (snd e)) zero).
    + now apply mapGet_mapDelete_same.
    + now apply mapGet_mapSet_same.
  - destruct (nseq (parseFloat (snd e)) zero).
    + now apply mapGet_mapDelete_other.
    + now apply mapGet_mapSet_other.
Qed.

(** X18: after a delta, a price key the delta does not list keeps its size;
    a key it lists is gone when the size of its last listing parses to zero,
    and otherwise holds that size as received. *)
Theorem delta_touches_only_listed_keys (entries : list (value * value)) (m : JsMap)
    (k : value) :
  mapGet k (applyDelta entries m)
  = match lastValue k entries with
    | None => mapGet k m
    | Some s => if nseq (parseFloat s) zero then None else Some s
    end.
Proof.
  induction entries as [| e entries IH] using rev_ind; [reflexivity |].
  rewrite lastValue_snoc. unfold applyDelta in *. rewrite fold_left_app.
  cbn [fold_left]. rewrite mapGet_applyDeltaEntry.
  destruct (key_eqb (fst e) k); [reflexivity | exact IH].
Qed.

Lemma mapGet_applyDelta (entries : list (value * value)) (m : JsMap) (k : value) :
  mapGet k (applyDelta entries m)
  = match lastValue k entries with
    | None => mapGet k m
    | Some s => if nseq (parseFloat s) zero then None else Some s
    end.
Proof.
  induction entries as [| e entries IH] using rev_ind; [reflexivity |].
  rewrite lastValue_snoc. unfold applyDelta in *. rewrite fold_left_app.
  cbn [fold_left]. rewrite mapGet_applyDeltaEntry.
  destruct (key_eqb (fst e) k); [reflexivity | exact IH].
Qed.

Lemma mapGet_updateBookEntry (k : value) (m : JsMap) (d : list value) :
  mapGet k (updateBookEntry m d)
  = if Nat.eqb (List.length d) 3 && key_eqb (element 1 d) k
    then (if strictEq (element 0 d) (VStr "delete") || strictEq (element 2 d) (VNum zero)
          then None else Some (element 2 d))
    else mapGet k m.
Proof.
  unfold updateBookEntry. destruct (Nat.eqb (List.length d) 3); cbn [negb andb];
    [| reflexivity].
  destruct (key_eqb (element 1 d) k) eqn:E;
    destruct (strictEq (element 0 d) (VStr "delete")
              || strictEq (element 2 d) (VNum zero)).
  - now apply mapGet_mapDelete_same.
  - now apply mapGet_mapSet_same.
  - now apply mapGet_mapDelete_other.
  - now apply mapGet_mapSet_other.
Qed.

Lemma lastChange_snoc (k : value) (deltas : list (list value)) (d : list value) :
  lastChange k (deltas ++ [d])
  = if Nat.eqb (List.length d) 3 && key_eqb (element 1 d) k
    then Some (element 0 d, element 2 d) else lastChange k deltas.
Proof. unfold lastChange. now rewrite fold_left_app. Qed.

Lemma mapGet_updateBook (deltas : list (list value)) (m : JsMap) (k : value) :
  mapGet k (updateBook deltas m)
  = match lastChange k deltas with
    | None => mapGet k m
    | Some (t, s) =>
        if strictEq t (VStr "delete") || strictEq s (VNum zero) then None else Some s
    end.
Proof.
  induction deltas as [| d deltas IH] using rev_ind; [reflexivity |].
  rewrite lastChange_snoc. unfold updateBook in *. rewrite fold_left_app.
  cbn [fold_left]. rewrite mapGet_updateBookEntry.
  destruct (Nat.eqb (List.length d) 3 && key_eqb (element 1 d) k);
    [reflexivity | exact IH].
Qed.

(** C4 (amended): after every snapshot and delta application the book handed
    to consumers has its bids in descending and its asks in ascending price
    order; the order is strict, with no price repeated on a side, when the
    raw prices of that side parse to pairwise different numbers.  What a
    message leaves stored under a price key, on either side: after a delta
    of the [[price, size]] shape, nothing when the size of the key's last
    entry parses to zero, that size as received when it does not, and what
    was stored before when the delta has no entry for the key; after a
    snapshot of that shape, the size of the key's last entry as received,
    whatever it is, and nothing when the snapshot has no entry for the key;
    after a delta of the [[type, price, size]] shape, nothing when the key's
    last entry of three elements has type "delete" or size 0, the size of
    that entry as received otherwise, and what was stored before when there
    is no such entry. *)
Theorem C4_book_sorted_after_every_message (ref : BookRef) (msgs : list FeedMessage) :
  StronglySorted descending (bids (bookAfter ref msgs))
  /\ StronglySorted ascending (asks (bookAfter ref msgs))
  /\ (ForallOrdPairs differentPrices (bidsMap (rawBookAfter ref msgs)) ->
      StronglySorted strictlyDescending (bids (bookAfter ref msgs)))
  /\ (ForallOrdPairs differentPrices (asksMap (rawBookAfter ref msgs)) ->
      StronglySorted strictlyAscending (asks (bookAfter ref msgs)))
  /\ (forall (msg : BookMessage) (k : value),
         isSnapshot msg = false ->
         let stored (entries : list (value * value)) (before : JsMap) :=
           match lastValue k entries with
           | None => mapGet k before
           | Some s => if nseq (parseFloat s) zero then None else Some s
           end in
         let raw := rawBookAfter ref msgs in
         let after := rawBookAfter ref (msgs ++ [Pairs msg]) in
         mapGet k (bidsMap after) = stored (bidsDelta msg) (bidsMap raw)
         /\ mapGet k (asksMap after) = stored (asksDelta msg) (asksMap raw))
  /\ (forall (msg : BookMessage) (k : value),
         isSnapshot msg = true ->
         let after := rawBookAfter ref (msgs ++ [Pairs msg]) in
         mapGet k (bidsMap after) = lastValue k (bidsDelta msg)
         /\ mapGet k (asksMap after) = lastValue k (asksDelta msg))
  /\ (forall (msg : DeribitMessage) (k : value),
         deribitIsSnapshot msg = false ->
         let stored (deltas : list (list value)) (before : JsMap) :=
           match lastChange k deltas with
           | None => mapGet k before
           | Some (t, s) =>
               if strictEq t (VStr "delete") || strictEq s (VNum zero)
               then None else Some s
           end in
         let raw := rawBookAfter ref msgs in
         let after := rawBookAfter ref (msgs ++ [Triples msg]) in
         mapGet k (bidsMap after) = stored (deribitBids msg) (bidsMap raw)
         /\ mapGet k (asksMap after) = stored (deribitAsks msg) (asksMap raw)).
Proof.
  unfold bookAfter.
  destruct (updateUI_sorted (rawBookAfter ref msgs)) as [Hb Ha].
  destruct (updateUI_strict (rawBookAfter ref msgs)) as [Hsb Hsa].
  repeat (split; [assumption |]).
  assert (Hlast : forall m, rawBookAfter ref (msgs ++ [m])
                            = applyFeedMessage (rawBookAfter ref msgs) m).
  { intros m. unfold rawBookAfter. now rewrite fold_left_app. }
  split; [| split].
  - intros msg k Hs. cbv zeta. rewrite Hlast.
    cbn [applyFeedMessage]. unfold applyMessage. rewrite Hs.
    cbn [bidsMap asksMap]. split; apply mapGet_applyDelta.
  - intros msg k Hs. cbv zeta. rewrite Hlast.
    cbn [applyFeedMessage]. unfold applyMessage. rewrite Hs.
    cbn [bidsMap asksMap]. split; apply mapGet_newMap.
  - intros msg k Hs. cbv zeta. rewrite Hlast.
    cbn [applyFeedMessage]. unfold applyDeribitMessage. rewrite Hs.
    cbn [bidsMap asksMap]. split; apply mapGet_updateBook.
Qed.

Lemma C4_book_sorted_after_every_message_witness :
  let msgs := [Pairs tidySnapshot; Pairs tidyDelta] in
  (ForallOrdPairs differentPrices (bidsMap (rawBookAfter emptyBookRef msgs))
   /\ StronglySorted strictlyDescending (bids (bookAfter emptyBookRef msgs))
   /\ bids (bookAfter emptyBookRef msgs)
      = [mkLevel (Fin (199 # 2)) (numZ 3); mkLevel (numZ 99) (numZ 4)]
   /\ asks (bookAfter emptyBookRef msgs)
      = [mkLevel (numZ 101) (numZ 2); mkLevel (numZ 102) (numZ 1)])
  /\ (isSnapshot tidyDelta = false
      /\ mapGet (VStr "100") (bidsMap (rawBookAfter emptyBookRef [Pairs tidySnapshot]))
         = Some (VStr "1")
      /\ mapGet (VStr "100") (bidsMap (rawBookAfter emptyBookRef msgs)) = None
      /\ mapGet (VStr "99") (bidsMap (rawBookAfter emptyBookRef msgs)) = Some (VStr "4")
      /\ mapGet (VStr "99.5") (bidsMap (rawBookAfter emptyBookRef msgs)) = Some (VStr "3")).
Proof.
  intros msgs.
  assert (Hd : ForallOrdPairs differentPrices (bidsMap (rawBookAfter emptyBookRef msgs))).
  { repeat constructor. }
  split.
  - split; [exact Hd | split; [| split; reflexivity]].
    exact (proj1 (proj2 (proj2 (C4_book_sorted_after_every_message emptyBookRef msgs))) Hd).
  - pose proof (proj1 (proj2 (proj2 (proj2 (proj2
                  (C4_book_sorted_after_every_message emptyBookRef [Pairs tidySnapshot])))))
                  tidyDelta) as Hdelta.
    split; [reflexivity | split; [reflexivity |]].
    split; [| split].
    + exact (proj1 (Hdelta (VStr "100") eq_refl)).
    + exact (proj1 (Hdelta (VStr "99") eq_refl)).
    + exact (proj1 (Hdelta (VStr "99.5") eq_refl)).
Defined.

(** ** What [updateUI] exposes *)

Lemma insertBy_Permutation (cmp : Level -> Level -> number) (x : Level) (l : list Level) :
  Permutation (x :: l) (insertBy cmp x l).
Proof.
  induction l as [| y l IH]; cbn [insertBy]; [reflexivity |].
  destruct (ngt (cmp x y) zero); [| reflexivity].
  rewrite perm_swap. now apply perm_skip.
Qed.

Lemma sortBy_Permutation (cmp : Level -> Level -> number) (l : list Level) :
  Permutation l (sortBy cmp l).
Proof.
  induction l as [| x l IH]; [reflexivity |].
  change (sortBy cmp (x :: l)) with (insertBy cmp x (sortBy cmp l)).
  rewrite <- insertBy_Permutation. now apply perm_skip.
Qed.

Lemma filter_length_le {A : Type} (f : A -> bool) (l : list A) :
  (List.length (filter f l) <= List.length l)%nat.
Proof.
  induction l as [| x l IH]; cbn [filter List.length]; [lia |].
  destruct (f x); cbn [List.length]; lia.
Qed.

(** X19: each exposed side is a rearrangement of the raw entries that parse
    to numbers: no level is lost, none is repeated, and a side never has more
    levels than its raw map has entries. *)
Theorem exposed_side_rearranges_numeric_entries (ref : BookRef) :
  Permutation (filter isNumericLevel (map parseEntry (bidsMap ref))) (bids (updateUI ref))
  /\ Permutation (filter isNumericLevel (map parseEntry (asksMap ref))) (asks (updateUI ref))
  /\ (List.length (bids (updateUI ref)) <= List.length (bidsMap ref))%nat
  /\ (List.length (asks (updateUI ref)) <= List.length (asksMap ref))%nat.
Proof.
  cbn [updateUI bids asks].
  assert (Hlen : forall cmp (m : JsMap),
             (List.length (sortBy cmp (filter isNumericLevel (map parseEntry m)))
              <= List.length m)%nat).
  { intros cmp m.
    rewrite <- (Permutation_length (sortBy_Permutation cmp _)).
    rewrite <- (length_map parseEntry m). apply filter_length_le. }
  repeat split; try apply sortBy_Permutation; apply Hlen.
Qed.

Lemma fold_setFirstTwo_keys (P : value -> Prop) (entries : list (list value)) (m : JsMap) :
  Forall (fun d => P (element 0 d)) entries ->
  Forall (fun e => P (fst e)) m ->
  Forall (fun e => P (fst e)) (fold_left setFirstTwo entries m).
Proof.
  intros He. revert m. induction He as [| d entries Hd He IH]; intros m Hm; [exact Hm |].
  cbn [fold_left]. apply IH. unfold setFirstTwo. now apply mapSet_Forall_key.
Qed.

Lemma no_numeric_key_no_level (cmp : Level -> Level -> number) (m : JsMap) :
  Forall (fun e => isNaN (parseFloat (fst e)) = true) m ->
  sortBy cmp (filter isNumericLevel (map parseEntry m)) = [].
Proof.
  intros Hm.
  assert (H : filter isNumericLevel (map parseEntry m) = []).
  { induction Hm as [| e m He Hm IH]; [reflexivity |].
    cbn [map filter]. unfold isNumericLevel at 1, parseEntry at 1.
    cbn [price size]. rewrite He. cbn [negb andb]. exact IH. }
  now rewrite H.
Qed.

(** X20: a snapshot of the three-element shape is keyed by the first element
    of each entry, with the second as its size.  When the first elements do
    not parse to numbers (a change tag such as "new" before the price), the
    book exposed after the snapshot has no level on either side. *)
Theorem tagged_snapshot_exposes_no_level (ref : BookRef) (msg : DeribitMessage) :
  deribitIsSnapshot msg = true ->
  Forall (fun d => isNaN (parseFloat (element 0 d)) = true) (deribitBids msg) ->
  Forall (fun d => isNaN (parseFloat (element 0 d)) = true) (deribitAsks msg) ->
  bookAfter ref [Triples msg] = mkBook [] [].
Proof.
  intros Hs Hb Ha. unfold bookAfter, rawBookAfter. cbn [fold_left applyFeedMessage].
  unfold applyDeribitMessage. rewrite Hs. unfold updateUI. cbn [bidsMap asksMap].
  rewrite !no_numeric_key_no_level; [reflexivity | |];
    apply (fold_setFirstTwo_keys (fun k => isNaN (parseFloat k) = true));
    try assumption; constructor.
Qed.

Lemma tagged_snapshot_exposes_no_level_witness :
  bookAfter tidyRef [Triples taggedSnapshot] = mkBook [] [].
Proof.
  apply (tagged_snapshot_exposes_no_level tidyRef taggedSnapshot).
  - reflexivity.
  - repeat constructor.
  - repeat constructor.
Defined.

(** ** Price history *)

Lemma StronglySorted_snoc {A : Type} (R : A -> A -> Prop) (l : list A) (x : A) :
  StronglySorted R l -> Forall (fun y => R y x) l -> StronglySorted R (l ++ [x]).
Proof.
  induction 1 as [| a l Hs IH Ha]; intros Hx; cbn [app].
  - constructor; constructor.
  - inversion Hx as [| ? ? Hax Hx']; subst. constructor; [now apply IH |].
    apply Forall_app. split; [assumption | constructor; [assumption | constructor]].
Qed.

Lemma StronglySorted_skipn {A : Type} (R : A -> A -> Prop) (n : nat) (l : list A) :
  StronglySorted R l -> StronglySorted R (skipn n l).
Proof.
  revert l. induction n as [| n IH]; intros l Hs; [exact Hs |].
  destruct l as [| a l]; [exact Hs |]. cbn [skipn]. apply IH.
  now inversion Hs.
Qed.

Lemma Forall_skipn {A : Type} (P : A -> Prop) (n : nat) (l : list A) :
  Forall P l -> Forall P (skipn n l).
Proof.
  revert l. induction n as [| n IH]; intros l Hl; [exact Hl |].
  destruct l as [| a l]; [exact Hl |]. cbn [skipn]. apply IH.
  now inversion Hl.
Qed.

Lemma lastN_length {A : Type} (n : nat) (l : list A) :
  (List.length (lastN n l) <= n)%nat.
Proof. unfold lastN. rewrite length_skipn. lia. Qed.

Lemma recordPrice_history (now : Z) (exchange : Venue) (book : Book)
    (st : list PricePoint * Z) :
  (List.length (fst st) <= 100)%nat
  /\ StronglySorted wellSpaced (fst st)
  /\ Forall (fun p => (pointTime p <= snd st)%Z) (fst st) ->
  let st' := recordPrice now exchange book st in
  (List.length (fst st') <= 100)%nat
  /\ StronglySorted wellSpaced (fst st')
  /\ Forall (fun p => (pointTime p <= snd st')%Z) (fst st').
Proof.
  intros (Hlen & Hs & Hle) st'. subst st'. unfold recordPrice.
  destruct (bids book) as [| b ?]; [now repeat split |].
  destruct (asks book) as [| a ?]; [now repeat split |].
  destruct (750 <? now - snd st)%Z eqn:E; [| now repeat split].
  apply Z.ltb_lt in E. cbn [fst snd]. split; [apply lastN_length |].
  split; unfold lastN.
  - apply StronglySorted_skipn, StronglySorted_snoc; [assumption |].
    eapply Forall_impl; [| exact Hle]. intros p Hp.
    cbn beta in Hp. unfold wellSpaced. cbn [pointTime]. lia.
  - apply Forall_skipn, Forall_app. split.
    + eapply Forall_impl; [| exact Hle]. intros p Hp. cbn beta in Hp. lia.
    + constructor; [cbn [pointTime]; lia | constructor].
Qed.

(** X21: whatever book updates arrive, and at whatever clock readings, the
    price history never holds more than 100 points, any two of its points
    are more than 750 ms apart with the later one later in the list, and no
    point is later than the last recorded update time. *)
Theorem price_history_is_capped_and_spaced (updates : list BookUpdate) (t0 : Z) :
  let st := recordPrices updates ([], t0) in
  (List.length (fst st) <= 100)%nat
  /\ StronglySorted wellSpaced (fst st)
  /\ Forall (fun p => (pointTime p <= snd st)%Z) (fst st).
Proof.
  intros st. subst st. unfold recordPrices.
  assert (H0 : (List.length (fst ([] : list PricePoint, t0)) <= 100)%nat
               /\ StronglySorted wellSpaced (fst ([] : list PricePoint, t0))
               /\ Forall (fun p => (pointTime p <= snd ([] : list PricePoint, t0))%Z)
                    (fst ([] : list PricePoint, t0))).
  { cbn [fst snd List.length]. repeat split; [lia | constructor | constructor]. }
  revert H0. generalize ([] : list PricePoint, t0).
  induction updates as [| u updates IH]; intros st H; [exact H |].
  cbn [fold_left]. apply IH. now apply recordPrice_history.
Qed.

(** ** Order imbalance *)

Lemma fold_sizes_shape (levels : list Level) (a : Q) :
  Forall sizeNotNegative levels -> 0 <= a ->
  exists t, fold_left (fun s l => nadd s (size l)) levels (Fin a) = Fin t
            /\ a <= t /\ (t == a -> Forall sizeIsZero levels).
Proof.
  intros Hall. revert a. induction Hall as [| l levels [z [Hz Hnn]] _ IH]; intros a Ha.
  - exists a. repeat split; [lra | constructor].
  - cbn [fold_left]. rewrite Hz. cbn [nadd].
    destruct (IH (Qred (a + z))) as (t & Ht & Hle & Hzero).
    { rewrite Qred_correct. lra. }
    exists t. rewrite Qred_correct in Hle. repeat split; [exact Ht | lra |].
    intros Heq. constructor.
    + unfold sizeIsZero. rewrite Hz. unfold nseq, zero, numZ.
      change (inject_Z 0) with 0. apply Qeq_bool_iff. lra.
    + apply Hzero. rewrite Qred_correct. lra.
Qed.

Lemma totalSize_shape (levels : list Level) :
  Forall sizeNotNegative levels ->
  exists t, totalSize levels = Fin t /\ 0 <= t /\ (t == 0 -> Forall sizeIsZero levels).
Proof.
  intros Hall. unfold totalSize, zero, numZ. change (inject_Z 0) with 0.
  apply fold_sizes_shape; [exact Hall | lra].
Qed.

(** X23: on a book whose sizes are finite and not negative, the imbalance
    figure is missing only when there is no bid or when every size on both
    sides is zero; when it is there, the two totals are not negative and,
    when both are finite, the ratio is a number from 0 to 1. *)
Theorem imbalance_ratio_is_a_share (currentBook : Book) :
  Forall sizeNotNegative (bids currentBook) ->
  Forall sizeNotNegative (asks currentBook) ->
  match imbalanceData currentBook with
  | None =>
      bids currentBook = []
      \/ (Forall sizeIsZero (bids currentBook) /\ Forall sizeIsZero (asks currentBook))
  | Some i =>
      nle zero (totalBidSize i) = true /\ nle zero (totalAskSize i) = true
      /\ (forall tb ta : Q,
             totalBidSize i = Fin tb -> totalAskSize i = Fin ta ->
             nle zero (ratio i) = true /\ nle (ratio i) (numZ 1) = true)
  end.
Proof.
  intros Hb Ha. unfold imbalanceData.
  destruct (totalSize_shape _ Hb) as (tb & Htb & Hb0 & Hbz).
  destruct (totalSize_shape _ Ha) as (ta & Hta & Ha0 & Haz).
  destruct (bids currentBook) as [| b0 bs] eqn:Eb; [now left |].
  rewrite Htb, Hta. cbn [nadd]. unfold nseq, zero, numZ.
  change (inject_Z 0) with 0. change (inject_Z 1) with 1.
  destruct (Qeq_bool (Qred (tb + ta)) 0) eqn:E.
  - apply Qeq_bool_iff in E. rewrite Qred_correct in E. right.
    split; [apply Hbz | apply Haz]; lra.
  - assert (Hpos : 0 < tb + ta).
    { destruct (Qlt_le_dec 0 (tb + ta)) as [H | H]; [exact H |].
      assert (Hz : Qred (tb + ta) == 0) by (rewrite Qred_correct; lra).
      apply Qeq_bool_iff in Hz. congruence. }
    cbn [ratio totalBidSize totalAskSize]. unfold ndiv. rewrite E.
    rewrite !nle_Fin. split; [exact Hb0 | split; [exact Ha0 |]].
    intros tb' ta' _ _. rewrite !nle_Fin, !Qred_correct. split.
    + apply Qle_shift_div_l; [exact Hpos | lra].
    + apply Qle_shift_div_r; [exact Hpos | lra].
Qed.

Lemma imbalance_ratio_is_a_share_witness :
  exists i,
    imbalanceData referenceBook = Some i
    /\ totalBidSize i = numZ 1 /\ totalAskSize i = numZ 3
    /\ nle zero (ratio i) = true /\ nle (ratio i) (numZ 1) = true.
Proof.
  assert (Hb : Forall sizeNotNegative (bids referenceBook)).
  { repeat constructor. exists 1. split; [reflexivity | discriminate]. }
  assert (Ha : Forall sizeNotNegative (asks referenceBook)).
  { repeat constructor.
    - exists 1. split; [reflexivity | discriminate].
    - exists 2. split; [reflexivity | discriminate]. }
  pose proof (imbalance_ratio_is_a_share referenceBook Hb Ha) as H.
  destruct (imbalanceData referenceBook) as [i |] eqn:E; [| discriminate E].
  exists i. split; [reflexivity |].
  injection E as <-. cbn [totalBidSize totalAskSize] in *.
  split; [reflexivity | split; [reflexivity |]].
  exact (proj2 (proj2 H) 1 3 eq_refl eq_refl).
Defined.

(** ** The slippage warning *)

(** The threshold is the binary64 value of the literal. *)
Remark slippage_threshold_in_binary64 :
  Prim2SF 0x1.47ae147ae147bp-7%float = S754_finite false 5764607523034235 (-59)
  /\ SLIPPAGE_THRESHOLD = Fin (5764607523034235 # 2 ^ 59).
Proof. split; vm_compute; reflexivity. Qed.



(** ** Depth chart *)

Lemma StronglySorted_firstn {A : Type} (R : A -> A -> Prop) (n : nat) (l : list A) :
  StronglySorted R l -> StronglySorted R (firstn n l).
Proof.
  revert l. induction n as [| n IH]; intros l Hs; [constructor |].
  destruct l as [| a l]; [constructor |]. cbn [firstn].
  inversion Hs as [| ? ? Hs' Ha]; subst. constructor; [now apply IH |].
  rewrite Forall_forall in *. intros b Hb. apply Ha.
  rewrite <- (firstn_skipn n l). apply in_or_app. now left.
Qed.

Lemma Forall_firstn {A : Type} (P : A -> Prop) (n : nat) (l : list A) :
  Forall P l -> Forall P (firstn n l).
Proof.
  intros H. rewrite Forall_forall in *. intros b Hb. apply H.
  rewrite <- (firstn_skipn n l). apply in_or_app. now left.
Qed.

Lemma StronglySorted_rev {A : Type} (R : A -> A -> Prop) (l : list A) :
  StronglySorted R l -> StronglySorted (fun a b => R b a) (rev l).
Proof.
  induction 1 as [| a l Hs IH Ha]; [constructor |].
  cbn [rev]. apply StronglySorted_snoc; [exact IH |].
  apply Forall_rev. exact Ha.
Qed.

Lemma accumulate_length (c : number) (levels : list Level) :
  List.length (accumulate c levels) = List.length levels.
Proof.
  revert c. induction levels as [| l levels IH]; intros c; [reflexivity |].
  cbn [accumulate List.length]. now rewrite IH.
Qed.

Lemma accumulate_from (levels : list Level) (c : Q) :
  Forall sizeNotNegative levels -> 0 <= c ->
  Forall (fun pt => exists l t, In l levels /\ chartX pt = price l
                                /\ chartY pt = Fin t /\ c <= t)
         (accumulate (Fin c) levels).
Proof.
  intros Hall. revert c. induction Hall as [| l levels [z [Hz Hnn]] _ IH]; intros c Hc.
  - constructor.
  - cbn [accumulate]. rewrite Hz. cbn [nadd]. constructor.
    + exists l, (Qred (c + z)). cbn [chartX chartY In].
      repeat split; [now left | rewrite Qred_correct; lra].
    + assert (Hc' : 0 <= Qred (c + z)) by (rewrite Qred_correct; lra).
      eapply Forall_impl; [| exact (IH _ Hc')]. cbn beta.
      intros pt (l' & t & Hin & Hx & Hy & Ht). rewrite Qred_correct in Ht.
      exists l', t. cbn [In]. repeat split; [now right | assumption | assumption | lra].
Qed.

Lemma accumulate_rises (levels : list Level) (c : Q) :
  StronglySorted ascending levels -> Forall sizeNotNegative levels -> 0 <= c ->
  StronglySorted risesTo (accumulate (Fin c) levels).
Proof.
  intros Hs. revert c. induction Hs as [| l levels Hs IH Hl]; intros c Hall Hc.
  - constructor.
  - inversion Hall as [| ? ? [z [Hz Hnn]] Hall']; subst.
    cbn [accumulate]. rewrite Hz. cbn [nadd].
    assert (Hc' : 0 <= Qred (c + z)) by (rewrite Qred_correct; lra).
    constructor; [now apply IH |].
    eapply Forall_impl; [| exact (accumulate_from levels _ Hall' Hc')]. cbn beta.
    intros pt (l' & t & Hin & Hx & Hy & Ht). unfold risesTo. cbn [chartX chartY].
    rewrite Hx, Hy. split; [| now apply nle_Fin].
    rewrite Forall_forall in Hl. now apply Hl.
Qed.

(** X25: for a book with bids descending and asks ascending in price and
    sizes that are finite and not negative, the depth chart has at most 50
    points a side, and along each data set neither the price nor the
    cumulative size falls: the bid points run from the lowest of the bids
    shown up to the best bid, where the cumulative size is largest. *)
Theorem depth_chart_curves_rise (currentBook : Book) (b : Level) (rest : list Level) :
  bids currentBook = b :: rest ->
  StronglySorted descending (bids currentBook) ->
  StronglySorted ascending (asks currentBook) ->
  Forall sizeNotNegative (bids currentBook) ->
  Forall sizeNotNegative (asks currentBook) ->
  exists bidsData asksData,
    depthChartData currentBook = Some (bidsData, asksData)
    /\ (List.length bidsData <= 50)%nat /\ (List.length asksData <= 50)%nat
    /\ map chartX bidsData = rev (map price (firstn 50 (bids currentBook)))
    /\ StronglySorted risesTo bidsData
    /\ StronglySorted risesTo asksData.
Proof.
  intros Hb Hsb Hsa Hnb Hna. unfold depthChartData. rewrite Hb. rewrite <- Hb.
  eexists _, _. split; [reflexivity |].
  assert (H0 : 0 <= inject_Z 0) by (change (inject_Z 0) with 0; lra).
  assert (Hx : forall c levels, map chartX (accumulate c levels) = map price levels).
  { intros c levels. revert c. induction levels as [| l levels IH]; intros c;
      [reflexivity |]. cbn [accumulate map chartX]. now rewrite IH. }
  repeat split.
  - rewrite accumulate_length, length_rev, length_firstn. lia.
  - rewrite accumulate_length, length_firstn. lia.
  - rewrite Hx. now rewrite map_rev.
  - apply accumulate_rises; [| | exact H0].
    + apply (StronglySorted_rev descending). now apply StronglySorted_firstn.
    + apply Forall_rev. now apply Forall_firstn.
  - apply accumulate_rises; [| | exact H0].
    + now apply StronglySorted_firstn.
    + now apply Forall_firstn.
Qed.

Lemma depth_chart_curves_rise_witness :
  exists bidsData asksData,
    depthChartData referenceBook = Some (bidsData, asksData)
    /\ (List.length bidsData <= 50)%nat /\ (List.length asksData <= 50)%nat
    /\ map chartX bidsData = rev (map price (firstn 50 (bids referenceBook)))
    /\ StronglySorted risesTo bidsData
    /\ StronglySorted risesTo asksData.
Proof.
  apply (depth_chart_curves_rise referenceBook (mkLevel (numZ 99) (numZ 1)) []).
  - reflexivity.
  - repeat constructor.
  - repeat constructor.
  - repeat constructor. exists 1. split; [reflexivity | discriminate].
  - repeat constructor.
    + exists 1. split; [reflexivity | discriminate].
    + exists 2. split; [reflexivity | discriminate].
Defined.
